(** * CanAbilityGrants: the chat front end of the grant advisor

    A shallow embedding of the parts of [src/App.tsx] and
    [src/services/geminiService.ts] that assemble a streamed answer into a
    chat message, extract numbered options and yes/no questions from an
    answer, propose quick replies, gate submissions and implement retry.

    JavaScript strings are sequences of UTF-16 code units; they are modelled
    as lists of code units ([N]).  The patterns of [App.tsx] are written as
    regular-expression syntax trees and run by a backtracking matcher that
    follows the ECMAScript matching order (leftmost start, alternatives left
    to right, greedy and lazy quantifiers).  An asynchronous handler is a
    function of the state at its call, the value of [Date.now()] and the run
    of the remote stream that answers it; where a handler is called later
    than the render that built it, by a timer, the state of that render is
    an argument of its own. *)

From Stdlib Require Import List NArith ZArith Bool Lia String Ascii DecimalString.
Import ListNotations.

Set Implicit Arguments.

(** ** JavaScript strings *)

Module Js.

Definition char := N.
Definition jsstring := list char.

(** An ASCII literal as a JavaScript string. *)
Fixpoint str (s : string) : jsstring :=
  match s with
  | EmptyString => []
  | String a s' => N_of_ascii a :: str s'
  end.

Definition chr (a : ascii) : char := N_of_ascii a.

(** Decimal rendering of an integer, as template literals do for numbers. *)
Definition ofZ (z : Z) : jsstring := str (NilZero.string_of_int (Z.to_int z)).

(** ECMAScript LineTerminator: LF, CR, LS, PS. *)
Definition isLineTerminator (c : char) : bool :=
  ((c =? 10) || (c =? 13) || (c =? 8232) || (c =? 8233))%N.

(** ECMAScript WhiteSpace: TAB, VT, FF, ZWNBSP and the Unicode category Zs. *)
Definition isWhiteSpace (c : char) : bool :=
  ((c =? 9) || (c =? 11) || (c =? 12) || (c =? 32) || (c =? 160)
   || (c =? 5760) || ((8192 <=? c) && (c <=? 8202))
   || (c =? 8239) || (c =? 8287) || (c =? 12288) || (c =? 65279))%N.

(** What [\s] matches and what [trim] strips. *)
Definition isSpace (c : char) : bool := isWhiteSpace c || isLineTerminator c.

Fixpoint trimStart (s : jsstring) : jsstring :=
  match s with
  | [] => []
  | c :: s' => if isSpace c then trimStart s' else s
  end.

Definition trimEnd (s : jsstring) : jsstring := rev (trimStart (rev s)).

Definition trim (s : jsstring) : jsstring := trimEnd (trimStart s).

(** Truthiness of a string: the empty string is the only falsy one. *)
Definition truthy (s : jsstring) : bool :=
  match s with [] => false | _ :: _ => true end.

(** [s.split(sep)] for a one-unit separator: never the empty array. *)
Fixpoint split (sep : char) (s : jsstring) : list jsstring :=
  match s with
  | [] => [[]]
  | c :: s' =>
      if (c =? sep)%N then [] :: split sep s'
      else match split sep s' with
           | l :: ls => (c :: l) :: ls
           | [] => [[c]]
           end
  end.

Fixpoint startsWith (p s : jsstring) : bool :=
  match p, s with
  | [], _ => true
  | _ :: _, [] => false
  | a :: p', b :: s' => (a =? b)%N && startsWith p' s'
  end.

(** [s.includes(p)] *)
Fixpoint includes (s p : jsstring) : bool :=
  startsWith p s ||
  match s with
  | [] => false
  | _ :: s' => includes s' p
  end.

Fixpoint eqb (a b : jsstring) : bool :=
  match a, b with
  | [], [] => true
  | x :: a', y :: b' => (x =? y)%N && eqb a' b'
  | _, _ => false
  end.

(** [a.slice(0, n)] on arrays, for [0 <= n]. *)
Definition slice0 {A} (n : nat) (a : list A) : list A := firstn n a.

(** A value of an optional boolean field used as a condition. *)
Definition flag (b : option bool) : bool :=
  match b with Some true => true | _ => false end.

End Js.

Import Js.

(** ** Regular expressions *)

Module Regex.

Inductive regex : Type :=
| Eps
| Class (p : char -> bool)
| Seq (a b : regex)
| Alt (a b : regex)
| Star (a : regex)
| LazyStar (a : regex)
| Group (n : nat) (a : regex)
| Bol
| Eol.

Definition Plus (a : regex) : regex := Seq a (Star a).
Definition LazyPlus (a : regex) : regex := Seq a (LazyStar a).
Definition Opt (a : regex) : regex := Alt a Eps.
Definition cat (rs : list regex) : regex := fold_right Seq Eps rs.

(** Matcher state: index of the next code unit, the input from there on, and
    the captures made so far (most recent first). *)
Record mstate : Type := MState {
  pos : nat;
  rest : jsstring;
  caps : list (nat * jsstring)
}.

Definition orElse {A} (a b : option A) : option A :=
  match a with Some _ => a | None => b end.

(** The iterations of a quantifier over a matcher [ma] for its body, before
    the continuation [k].  An iteration that consumes nothing is abandoned,
    as in ECMAScript's RepeatMatcher, so each iteration shortens the input
    and [S (length rest)] rounds are never used up ([greedyLoop_fuel],
    [lazyLoop_fuel]). *)
Section Loops.

Variable ma : mstate -> (mstate -> option mstate) -> option mstate.
Variable k : mstate -> option mstate.

Fixpoint greedyLoop (n : nat) (x : mstate) {struct n} : option mstate :=
  match n with
  | O => k x
  | S n' =>
      orElse
        (ma x (fun y => if (pos y =? pos x)%nat then None
                        else greedyLoop n' y))
        (k x)
  end.

Fixpoint lazyLoop (n : nat) (x : mstate) {struct n} : option mstate :=
  match n with
  | O => k x
  | S n' =>
      orElse
        (k x)
        (ma x (fun y => if (pos y =? pos x)%nat then None
                        else lazyLoop n' y))
  end.

End Loops.

(** Backtracking matcher in continuation style. *)
Fixpoint run (r : regex) (x : mstate) (k : mstate -> option mstate)
  {struct r} : option mstate :=
  match r with
  | Eps => k x
  | Class p =>
      match rest x with
      | c :: s => if p c then k (MState (S (pos x)) s (caps x)) else None
      | [] => None
      end
  | Seq a b => run a x (fun y => run b y k)
  | Alt a b => orElse (run a x k) (run b x k)
  | Star a => greedyLoop (run a) k (S (List.length (rest x))) x
  | LazyStar a => lazyLoop (run a) k (S (List.length (rest x))) x
  | Group n a =>
      run a x (fun y =>
        k (MState (pos y) (rest y)
             ((n, firstn (pos y - pos x) (rest x)) :: caps y)))
  | Bol => if (pos x =? 0)%nat then k x else None
  | Eol => match rest x with [] => k x | _ :: _ => None end
  end.

(** [re.exec(s)] for a pattern without flags: the leftmost start index at
    which the pattern matches, with the state at the end of the match. *)
Fixpoint execFrom (r : regex) (i : nat) (s : jsstring)
  : option (nat * mstate) :=
  match run r (MState i s []) (fun y => Some y) with
  | Some y => Some (i, y)
  | None =>
      match s with
      | [] => None
      | _ :: s' => execFrom r (S i) s'
      end
  end.

Definition exec (r : regex) (s : jsstring) : option (nat * mstate) :=
  execFrom r 0 s.

Fixpoint assoc (n : nat) (l : list (nat * jsstring)) : option jsstring :=
  match l with
  | [] => None
  | (m, v) :: l' => if (m =? n)%nat then Some v else assoc n l'
  end.

(** [match[n]] *)
Definition capture (n : nat) (y : mstate) : option jsstring :=
  assoc n (caps y).

(** [s.replace(re, repl)] for a pattern without flags and a replacement
    without [$] patterns. *)
Definition replaceFirst (r : regex) (repl s : jsstring) : jsstring :=
  match exec r s with
  | None => s
  | Some (i, y) => firstn i s ++ repl ++ rest y
  end.

(** [s.replace(re, repl)] for a pattern with the [g] flag. *)
Fixpoint replaceAllFrom (fuel : nat) (r : regex) (repl : jsstring)
  (i : nat) (s : jsstring) : jsstring :=
  match fuel with
  | O => s
  | S fuel' =>
      match execFrom r i s with
      | None => s
      | Some (j, y) =>
          firstn (j - i) s ++ repl ++
          (if (pos y =? j)%nat
           then match rest y with
                | [] => []
                | c :: s' => c :: replaceAllFrom fuel' r repl (S j) s'
                end
           else replaceAllFrom fuel' r repl (pos y) (rest y))
      end
  end.

Definition replaceAll (r : regex) (repl s : jsstring) : jsstring :=
  replaceAllFrom (S (List.length s)) r repl 0 s.

(** Character classes of the patterns in [App.tsx]. *)
Definition lit (a : ascii) : char -> bool := fun c => (c =? chr a)%N.
Definition space : regex := Class isSpace.                     (* \s *)
Definition digit : regex :=                                    (* \d *)
  Class (fun c => (48 <=? c) && (c <=? 57))%N.
Definition dot : regex := Class (fun c => negb (isLineTerminator c)).
Definition star : regex := Class (lit "*").                     (* \* *)
Definition qmark : regex := Class (lit "?").                    (* \? *)
Definition sep : regex :=                                      (* [.):\s] *)
  Class (fun c => lit "." c || lit ")" c || lit ":" c || isSpace c).
Definition dash : regex :=                                     (* [-\u2013:] *)
  Class (fun c => lit "-" c || (c =? 8211)%N || lit ":" c).

End Regex.

Import Regex.

(** ** Data model ([src/types.ts]) *)

Record WebSource : Type := {
  uri : option jsstring;
  title : option jsstring
}.

Record GroundingChunk : Type := {
  web : option WebSource
}.

Record GroundingMetadata : Type := {
  gm_groundingChunks : option (list GroundingChunk)
}.

Record Candidate : Type := {
  groundingMetadata : option GroundingMetadata
}.

Record GenerateContentResponse : Type := {
  candidates : option (list Candidate);
  gcr_text : jsstring
}.

Inductive Role : Type := user | model.

Definition Role_eqb (a b : Role) : bool :=
  match a, b with
  | user, user | model, model => true
  | _, _ => false
  end.

Record ChatMessage : Type := {
  id : jsstring;
  role : Role;
  text : jsstring;
  groundingChunks : option (list GroundingChunk);
  isStreaming : option bool;
  hasError : option bool
}.

Record QuickOption : Type := {
  qo_id : jsstring;
  label : jsstring;
  value : jsstring
}.

Inductive YesNo : Type := yes | no.

Record QuestionAnswer : Type := {
  questionId : jsstring;
  questionText : jsstring;
  answer : option YesNo
}.

Definition MAX_INPUT_LENGTH : nat := 2000.
Definition MIN_MESSAGE_INTERVAL : Z := 1000.

(** ** Structured-content extraction *)

Definition newline : char := 10%N.

(** [/^\s*\*?\*?(\d+)[.):\s]+\*?\*?\s*(.+?)(?:\*?\*?\s*[-\u2013:]|$)/] *)
Definition optionLineRe : regex :=
  cat [ Bol; Star space; Opt star; Opt star;
        Group 1 (Plus digit);
        Plus sep; Opt star; Opt star; Star space;
        Group 2 (LazyPlus dot);
        Alt (cat [Opt star; Opt star; Star space; dash]) Eol ].

(** [/^\s*\*?\*?(\d+)[.):\s]+\*?\*?\s*(.+\?)\s*$/] *)
Definition questionLineRe : regex :=
  cat [ Bol; Star space; Opt star; Opt star;
        Group 1 (Plus digit);
        Plus sep; Opt star; Opt star; Star space;
        Group 2 (cat [Plus dot; qmark]);
        Star space; Eol ].

(** [/\*\*/g] *)
Definition boldRe : regex := cat [star; star].

(** [/\s*[-\u2013:]\s*$/] *)
Definition trailerRe : regex := cat [Star space; dash; Star space; Eol].

(** The two captures of a successful [line.match(re)]. *)
Definition matchGroups (re : regex) (line : jsstring)
  : option (jsstring * jsstring) :=
  match exec re line with
  | Some (_, y) =>
      match capture 1 y, capture 2 y with
      | Some num, Some body => Some (num, body)
      | _, _ => None
      end
  | None => None
  end.

(** The number and the cleaned label of a line that matches the option
    pattern. *)
Definition optionLabel (line : jsstring) : option (jsstring * jsstring) :=
  match matchGroups optionLineRe line with
  | Some (num, body) =>
      let label := trim body in
      let label := trim (replaceFirst trailerRe [] (replaceAll boldRe [] label)) in
      Some (num, label)
  | None => None
  end.

Definition mkOption (num label : jsstring) : QuickOption :=
  {| qo_id := str "opt-" ++ num;
     label := label;
     value := num ++ str ". " ++ label |}.

(** Body of the [for (const line of lines)] loop of [parseOptionsFromText]:
    the array [options] after the line has been looked at. *)
Definition pushOption (options : list QuickOption) (line : jsstring)
  : list QuickOption :=
  match optionLabel line with
  | Some (num, label) =>
      if truthy label && (2 <? List.length label)%nat
         && (List.length label <? 100)%nat
      then options ++ [mkOption num label]
      else options
  | None => options
  end.

Definition parseOptionsFromText (text : jsstring) : list QuickOption :=
  let lines := split newline text in
  slice0 6 (fold_left pushOption lines []).

(** The number and the cleaned text of a line that matches the question
    pattern. *)
Definition questionLabel (line : jsstring) : option (jsstring * jsstring) :=
  match matchGroups questionLineRe line with
  | Some (num, body) =>
      let questionText := trim body in
      let questionText := trim (replaceAll boldRe [] questionText) in
      Some (num, questionText)
  | None => None
  end.

Definition mkQuestion (num questionText : jsstring) : QuestionAnswer :=
  {| questionId := str "q-" ++ num;
     questionText := questionText;
     answer := None |}.

Definition pushQuestion (questions : list QuestionAnswer) (line : jsstring)
  : list QuestionAnswer :=
  match questionLabel line with
  | Some (num, questionText) =>
      if (5 <? List.length questionText)%nat
      then questions ++ [mkQuestion num questionText]
      else questions
  | None => questions
  end.

Definition parseMultiQuestions (text : jsstring) : list QuestionAnswer :=
  let lines := split newline text in
  slice0 10 (fold_left pushQuestion lines []).

Definition hasMultipleQuestions (text : jsstring) : bool :=
  (2 <=? List.length (parseMultiQuestions text))%nat.

(** [hasMultiQ] of the render loop over the model messages. *)
Definition hasMultiQ (msg : ChatMessage) : bool :=
  (2 <=? List.length (parseMultiQuestions (text msg)))%nat
  && negb (flag (isStreaming msg)) && negb (flag (hasError msg)).

(** The per-question yes/no controls are rendered for [msg]. *)
Definition showsMultiQuestionControls (msg : ChatMessage) (isLatest : bool)
  : bool :=
  hasMultiQ msg && isLatest.

(** The single-choice option buttons are rendered for [msg]. *)
Definition showsOptionButtons (msg : ChatMessage) (isLatest : bool) : bool :=
  negb (hasMultiQ msg) && negb (flag (isStreaming msg))
  && negb (flag (hasError msg))
  && (0 <? List.length (parseOptionsFromText (text msg)))%nat && isLatest.

(** ** Quick replies *)

Section QuickReplies.

(** [String.prototype.toLowerCase]: the Unicode case mapping is a built-in of
    the language, taken as a parameter. *)
Variable toLowerCase : jsstring -> jsstring.

Definition yesNoKeywords : list jsstring :=
  [ str "do you"; str "does it"; str "is it"; str "are you";
    str "can you"; str "would you"; str "have you" ].

Definition helpKeywords : list jsstring :=
  [ str "form"; str "application"; str "grant" ].

Definition replyYes : QuickOption :=
  {| qo_id := str "yes"; label := str "Yes"; value := str "Yes" |}.
Definition replyNo : QuickOption :=
  {| qo_id := str "no"; label := str "No"; value := str "No" |}.
Definition replyMore : QuickOption :=
  {| qo_id := str "more"; label := str "Tell me more";
     value := str "Can you tell me more about that?" |}.
Definition replyHelp : QuickOption :=
  {| qo_id := str "help"; label := str "I need help understanding";
     value := str "I need help understanding this. Can you explain it in simpler terms?" |}.

(** [getQuickReplies], as a function of the two pieces of component state it
    closes over. *)
Definition getQuickReplies (messages : list ChatMessage) (isProcessing : bool)
  : list QuickOption :=
  if (List.length messages =? 0)%nat || isProcessing then []
  else
    match nth_error messages (List.length messages - 1) with
    | None => []
    | Some lastMsg =>
        if negb (Role_eqb (role lastMsg) model) || flag (isStreaming lastMsg)
        then []
        else
          let text := toLowerCase (text lastMsg) in
          let replies := [] in
          let replies :=
            if includes text (str "?")
               && existsb (includes text) yesNoKeywords
            then (replies ++ [replyYes]) ++ [replyNo]
            else replies in
          (* the test for "which one", "which program", "which grant" has an
             empty body *)
          let replies :=
            if includes text (str "?") then replies ++ [replyMore]
            else replies in
          let replies :=
            if existsb (includes text) helpKeywords
            then replies ++ [replyHelp]
            else replies in
          slice0 4 replies
    end.

End QuickReplies.

(** Lower-casing of the letters A to Z, which is what [toLowerCase] does on
    text made of ASCII code units. *)
Definition asciiLower (s : jsstring) : jsstring :=
  map (fun c => if (65 <=? c) && (c <=? 90) then c + 32 else c)%N s.

(** ** Component state and the exchange *)

(** A thrown value, as far as the two [catch] blocks look at it.
    [message] is [err.message] when it is a string, and absent when it is
    [undefined] or [null] (an [Error], any other object, a primitive).
    [typeError] is present when [error.message?.includes] cannot be
    evaluated on the value: it is [null] or [undefined], or its [message]
    is neither a string nor absent and has no [includes].  Its content is
    the message of the [TypeError] that the engine raises there; [message]
    is then not looked at.  A [message] that is not a string and has an
    [includes] of its own (an array, say) is not modelled. *)
Record JsError : Type := {
  message : option jsstring;
  typeError : option jsstring
}.

(** The state hooks and refs of [App] that the handlers read or write, and
    [remoteRequests], the texts handed so far to [sendMessageStream] of
    [geminiService.ts], the only way to the remote service. *)
Record State : Type := MkState {
  inputText : jsstring;
  messages : list ChatMessage;
  isProcessing : bool;
  hasStarted : bool;
  error : option jsstring;
  lastMessageTime : Z;
  isMountedRef : bool;
  messageCounterRef : Z;
  remoteRequests : list jsstring
}.

Definition setInputText (v : jsstring) (s : State) : State :=
  MkState v (messages s) (isProcessing s) (hasStarted s) (error s)
    (lastMessageTime s) (isMountedRef s) (messageCounterRef s)
    (remoteRequests s).

Definition setMessages (f : list ChatMessage -> list ChatMessage) (s : State)
  : State :=
  MkState (inputText s) (f (messages s)) (isProcessing s) (hasStarted s)
    (error s) (lastMessageTime s) (isMountedRef s) (messageCounterRef s)
    (remoteRequests s).

Definition setIsProcessing (v : bool) (s : State) : State :=
  MkState (inputText s) (messages s) v (hasStarted s) (error s)
    (lastMessageTime s) (isMountedRef s) (messageCounterRef s)
    (remoteRequests s).

Definition setError (v : option jsstring) (s : State) : State :=
  MkState (inputText s) (messages s) (isProcessing s) (hasStarted s) v
    (lastMessageTime s) (isMountedRef s) (messageCounterRef s)
    (remoteRequests s).

Definition setLastMessageTime (v : Z) (s : State) : State :=
  MkState (inputText s) (messages s) (isProcessing s) (hasStarted s)
    (error s) v (isMountedRef s) (messageCounterRef s) (remoteRequests s).

Definition setIsMounted (v : bool) (s : State) : State :=
  MkState (inputText s) (messages s) (isProcessing s) (hasStarted s)
    (error s) (lastMessageTime s) v (messageCounterRef s) (remoteRequests s).

Definition setMessageCounter (v : Z) (s : State) : State :=
  MkState (inputText s) (messages s) (isProcessing s) (hasStarted s)
    (error s) (lastMessageTime s) (isMountedRef s) v (remoteRequests s).

Definition logRequest (m : jsstring) (s : State) : State :=
  MkState (inputText s) (messages s) (isProcessing s) (hasStarted s)
    (error s) (lastMessageTime s) (isMountedRef s) (messageCounterRef s)
    (remoteRequests s ++ [m]).

(** What happens while [sendMessageStream] is awaited: the remote stream
    yields a response chunk, or the component is unmounted (the cleanup of
    the mount effect runs). *)
Inductive StreamEvent : Type :=
| Chunk (c : GenerateContentResponse)
| Unmount.

(** One run of the remote stream: the events in order, and how the stream
    ends (normally, or by throwing). *)
Record Remote : Type := {
  events : list StreamEvent;
  failure : option JsError
}.

(** The local variables of the [try] block. *)
Record Accumulator : Type := {
  accumulatedText : jsstring;
  accumulatedGrounding : list GroundingChunk
}.

(** [chunk.candidates?.[0]?.groundingMetadata?.groundingChunks] *)
Definition groundingOf (c : GenerateContentResponse)
  : option (list GroundingChunk) :=
  match candidates c with
  | Some (cand :: _) =>
      match groundingMetadata cand with
      | Some gm => gm_groundingChunks gm
      | None => None
      end
  | _ => None
  end.

(** The callback handed to [sendMessageStream]. *)
Definition onChunk (aiMsgId : jsstring) (chunk : jsstring)
  (chunks : option (list GroundingChunk)) (a : Accumulator * State)
  : Accumulator * State :=
  let (acc, s) := a in
  if negb (isMountedRef s) then (acc, s)
  else
    let accumulatedText := accumulatedText acc ++ chunk in
    let accumulatedGrounding :=
      match chunks with
      | Some chunks => accumulatedGrounding acc ++ chunks
      | None => accumulatedGrounding acc
      end in
    ({| accumulatedText := accumulatedText;
        accumulatedGrounding := accumulatedGrounding |},
     setMessages
       (map (fun msg =>
          if eqb (id msg) aiMsgId
          then {| id := id msg; role := role msg;
                  text := accumulatedText;
                  groundingChunks := Some accumulatedGrounding;
                  isStreaming := isStreaming msg;
                  hasError := hasError msg |}
          else msg)) s).

(** The [for await] loop of [sendMessageStream], with the unmount that may
    happen between two chunks. *)
Fixpoint deliver (aiMsgId : jsstring) (evs : list StreamEvent)
  (a : Accumulator * State) : Accumulator * State :=
  match evs with
  | [] => a
  | Chunk c :: evs' =>
      deliver aiMsgId evs' (onChunk aiMsgId (gcr_text c) (groundingOf c) a)
  | Unmount :: evs' =>
      deliver aiMsgId evs' (fst a, setIsMounted false (snd a))
  end.

Definition rateLimitMessage : jsstring :=
  str "I am thinking very hard right now. Please wait a moment and try again.".

(** The [catch] of [sendMessageStream], that is what leaves it for the
    [catch] of the handler: the [TypeError] when the test of the message
    raises one; a new [Error] when the message mentions 429; the value
    itself otherwise. *)
Definition rethrow (err : JsError) : JsError :=
  match typeError err with
  | Some raised => {| message := Some raised; typeError := None |}
  | None =>
      match message err with
      | Some m =>
          if includes m (str "429")
          then {| message := Some rateLimitMessage; typeError := None |}
          else err
      | None => err
      end
  end.

(** [sendMessageStream(message, onChunk)]: the state after the last event and
    the error thrown, if any.  A session that cannot be opened is a run
    without events that throws; its message does not mention 429. *)
Definition sendMessageStream (aiMsgId message : jsstring) (remote : Remote)
  (a : Accumulator * State) : option JsError * (Accumulator * State) :=
  let a := (fst a, logRequest message (snd a)) in
  let a := deliver aiMsgId (events remote) a in
  match failure remote with
  | Some err => (Some (rethrow err), a)
  | None => (None, a)
  end.

Definition connectionTrouble : jsstring :=
  str "I had trouble connecting. Please try saying that again.".

Definition errorFallback : jsstring :=
  str "Sorry, I encountered an error. Please try again.".

(** [a || b] on strings *)
Definition orString (a : option jsstring) (b : jsstring) : jsstring :=
  match a with
  | Some a => if truthy a then a else b
  | None => b
  end.

(** The [try]/[catch]/[finally] statement shared, word for word, by
    [handleSendWithText] and [handleSend]. *)
Definition tryStream (aiMsgId userText : jsstring) (remote : Remote)
  (s : State) : State :=
  let acc := {| accumulatedText := []; accumulatedGrounding := [] |} in
  let '(thrown, (_, s)) := sendMessageStream aiMsgId userText remote (acc, s) in
  let s :=
    match thrown with
    | None =>
        if negb (isMountedRef s) then s
        else
          setMessages
            (map (fun msg =>
               if eqb (id msg) aiMsgId
               then {| id := id msg; role := role msg; text := text msg;
                       groundingChunks := groundingChunks msg;
                       isStreaming := Some false;
                       hasError := hasError msg |}
               else msg)) s
    | Some err =>
        if negb (isMountedRef s) then s
        else
          let errorMessage := orString (message err) connectionTrouble in
          let s := setError (Some errorMessage) s in
          setMessages
            (map (fun msg =>
               if eqb (id msg) aiMsgId
               then {| id := id msg; role := role msg;
                       text := orString (Some (text msg)) errorFallback;
                       groundingChunks := groundingChunks msg;
                       isStreaming := Some false;
                       hasError := Some true |}
               else msg)) s
    end in
  if isMountedRef s then setIsProcessing false s else s.

(** The statements between the two guards and the [try]: ids, the user
    message, the placeholder.  The same in both handlers. *)
Definition aiMsgIdOf (msgId now : Z) : jsstring :=
  str "ai-" ++ ofZ msgId ++ str "-" ++ ofZ now.

Definition userMsgIdOf (msgId now : Z) : jsstring :=
  str "user-" ++ ofZ msgId ++ str "-" ++ ofZ now.

Definition userMessageOf (msgId now : Z) (userText : jsstring) : ChatMessage :=
  {| id := userMsgIdOf msgId now; role := user; text := userText;
     groundingChunks := None; isStreaming := None; hasError := None |}.

Definition aiMessagePlaceholder (msgId now : Z) : ChatMessage :=
  {| id := aiMsgIdOf msgId now; role := model; text := [];
     groundingChunks := None; isStreaming := Some true; hasError := None |}.

Definition enqueue (userText : jsstring) (now : Z) (s : State) : State :=
  let s := setLastMessageTime now s in
  let msgId := messageCounterRef s in
  let s := setMessageCounter (msgId + 1) s in
  let s := setMessages (fun prev => prev ++ [userMessageOf msgId now userText]) s in
  let s := setInputText [] s in
  let s := setIsProcessing true s in
  let s := setError None s in
  setMessages (fun prev => prev ++ [aiMessagePlaceholder msgId now]) s.

(** [handleSendWithText(text)] as the render of the state [render] builds
    it, called at time [now] (the value of [Date.now()]) on the state [s],
    with the run of the remote stream that answers it.  The function is
    built anew at every render and closes over the state of that render:
    its two guards read the [isProcessing] and the [lastMessageTime] of
    [render].  What it writes, it writes to the state of the call: the
    setters with a function argument, the counter, which is a ref, and the
    plain setters, which overwrite. *)
Definition handleSendWithTextFrom (render : State) (text : jsstring) (now : Z)
  (remote : Remote) (s : State) : State :=
  if negb (truthy (trim text)) || isProcessing render then s
  else if (now - lastMessageTime render <? MIN_MESSAGE_INTERVAL)%Z then s
  else
    let msgId := messageCounterRef s in
    tryStream (aiMsgIdOf msgId now) text remote (enqueue text now s).

(** [handleSendWithText(text)] of the render of the state it is called on:
    a call made before any state changes again. *)
Definition handleSendWithText (text : jsstring) (now : Z) (remote : Remote)
  (s : State) : State :=
  handleSendWithTextFrom s text now remote s.

(** A timer set by [handleQuickReplyClick]: the render whose
    [handleSendWithText] its callback calls, and the text it passes. *)
Record Timer : Type := {
  timerRender : State;
  timerText : jsstring
}.

(** [handleQuickReplyClick(reply)], called on the state [s]: the state
    after the click and the timer set, if any.  The callback is rebuilt
    when [isProcessing] changes, and [lastMessageTime] changes only together
    with it, so the [handleSendWithText] it holds reads the [isProcessing]
    and the [lastMessageTime] of [s]. *)
Definition handleQuickReplyClick (reply : QuickOption) (s : State)
  : State * option Timer :=
  if isProcessing s then (s, None)
  else (setInputText (value reply) s,
        Some {| timerRender := s; timerText := value reply |}).

(** The callback of a timer, run at time [now] on the state [s]. *)
Definition fire (timer : option Timer) (now : Z) (remote : Remote) (s : State)
  : State :=
  match timer with
  | Some t => handleSendWithTextFrom (timerRender t) (timerText t) now remote s
  | None => s
  end.

(** [handleSend()], which the send button and the key handler of the
    current render call. *)
Definition handleSend (now : Z) (remote : Remote) (s : State) : State :=
  if negb (truthy (trim (inputText s))) || isProcessing s then s
  else if (now - lastMessageTime s <? MIN_MESSAGE_INTERVAL)%Z then s
  else
    let msgId := messageCounterRef s in
    let userText := inputText s in
    tryStream (aiMsgIdOf msgId now) userText remote (enqueue userText now s).

(** [array.findIndex(p)]; [None] stands for [-1]. *)
Fixpoint findIndex {A} (p : A -> bool) (l : list A) : option nat :=
  match l with
  | [] => None
  | a :: l' =>
      if p a then Some 0%nat
      else match findIndex p l' with
           | Some i => Some (S i)
           | None => None
           end
  end.

(** [handleRetry(messageId)] *)
Definition handleRetry (messageId : jsstring) (s : State) : State :=
  match findIndex (fun m => eqb (id m) messageId) (messages s) with
  | None => s
  | Some msgIndex =>
      match nth_error (messages s) msgIndex with
      | None => s
      | Some msg =>
          if Role_eqb (role msg) user
          then
            let s := setMessages (fun prev => slice0 msgIndex prev) s in
            let s := setInputText (text msg) s in
            setError None s
          else s
      end
  end.

(** The citation list of a message as the render and export code read it:
    an absent [groundingChunks] is no citation. *)
Definition citations (m : ChatMessage) : list GroundingChunk :=
  match groundingChunks m with
  | Some l => l
  | None => []
  end.

(** [messages[messages.length - 1]], absent for the empty conversation. *)
Definition lastMessage (messages : list ChatMessage) : option ChatMessage :=
  match messages with
  | [] => None
  | _ :: _ => nth_error messages (List.length messages - 1)
  end.

(** The options contributed by one line, taken alone. *)
Definition optionsOfLine (line : jsstring) : list QuickOption :=
  pushOption [] line.

(** The questions contributed by one line, taken alone. *)
Definition questionsOfLine (line : jsstring) : list QuestionAnswer :=
  pushQuestion [] line.

(** Texts used in the examples of the specification. *)
Definition twoGrants : jsstring :=
  str "1. Apply for housing grant" ++ [newline] ++ str "2. Apply for medical grant".

Definition rentLine : jsstring := str "1. Do you rent your home?".
Definition vehicleLine : jsstring := str "2. Do you own a vehicle?".
Definition twoQuestions : jsstring := rentLine ++ [newline] ++ vehicleLine.

(** The component state while an accepted submission is suspended at the
    [await], after the events [evs] of its stream. *)
Definition midExchange (userText : jsstring) (now : Z)
  (evs : list StreamEvent) (s : State) : State :=
  snd (deliver (aiMsgIdOf (messageCounterRef s) now) evs
         ({| accumulatedText := []; accumulatedGrounding := [] |},
          logRequest userText (enqueue userText now s))).

(** Both flags of an exchange are down: [isProcessing], and [isStreaming] of
    the assistant message at index [i]. *)
Definition flagsCleared (i : nat) (s : State) : Prop :=
  isProcessing s = false
  /\ exists m, nth_error (messages s) i = Some m
               /\ flag (isStreaming m) = false.

(** A component that has just been mounted, with [txt] typed in. *)
Definition freshState (txt : jsstring) : State :=
  {| inputText := txt; messages := []; isProcessing := false;
     hasStarted := true; error := None; lastMessageTime := 0;
     isMountedRef := true; messageCounterRef := 0; remoteRequests := [] |}.

(** A conversation whose last answer is a finished question of the
    advisor: the quick replies are on screen. *)
Definition repliesShown : State :=
  {| inputText := []; isProcessing := false; hasStarted := true;
     error := None; lastMessageTime := 5000; isMountedRef := true;
     messageCounterRef := 1; remoteRequests := [str "hello"];
     messages :=
       [ {| id := str "user-0-5000"; role := user; text := str "hello";
            groundingChunks := None; isStreaming := None; hasError := None |};
         {| id := str "ai-0-5000"; role := model;
            text := str "Do you need help with the Grant application form?";
            groundingChunks := None; isStreaming := Some false;
            hasError := None |} ] |}.

(** A stream that throws at once. *)
Definition failedToFetch : Remote :=
  {| events := [];
     failure := Some {| message := Some (str "Failed to fetch");
                        typeError := None |} |}.

(** ** Notions used in the statements *)

(** [y] is a state the matcher can reach from [x]: further along the same
    input. *)
Definition ahead (x y : mstate) : Prop :=
  pos x <= pos y
  /\ pos y + List.length (rest y) = pos x + List.length (rest x).

(** A matcher that calls its continuation only on states ahead. *)
Definition local (ma : mstate -> (mstate -> option mstate) -> option mstate)
  : Prop :=
  forall x k k', (forall y, ahead x y -> k y = k' y) -> ma x k = ma x k'.

(** A finished answer that meets all three quick-reply conditions. *)
Definition grantQuestion : ChatMessage :=
  {| id := str "ai-0-5000"; role := model;
     text := str "Do you need help with the Grant application form?";
     groundingChunks := None; isStreaming := Some false; hasError := None |}.

(** The citations a response chunk carries, none when the field is absent. *)
Definition batchOf (c : GenerateContentResponse) : list GroundingChunk :=
  match groundingOf c with
  | Some l => l
  | None => []
  end.

(** The fields of a message that the chunk callback never writes. *)
Definition shape (m : ChatMessage)
  : jsstring * Role * option bool * option bool :=
  (id m, role m, isStreaming m, hasError m).

(** Everything but [messages] and the mounted flag is the same. *)
Definition sameControls (s s' : State) : Prop :=
  inputText s' = inputText s /\ isProcessing s' = isProcessing s
  /\ hasStarted s' = hasStarted s /\ error s' = error s
  /\ lastMessageTime s' = lastMessageTime s
  /\ messageCounterRef s' = messageCounterRef s
  /\ remoteRequests s' = remoteRequests s.

(** The in-flight assistant message sits at index [i] and shows what has
    been accumulated; [touched] tells whether the callback has written it. *)
Definition inflight (aiMsgId : jsstring) (i : nat) (touched : bool)
  (acc : Accumulator) (s : State) : Prop :=
  nth_error (messages s) i
  = Some {| id := aiMsgId; role := model; text := accumulatedText acc;
            groundingChunks :=
              if touched then Some (accumulatedGrounding acc) else None;
            isStreaming := Some true; hasError := None |}.

(** No chunk arrived. *)
Definition noChunk (cs : list GenerateContentResponse) : bool :=
  match cs with [] => true | _ :: _ => false end.

(** The assistant message at the end of an exchange that was not torn
    down. *)
Definition finalMessage (aiMsgId : jsstring)
  (cs : list GenerateContentResponse) (thrown : option JsError)
  : ChatMessage :=
  {| id := aiMsgId; role := model;
     text := match thrown with
             | None => List.concat (map gcr_text cs)
             | Some _ => orString (Some (List.concat (map gcr_text cs))) errorFallback
             end;
     groundingChunks := if noChunk cs then None
                        else Some (List.concat (map batchOf cs));
     isStreaming := Some false;
     hasError := match thrown with None => None | Some _ => Some true end |}.

(** Example response chunks. *)
Definition sourceA : GroundingChunk :=
  {| web := Some {| uri := Some (str "https://a.example");
                    title := Some (str "A") |} |}.

(** A response chunk with text [t] and citation batch [g]. *)
Definition chunkOf (t : jsstring) (g : option (list GroundingChunk))
  : GenerateContentResponse :=
  {| candidates :=
       Some [ {| groundingMetadata :=
                   Some {| gm_groundingChunks := g |} |} ];
     gcr_text := t |}.

(** A stream of one chunk that ends normally. *)
Definition oneChunk : Remote :=
  {| events := [Chunk (chunkOf (str "Hi") None)]; failure := None |}.

(** A conversation of two exchanges, the second of which failed. *)
Definition threeMessages : State :=
  {| inputText := []; isProcessing := false; hasStarted := true;
     error := Some (str "I had trouble connecting. Please try saying that again.");
     lastMessageTime := 9000; isMountedRef := true; messageCounterRef := 2;
     remoteRequests := [str "first"; str "second"];
     messages :=
       [ {| id := str "user-0-5000"; role := user; text := str "first";
            groundingChunks := None; isStreaming := None; hasError := None |};
         {| id := str "ai-0-5000"; role := model; text := str "answer";
            groundingChunks := None; isStreaming := Some false;
            hasError := None |};
         {| id := str "user-1-9000"; role := user; text := str "second";
            groundingChunks := None; isStreaming := None; hasError := None |};
         {| id := str "ai-1-9000"; role := model;
            text := str "Sorry, I encountered an error. Please try again.";
            groundingChunks := None; isStreaming := Some false;
            hasError := Some true |} ] |}.

(** ** The rest of the component *)

Definition setHasStarted (v : bool) (s : State) : State :=
  MkState (inputText s) (messages s) (isProcessing s) v (error s)
    (lastMessageTime s) (isMountedRef s) (messageCounterRef s)
    (remoteRequests s).

(** [handleInputChange], on the value of the text area. *)
Definition handleInputChange (v : jsstring) (s : State) : State :=
  if (List.length v <=? MAX_INPUT_LENGTH)%nat then setInputText v s else s.

(** [handleOptionClick(option)] *)
Definition handleOptionClick (o : QuickOption) (s : State) : State :=
  if isProcessing s then s else setInputText (value o) s.

(** The click handler of the "Try Again" button under the model message
    [msg]: retry the message just before it. *)
Definition tryAgain (msg : ChatMessage) (s : State) : State :=
  match findIndex (fun m => eqb (id m) (id msg)) (messages s) with
  | Some (S userMsgIndex) =>
      match nth_error (messages s) userMsgIndex with
      | Some u => handleRetry (id u) s
      | None => s
      end
  | _ => s
  end.

(** The condition of the "Searching and thinking..." row:
    [isProcessing && messages[messages.length - 1]?.role === 'user']. *)
Definition showsLoading (s : State) : bool :=
  isProcessing s
  && match lastMessage (messages s) with
     | Some m => Role_eqb (role m) user
     | None => false
     end.

(** *** Collapsing of the model messages *)

Definition modelMessages (ms : list ChatMessage) : list ChatMessage :=
  filter (fun m => Role_eqb (role m) model) ms.

(** [modelMessages[modelMessages.length - 1]?.id] *)
Definition lastMsgId (ms : list ChatMessage) : option jsstring :=
  option_map id (lastMessage (modelMessages ms)).

Definition isLatest (ms : list ChatMessage) (msg : ChatMessage) : bool :=
  match lastMsgId ms with
  | Some i => eqb (id msg) i
  | None => false
  end.

(** A [Set<string>]: its elements in insertion order, without repetition. *)
Definition setHas (x : jsstring) (l : list jsstring) : bool :=
  existsb (eqb x) l.

Definition setAdd (x : jsstring) (l : list jsstring) : list jsstring :=
  if setHas x l then l else l ++ [x].

Definition setDelete (x : jsstring) (l : list jsstring) : list jsstring :=
  filter (fun y => negb (eqb y x)) l.

(** [Array.from(new Set(l))] *)
Definition setOfList (l : list jsstring) : list jsstring :=
  fold_left (fun acc x => setAdd x acc) l [].

(** The updater of [toggleMessageExpansion(msgId)]. *)
Definition toggleMessageExpansion (msgId : jsstring) (prev : list jsstring)
  : list jsstring :=
  if setHas msgId prev then setDelete msgId prev else setAdd msgId prev.

Definition isExpanded (ms : list ChatMessage) (expanded : list jsstring)
  (msg : ChatMessage) : bool :=
  isLatest ms msg || setHas (id msg) expanded.

(** *** Answers to the questions of a message *)

(** [Record<string, QuestionAnswer[]>]: the own properties of the object.
    Only lookups are made, so the order of the keys plays no part. *)
Definition Answers : Type := list (jsstring * list QuestionAnswer).

Fixpoint getKey (k : jsstring) (o : Answers) : option (list QuestionAnswer) :=
  match o with
  | [] => None
  | (k', v) :: o' => if eqb k' k then Some v else getKey k o'
  end.

(** [{ ...prev, [k]: v }] *)
Fixpoint setKey (k : jsstring) (v : list QuestionAnswer) (o : Answers)
  : Answers :=
  match o with
  | [] => [(k, v)]
  | (k', v') :: o' =>
      if eqb k' k then (k', v) :: o' else (k', v') :: setKey k v o'
  end.


(** [prev[msgId] || []] *)
Definition answersOf (msgId : jsstring) (prev : Answers)
  : list QuestionAnswer :=
  match getKey msgId prev with
  | Some l => l
  | None => []
  end.

(** [updated[i] = f(updated[i])] on a copy, for an index in range. *)
Fixpoint updateAt {A} (i : nat) (f : A -> A) (l : list A) : list A :=
  match l, i with
  | [], _ => []
  | a :: l', O => f a :: l'
  | a :: l', S i' => a :: updateAt i' f l'
  end.

(** The updater of [handleMultiAnswerChange(msgId, questionId, answer)]. *)
Definition handleMultiAnswerChange (msgId qid : jsstring) (a : YesNo)
  (prev : Answers) : Answers :=
  let currentAnswers := answersOf msgId prev in
  match findIndex (fun x => eqb (questionId x) qid) currentAnswers with
  | Some existingIndex =>
      let updated :=
        updateAt existingIndex
          (fun x => {| questionId := questionId x;
                       questionText := questionText x;
                       answer := Some a |}) currentAnswers in
      setKey msgId updated prev
  | None =>
      setKey msgId
        (currentAnswers
           ++ [ {| questionId := qid; questionText := []; answer := Some a |} ])
        prev
  end.

(** [currentAnswer] of the radio buttons of question [q]. *)
Definition currentAnswer (msgId : jsstring) (q : QuestionAnswer)
  (prev : Answers) : option YesNo :=
  match find (fun x => eqb (questionId x) (questionId q))
          (answersOf msgId prev) with
  | Some x => answer x
  | None => None
  end.

Definition isAnswered (x : QuestionAnswer) : bool :=
  match answer x with Some _ => true | None => false end.

(** [areAllQuestionsAnswered(msgId, questions)] *)
Definition areAllQuestionsAnswered (msgId : jsstring)
  (questions : list QuestionAnswer) (prev : Answers) : bool :=
  let answers := answersOf msgId prev in
  forallb (fun q =>
             existsb (fun x => eqb (questionId x) (questionId q)
                               && isAnswered x) answers) questions.

(** [a.join(sep)] *)
Fixpoint join (sep : jsstring) (l : list jsstring) : jsstring :=
  match l with
  | [] => []
  | [a] => a
  | a :: l' => a ++ sep ++ join sep l'
  end.





(** *** Export and sources *)

(** [c.web?.uri] *)
Definition uriOf (c : GroundingChunk) : option jsstring :=
  match web c with
  | Some w => uri w
  | None => None
  end.

(** [chunks.map(c => c.web?.uri).filter(Boolean)] *)
Definition truthyUris (cs : list GroundingChunk) : list jsstring :=
  flat_map (fun c => match uriOf c with
                     | Some u => if truthy u then [u] else []
                     | None => []
                     end) cs.

(** One element of the [map] of [formatConversation]. *)
Definition formatMessage (m : ChatMessage) : jsstring :=
  (match role m with user => str "You" | model => str "Advisor" end)
  ++ str ": " ++ text m ++ [newline]
  ++ match groundingChunks m with
     | Some (c :: cs) =>
         [newline] ++ str "Sources: "
         ++ join (str ", ") (truthyUris (c :: cs)) ++ [newline]
     | _ => []
     end.

Definition conversationSeparator : jsstring :=
  [newline] ++ str "---" ++ [newline; newline].

Definition formatConversation (ms : list ChatMessage) : jsstring :=
  join conversationSeparator (map formatMessage ms).

(** The label of the source link of [u]: the title of the first chunk with
    that uri, [chunk?.web?.title || "Source"]. *)
Definition titleShown (cs : list GroundingChunk) (u : jsstring) : jsstring :=
  match find (fun c => match uriOf c with
                       | Some v => eqb v u
                       | None => false
                       end) cs with
  | Some c => orString (match web c with
                        | Some w => title w
                        | None => None
                        end) (str "Source")
  | None => str "Source"
  end.

(** The source links rendered under a message: uri and label. *)
Definition displayedSources (cs : list GroundingChunk)
  : list (jsstring * jsstring) :=
  map (fun u => (u, titleShown cs u)) (setOfList (truthyUris cs)).

(** *** Start of the chat *)

(** The module state of [geminiService.ts] and the environment it reads. *)
Record Service : Type := {
  API_KEY : option jsstring;
  ai : bool;
  chatSession : bool
}.

Definition apiKeyMissing : JsError :=
  {| message :=
       Some (str "API Key is missing. Please add API_KEY to your environment variables.");
     typeError := None |}.

(** [getAI()] then [chats.create]: the error thrown, or the module state
    with a session. *)
Definition initializeChat (v : Service) : JsError + Service :=
  if ai v then inr {| API_KEY := API_KEY v; ai := true; chatSession := true |}
  else
    match API_KEY v with
    | Some k =>
        if truthy k
        then inr {| API_KEY := API_KEY v; ai := true; chatSession := true |}
        else inl apiKeyMissing
    | None => inl apiKeyMissing
    end.

(** The component state with [isInitializing], and the service. *)
Record Shell : Type := {
  core : State;
  isInitializing : bool;
  service : Service
}.

Definition startFailed : jsstring :=
  str "Failed to start chat. Please refresh and try again.".

(** [handleStart()] *)
Definition handleStart (now : Z) (remote : Remote) (a : Shell) : Shell :=
  if negb (truthy (trim (inputText (core a)))) || isInitializing a then a
  else
    let s := setHasStarted true (core a) in
    let '(s, v) :=
      match initializeChat (service a) with
      | inr v =>
          if negb (isMountedRef s) then (s, v)
          else (handleSend now remote s, v)
      | inl err =>
          if negb (isMountedRef s) then (s, service a)
          else (setError (Some startFailed) s, service a)
      end in
    {| core := s;
       isInitializing := if isMountedRef s then false else true;
       service := v |}.

(** *** The saved conversation *)

(** What [JSON.parse] makes of the string in the slot [chat-history]; a
    string written by [JSON.stringify(messages)] parses to the messages. *)
Inductive Stored : Type :=
| Malformed
| NotAnArray
| History (l : list ChatMessage).

(** The slot: absent, or a string. *)
Definition Storage : Type := option Stored.

(** The effect that loads the conversation on mount. *)
Definition loadEffect (saved : Storage) (s : State) : State :=
  match saved with
  | Some (History parsed) =>
      if (0 <? List.length parsed)%nat
      then setHasStarted true (setMessages (fun _ => parsed) s)
      else s
  | _ => s
  end.

(** The effect that saves the conversation when [messages] has changed. *)
Definition saveEffect (s : State) (saved : Storage) : Storage :=
  if (0 <? List.length (messages s))%nat then Some (History (messages s))
  else saved.

(** [clearConversation()], with the answer to [window.confirm]. *)
Definition clearConversation (confirmed : bool) (a : State * Storage)
  : State * Storage :=
  if confirmed
  then (setError None (setHasStarted false (setMessages (fun _ => []) (fst a))),
        None)
  else a.

(** The state of a component that has just been mounted. *)
Definition initialState : State :=
  {| inputText := []; messages := []; isProcessing := false;
     hasStarted := false; error := None; lastMessageTime := 0;
     isMountedRef := true; messageCounterRef := 0; remoteRequests := [] |}.

(** A page load: mount, then the load effect. *)
Definition reload (saved : Storage) : State := loadEffect saved initialState.

(** A first visit, with a request typed in and no API key configured. *)
Definition firstVisit : Shell :=
  {| core := {| inputText := str "I need a ramp"; messages := [];
                isProcessing := false; hasStarted := false; error := None;
                lastMessageTime := 0; isMountedRef := true;
                messageCounterRef := 0; remoteRequests := [] |};
     isInitializing := false;
     service := {| API_KEY := None; ai := false; chatSession := false |} |}.

(** *** A click while the answer streams *)

(** What the [try] statement still does once the stream has ended: the
    statements after the [await], or the [catch], and the [finally].  With
    [settle_after_stream] below, [tryStream] is the loop followed by
    [settle]; a handler that runs between two chunks acts on the state in
    between. *)
Definition settle (aiMsgId : jsstring) (thrown : option JsError) (s : State)
  : State :=
  let s :=
    match thrown with
    | None =>
        if negb (isMountedRef s) then s
        else
          setMessages
            (map (fun msg =>
               if eqb (id msg) aiMsgId
               then {| id := id msg; role := role msg; text := text msg;
                       groundingChunks := groundingChunks msg;
                       isStreaming := Some false;
                       hasError := hasError msg |}
               else msg)) s
    | Some err =>
        if negb (isMountedRef s) then s
        else
          let errorMessage := orString (message err) connectionTrouble in
          let s := setError (Some errorMessage) s in
          setMessages
            (map (fun msg =>
               if eqb (id msg) aiMsgId
               then {| id := id msg; role := role msg;
                       text := orString (Some (text msg)) errorFallback;
                       groundingChunks := groundingChunks msg;
                       isStreaming := Some false;
                       hasError := Some true |}
               else msg)) s
    end in
  if isMountedRef s then setIsProcessing false s else s.

(** The accumulator and the state once the chunks [cs] of the answer to
    [userText] have arrived. *)
Definition streamedSoFar (userText : jsstring) (now : Z)
  (cs : list GenerateContentResponse) (s : State) : Accumulator * State :=
  deliver (aiMsgIdOf (messageCounterRef s) now) (map Chunk cs)
    ({| accumulatedText := []; accumulatedGrounding := [] |},
     logRequest userText (enqueue userText now s)).

(** The end of the exchange when [click] runs after the chunks [cs1], and
    the chunks [cs2] and the end of the stream follow. *)
Definition exchangeWithClick (userText : jsstring) (now : Z)
  (cs1 cs2 : list GenerateContentResponse) (thrown : option JsError)
  (click : State -> State) (s : State) : State :=
  let aiMsgId := aiMsgIdOf (messageCounterRef s) now in
  let a := streamedSoFar userText now cs1 s in
  let a := deliver aiMsgId (map Chunk cs2) (fst a, click (snd a)) in
  settle aiMsgId (option_map rethrow thrown) (snd a).

(** *** Notions used in the further statements *)

(** No white space at either end. *)
Definition trimmed (s : jsstring) : Prop :=
  (forall c t, s = c :: t -> isSpace c = false)
  /\ (forall c t, rev s = c :: t -> isSpace c = false).

(** All the options of the lines of a text, before the cut at six. *)
Definition allOptions (text : jsstring) : list QuickOption :=
  flat_map optionsOfLine (split newline text).

(** All the questions of the lines of a text, before the cut at ten. *)
Definition allQuestions (text : jsstring) : list QuestionAnswer :=
  flat_map questionsOfLine (split newline text).

(** Question [q] counts as answered in the answers of message [msgId]
    (the test inside [areAllQuestionsAnswered]). *)
Definition answeredIn (msgId : jsstring) (prev : Answers) (q : QuestionAnswer)
  : bool :=
  existsb (fun x => eqb (questionId x) (questionId q) && isAnswered x)
    (answersOf msgId prev).

(** Every stored entry carries an answer, as every entry written by
    [handleMultiAnswerChange] does. *)
Definition entriesAnswered (prev : Answers) : Prop :=
  forall k l x, getKey k prev = Some l -> In x l -> isAnswered x = true.

(** The radio buttons of the questions clicked one after the other, with
    the choices [choice]. *)
Definition answerEach (msgId : jsstring) (choice : QuestionAnswer -> YesNo)
  (questions : list QuestionAnswer) (prev : Answers) : Answers :=
  fold_left (fun acc q =>
               handleMultiAnswerChange msgId (questionId q) (choice q) acc)
    questions prev.

(** *** What a pattern can consume *)

(** The strings a pattern can consume, anchors aside. *)
Inductive lang : regex -> jsstring -> Prop :=
| lang_Eps : lang Eps []
| lang_Class (p : char -> bool) (c : char) :
    p c = true -> lang (Class p) [c]
| lang_Seq (a b : regex) (w1 w2 : jsstring) :
    lang a w1 -> lang b w2 -> lang (Seq a b) (w1 ++ w2)
| lang_Alt_l (a b : regex) (w : jsstring) : lang a w -> lang (Alt a b) w
| lang_Alt_r (a b : regex) (w : jsstring) : lang b w -> lang (Alt a b) w
| lang_Star_nil (a : regex) : lang (Star a) []
| lang_Star_cons (a : regex) (w1 w2 : jsstring) :
    lang a w1 -> lang (Star a) w2 -> lang (Star a) (w1 ++ w2)
| lang_LazyStar_nil (a : regex) : lang (LazyStar a) []
| lang_LazyStar_cons (a : regex) (w1 w2 : jsstring) :
    lang a w1 -> lang (LazyStar a) w2 -> lang (LazyStar a) (w1 ++ w2)
| lang_Group (n : nat) (a : regex) (w : jsstring) :
    lang a w -> lang (Group n a) w
| lang_Bol : lang Bol []
| lang_Eol : lang Eol [].

(** The capture groups of a pattern, with their bodies. *)
Fixpoint groupBodies (r : regex) : list (nat * regex) :=
  match r with
  | Seq a b | Alt a b => groupBodies a ++ groupBodies b
  | Star a | LazyStar a => groupBodies a
  | Group n a => (n, a) :: groupBodies a
  | _ => []
  end.

(** A capture that a group of [r] can have made. *)
Definition captured (r : regex) (nv : nat * jsstring) : Prop :=
  exists a, In (fst nv, a) (groupBodies r) /\ lang a (snd nv).

(** The matcher gets from [x] to [z] through [r]: it consumes a string of
    [r] and adds captures of the groups of [r]. *)
Definition reaches (r : regex) (x z : mstate) : Prop :=
  exists w new,
    rest x = w ++ rest z
    /\ pos z = pos x + List.length w
    /\ lang r w
    /\ caps z = new ++ caps x
    /\ Forall (captured r) new.

Definition isDigit (c : char) : bool := ((48 <=? c) && (c <=? 57))%N.

Definition isStar (c : char) : bool := lit "*" c.

(** What [s.replace(/\*\*/g, '')] computes: the string without its pairs of
    asterisks, taken from the left. *)
Fixpoint stripBold (s : jsstring) : jsstring :=
  match s with
  | [] => []
  | c1 :: t =>
      match t with
      | [] => [c1]
      | c2 :: t' =>
          if isStar c1 && isStar c2 then stripBold t'
          else c1 :: stripBold t
      end
  end.

(** No pair of asterisks. *)
Definition noBold (s : jsstring) : Prop := includes s (str "**") = false.

(** What the class of the dash, the en dash and the colon accepts. *)
Definition isDash (c : char) : bool :=
  lit "-" c || (c =? 8211)%N || lit ":" c.

(** * Properties *)

(** ** Strings *)

Lemma eqb_refl (a : jsstring) : eqb a a = true.
Proof.
  induction a as [|c a IH]; simpl; [reflexivity|].
  now rewrite N.eqb_refl.
Qed.

Lemma eqb_eq (a b : jsstring) : eqb a b = true <-> a = b.
Proof.
  split; [|intros ->; apply eqb_refl].
  revert b; induction a as [|c a IH]; intros [|d b]; simpl; try congruence.
  rewrite andb_true_iff, N.eqb_eq. intros [-> H]. now rewrite (IH b H).
Qed.

Lemma eqb_neq (a b : jsstring) : eqb a b = false <-> a <> b.
Proof.
  split.
  - intros H E. apply eqb_eq in E. congruence.
  - intros H. destruct (eqb a b) eqn:E; [|reflexivity].
    apply eqb_eq in E. contradiction.
Qed.

(** ** The matcher *)

Lemma ahead_refl (x : mstate) : ahead x x.
Proof. unfold ahead; lia. Qed.

Lemma ahead_trans (x y z : mstate) : ahead x y -> ahead y z -> ahead x z.
Proof. unfold ahead; lia. Qed.

Lemma greedyLoop_ext ma (L : local ma) (n : nat) :
  forall x k k', (forall y, ahead x y -> k y = k' y) ->
                 greedyLoop ma k n x = greedyLoop ma k' n x.
Proof.
  induction n as [|n IH]; intros x k k' H; simpl.
  - apply H, ahead_refl.
  - rewrite (H x (ahead_refl x)). f_equal. apply L. intros y A.
    destruct (pos y =? pos x)%nat; [reflexivity|].
    apply IH. intros z B. apply H. eapply ahead_trans; eassumption.
Qed.

Lemma lazyLoop_ext ma (L : local ma) (n : nat) :
  forall x k k', (forall y, ahead x y -> k y = k' y) ->
                 lazyLoop ma k n x = lazyLoop ma k' n x.
Proof.
  induction n as [|n IH]; intros x k k' H; simpl.
  - apply H, ahead_refl.
  - rewrite (H x (ahead_refl x)). f_equal. apply L. intros y A.
    destruct (pos y =? pos x)%nat; [reflexivity|].
    apply IH. intros z B. apply H. eapply ahead_trans; eassumption.
Qed.

Lemma run_local (r : regex) : local (run r).
Proof.
  induction r as [|p|a IHa b IHb|a IHa b IHb|a IHa|a IHa|n a IHa| |];
    intros x k k' H; cbn [run].
  - apply H, ahead_refl.
  - destruct (rest x) as [|c s] eqn:E; [reflexivity|].
    destruct (p c); [|reflexivity].
    apply H. unfold ahead. simpl. rewrite E. simpl. lia.
  - apply IHa. intros y A. apply IHb. intros z B.
    apply H. eapply ahead_trans; eassumption.
  - now rewrite (IHa x k k' H), (IHb x k k' H).
  - now apply greedyLoop_ext.
  - now apply lazyLoop_ext.
  - apply IHa. intros y A. apply H. exact A.
  - destruct (pos x =? 0)%nat; [apply H, ahead_refl|reflexivity].
  - destruct (rest x); [apply H, ahead_refl|reflexivity].
Qed.

(** More rounds than [S (length rest)] change nothing: the rounds a
    quantifier is given are never used up. *)
Lemma greedyLoop_fuel ma (L : local ma) k (n : nat) :
  forall m x, S (List.length (rest x)) <= n -> S (List.length (rest x)) <= m ->
              greedyLoop ma k n x = greedyLoop ma k m x.
Proof.
  induction n as [|n IH]; intros [|m] x Hn Hm; try lia. simpl.
  f_equal. apply L. intros y [A1 A2].
  destruct (Nat.eqb_spec (pos y) (pos x)) as [E|E]; [reflexivity|].
  apply IH; lia.
Qed.

Lemma lazyLoop_fuel ma (L : local ma) k (n : nat) :
  forall m x, S (List.length (rest x)) <= n -> S (List.length (rest x)) <= m ->
              lazyLoop ma k n x = lazyLoop ma k m x.
Proof.
  induction n as [|n IH]; intros [|m] x Hn Hm; try lia. simpl.
  f_equal. apply L. intros y [A1 A2].
  destruct (Nat.eqb_spec (pos y) (pos x)) as [E|E]; [reflexivity|].
  apply IH; lia.
Qed.

(** ** The extraction loops *)

Lemma pushOption_app (acc : list QuickOption) (line : jsstring) :
  pushOption acc line = acc ++ optionsOfLine line.
Proof.
  unfold optionsOfLine, pushOption.
  destruct (optionLabel line) as [[num lbl]|]; [|now rewrite app_nil_r].
  destruct (truthy lbl && _ && _); [reflexivity|now rewrite app_nil_r].
Qed.

Lemma fold_pushOption (lines : list jsstring) (acc : list QuickOption) :
  fold_left pushOption lines acc = acc ++ flat_map optionsOfLine lines.
Proof.
  revert acc; induction lines as [|l lines IH]; intros acc; simpl.
  - now rewrite app_nil_r.
  - rewrite IH, pushOption_app, <- app_assoc. reflexivity.
Qed.

Lemma pushQuestion_app (acc : list QuestionAnswer) (line : jsstring) :
  pushQuestion acc line = acc ++ questionsOfLine line.
Proof.
  unfold questionsOfLine, pushQuestion.
  destruct (questionLabel line) as [[num q]|]; [|now rewrite app_nil_r].
  destruct (5 <? _)%nat; [reflexivity|now rewrite app_nil_r].
Qed.

Lemma fold_pushQuestion (lines : list jsstring) (acc : list QuestionAnswer) :
  fold_left pushQuestion lines acc = acc ++ flat_map questionsOfLine lines.
Proof.
  revert acc; induction lines as [|l lines IH]; intros acc; simpl.
  - now rewrite app_nil_r.
  - rewrite IH, pushQuestion_app, <- app_assoc. reflexivity.
Qed.

Lemma parseOptionsFromText_spec (text : jsstring) :
  parseOptionsFromText text
  = firstn 6 (flat_map optionsOfLine (split newline text)).
Proof.
  unfold parseOptionsFromText, slice0. now rewrite fold_pushOption.
Qed.

Lemma parseMultiQuestions_spec (text : jsstring) :
  parseMultiQuestions text
  = firstn 10 (flat_map questionsOfLine (split newline text)).
Proof.
  unfold parseMultiQuestions, slice0. now rewrite fold_pushQuestion.
Qed.

Lemma optionsOfLine_label (line num lbl : jsstring) :
  optionLabel line = Some (num, lbl) ->
  optionsOfLine line
  = if (3 <=? List.length lbl)%nat && (List.length lbl <? 100)%nat
    then [mkOption num lbl] else [].
Proof.
  intros H. unfold optionsOfLine, pushOption. rewrite H.
  destruct lbl as [|c [|c1 [|c2 lbl]]]; reflexivity.
Qed.

(** The yes/no controls and the option buttons are never rendered for the
    same message, and the controls only for the latest one. *)
Lemma controls_exclude_option_buttons (msg : ChatMessage) (isLatest : bool) :
  (showsMultiQuestionControls msg isLatest = true <->
   hasMultiQ msg = true /\ isLatest = true)
  /\ (showsOptionButtons msg isLatest = true ->
      showsMultiQuestionControls msg isLatest = false).
Proof.
  unfold showsMultiQuestionControls, showsOptionButtons. split.
  - now rewrite andb_true_iff.
  - destruct (hasMultiQ msg); [discriminate|reflexivity].
Qed.

(** C2.  [hasMultiQ] holds exactly when [parseMultiQuestions] finds at least
    two questions in the text of the message and the message is neither
    streaming nor in error; a streaming message never has it, whatever its
    text; the two-question example text gives exactly two questions, and
    with either line removed it gives one question and [hasMultiQ] is
    false. *)
Theorem hasMultiQ_iff_two_questions_and_finalized :
  (forall msg : ChatMessage,
      hasMultiQ msg = true <->
      2 <= List.length (parseMultiQuestions (text msg))
      /\ flag (isStreaming msg) = false /\ flag (hasError msg) = false)
  /\ (forall msg : ChatMessage,
         isStreaming msg = Some true -> hasMultiQ msg = false)
  /\ parseMultiQuestions twoQuestions
     = [ mkQuestion (str "1") (str "Do you rent your home?");
         mkQuestion (str "2") (str "Do you own a vehicle?") ]
  /\ parseMultiQuestions rentLine
     = [ mkQuestion (str "1") (str "Do you rent your home?") ]
  /\ parseMultiQuestions vehicleLine
     = [ mkQuestion (str "2") (str "Do you own a vehicle?") ]
  /\ (forall msg : ChatMessage,
         text msg = rentLine \/ text msg = vehicleLine ->
         hasMultiQ msg = false).
Proof.
  split; [|split; [|split; [|split; [|split]]]].
  - intros msg. unfold hasMultiQ.
    rewrite !andb_true_iff, !negb_true_iff, Nat.leb_le. tauto.
  - intros msg H. unfold hasMultiQ. rewrite H. simpl.
    now rewrite andb_false_r.
  - vm_compute. reflexivity.
  - vm_compute. reflexivity.
  - vm_compute. reflexivity.
  - intros msg [H|H]; unfold hasMultiQ; rewrite H;
      replace (2 <=? _)%nat with false by (vm_compute; reflexivity);
      reflexivity.
Qed.

Lemma hasMultiQ_iff_witness :
  hasMultiQ {| id := str "ai-0-5000"; role := model; text := twoQuestions;
               groundingChunks := None; isStreaming := Some true;
               hasError := None |} = false.
Proof.
  apply (proj1 (proj2 hasMultiQ_iff_two_questions_and_finalized)).
  reflexivity.
Defined.

(** C4.  The numbered line "1. Do you rent your home?" is matched by both
    extractors: it is an option of [parseOptionsFromText] and a question of
    [parseMultiQuestions] on the same text, and on the two-question text
    each extractor returns both lines. *)
Theorem question_line_is_option_and_question :
  parseOptionsFromText rentLine
  = [ mkOption (str "1") (str "Do you rent your home?") ]
  /\ parseMultiQuestions rentLine
     = [ mkQuestion (str "1") (str "Do you rent your home?") ]
  /\ List.length (parseOptionsFromText twoQuestions) = 2
  /\ List.length (parseMultiQuestions twoQuestions) = 2.
Proof.
  repeat split; vm_compute; reflexivity.
Qed.

(** ** Quick replies *)

Lemma nth_error_last {A} (l : list A) (a : A) :
  nth_error (l ++ [a]) (List.length (l ++ [a]) - 1) = Some a.
Proof.
  rewrite length_app. simpl.
  replace (List.length l + 1 - 1) with (List.length l) by lia.
  rewrite nth_error_app2 by lia. now rewrite Nat.sub_diag.
Qed.

Lemma lastMessage_snoc (l : list ChatMessage) (m : ChatMessage) :
  lastMessage (l ++ [m]) = Some m.
Proof.
  unfold lastMessage. pose proof (nth_error_last l m) as H.
  destruct (l ++ [m]) eqn:E; [destruct l; discriminate|exact H].
Qed.

Lemma getQuickReplies_lastMessage (lower : jsstring -> jsstring)
  (msgs : list ChatMessage) (p : bool) :
  getQuickReplies lower msgs p
  = match lastMessage msgs with
    | None => []
    | Some m => getQuickReplies lower [m] p
    end.
Proof.
  destruct msgs as [|m0 msgs]; [reflexivity|].
  unfold lastMessage, getQuickReplies.
  change (List.length (m0 :: msgs) =? 0) with false.
  destruct (nth_error (m0 :: msgs) (List.length (m0 :: msgs) - 1)) as [m|];
    simpl; destruct p; reflexivity.
Qed.

Lemma getQuickReplies_length (lower : jsstring -> jsstring)
  (msgs : list ChatMessage) (p : bool) :
  List.length (getQuickReplies lower msgs p) <= 4.
Proof.
  unfold getQuickReplies.
  destruct (_ || p); [simpl; lia|].
  destruct (nth_error _ _) as [m|]; [|simpl; lia].
  destruct (_ || _); [simpl; lia|].
  apply firstn_le_length.
Qed.

(** [hasError] plays no part in the quick replies. *)
Lemma getQuickReplies_ignores_hasError (lower : jsstring -> jsstring)
  (msgs : list ChatMessage) (m : ChatMessage) (e : option bool) (p : bool) :
  getQuickReplies lower (msgs ++ [m]) p
  = getQuickReplies lower
      (msgs ++ [ {| id := id m; role := role m; text := text m;
                    groundingChunks := groundingChunks m;
                    isStreaming := isStreaming m; hasError := e |} ]) p.
Proof.
  rewrite !getQuickReplies_lastMessage, !lastMessage_snoc. reflexivity.
Qed.

(** C5.  [getQuickReplies] returns no reply while [isProcessing] is true,
    for the empty conversation, and when the last message is a user message
    or is still streaming; it never returns more than four replies; when the
    lower-cased text of the last message has a question mark, one of the
    yes/no phrases and one of the words form, application, grant, the
    replies are Yes, No, Tell me more and the help reply, in that order; and
    the result is determined by the last message and [isProcessing]. *)
Theorem getQuickReplies_gated_capped_ordered (lower : jsstring -> jsstring) :
  (forall msgs, getQuickReplies lower msgs true = [])
  /\ (forall p, getQuickReplies lower [] p = [])
  /\ (forall msgs m p,
         lastMessage msgs = Some m ->
         role m <> model \/ isStreaming m = Some true ->
         getQuickReplies lower msgs p = [])
  /\ (forall msgs p, List.length (getQuickReplies lower msgs p) <= 4)
  /\ (forall msgs m,
         lastMessage msgs = Some m ->
         role m = model -> flag (isStreaming m) = false ->
         includes (lower (text m)) (str "?") = true ->
         existsb (includes (lower (text m))) yesNoKeywords = true ->
         existsb (includes (lower (text m))) helpKeywords = true ->
         getQuickReplies lower msgs false
         = [replyYes; replyNo; replyMore; replyHelp])
  /\ (forall msgs1 msgs2 p,
         lastMessage msgs1 = lastMessage msgs2 ->
         getQuickReplies lower msgs1 p = getQuickReplies lower msgs2 p).
Proof.
  split; [|split; [|split; [|split; [|split]]]].
  - intros msgs. unfold getQuickReplies. now rewrite orb_true_r.
  - intros p. reflexivity.
  - intros msgs m p L H. rewrite getQuickReplies_lastMessage, L.
    unfold getQuickReplies. simpl. destruct p; [reflexivity|].
    destruct H as [H|H].
    + destruct (role m); [reflexivity|congruence].
    + rewrite H. simpl. now rewrite orb_true_r.
  - apply getQuickReplies_length.
  - intros msgs m L R S Q Y H. rewrite getQuickReplies_lastMessage, L.
    unfold getQuickReplies.
    cbn [List.length Nat.eqb Nat.sub nth_error orb].
    rewrite R, S, Q, Y, H. reflexivity.
  - intros msgs1 msgs2 p H.
    rewrite (getQuickReplies_lastMessage lower msgs1),
      (getQuickReplies_lastMessage lower msgs2), H. reflexivity.
Qed.

Lemma getQuickReplies_witness :
  getQuickReplies asciiLower [grantQuestion] false
  = [replyYes; replyNo; replyMore; replyHelp].
Proof.
  apply (proj1 (proj2 (proj2 (proj2 (proj2
    (getQuickReplies_gated_capped_ordered asciiLower)))))) with grantQuestion;
    vm_compute; reflexivity.
Defined.

(** ** The exchange *)

Lemma sameControls_refl (s : State) : sameControls s s.
Proof. unfold sameControls; tauto. Qed.

Lemma sameControls_trans (s1 s2 s3 : State) :
  sameControls s1 s2 -> sameControls s2 s3 -> sameControls s1 s3.
Proof. unfold sameControls; intuition congruence. Qed.

Lemma setIsMounted_same (s : State) (b : bool) :
  isMountedRef s = b -> setIsMounted b s = s.
Proof. destruct s; simpl; intros <-; reflexivity. Qed.

Lemma onChunk_frame (aiMsgId chunk : jsstring)
  (chunks : option (list GroundingChunk)) (acc : Accumulator) (s : State) :
  sameControls s (snd (onChunk aiMsgId chunk chunks (acc, s)))
  /\ map shape (messages (snd (onChunk aiMsgId chunk chunks (acc, s))))
     = map shape (messages s).
Proof.
  unfold onChunk. destruct (negb (isMountedRef s)); simpl.
  - split; [apply sameControls_refl|reflexivity].
  - split; [unfold sameControls; simpl; tauto|].
    rewrite map_map. apply map_ext. intros m.
    destruct (eqb (id m) aiMsgId); reflexivity.
Qed.

Lemma deliver_frame (aiMsgId : jsstring) (evs : list StreamEvent) :
  forall (a : Accumulator * State),
    sameControls (snd a) (snd (deliver aiMsgId evs a))
    /\ map shape (messages (snd (deliver aiMsgId evs a)))
       = map shape (messages (snd a)).
Proof.
  induction evs as [|[c|] evs IH]; intros [acc s]; simpl.
  - split; [apply sameControls_refl|reflexivity].
  - destruct (IH (onChunk aiMsgId (gcr_text c) (groundingOf c) (acc, s)))
      as [F M].
    destruct (onChunk_frame aiMsgId (gcr_text c) (groundingOf c) acc s)
      as [F0 M0].
    split; [exact (sameControls_trans F0 F)|].
    exact (eq_trans M M0).
  - destruct (IH (acc, setIsMounted false s)) as [F M]. simpl in F, M.
    split; [|exact M].
    eapply sameControls_trans; [|exact F]. unfold sameControls; simpl; tauto.
Qed.

Lemma deliver_app (aiMsgId : jsstring) (e1 e2 : list StreamEvent) :
  forall a, deliver aiMsgId (e1 ++ e2) a
            = deliver aiMsgId e2 (deliver aiMsgId e1 a).
Proof.
  induction e1 as [|[c|] e1 IH]; intros a; simpl; [reflexivity| |];
    apply IH.
Qed.

(** After the unmount no event changes anything. *)
Lemma deliver_unmounted (aiMsgId : jsstring) (evs : list StreamEvent) :
  forall acc s, isMountedRef s = false ->
                deliver aiMsgId evs (acc, s) = (acc, s).
Proof.
  induction evs as [|[c|] evs IH]; intros acc s H; simpl.
  - reflexivity.
  - unfold onChunk. rewrite H. simpl. now apply IH.
  - rewrite (setIsMounted_same s H). now apply IH.
Qed.

Lemma onChunk_inflight (aiMsgId chunk : jsstring)
  (chunks : option (list GroundingChunk)) (i : nat) (t : bool)
  (acc : Accumulator) (s : State) :
  isMountedRef s = true ->
  inflight aiMsgId i t acc s ->
  let a' := onChunk aiMsgId chunk chunks (acc, s) in
  inflight aiMsgId i true (fst a') (snd a')
  /\ isMountedRef (snd a') = true
  /\ accumulatedText (fst a') = accumulatedText acc ++ chunk
  /\ accumulatedGrounding (fst a')
     = accumulatedGrounding acc
       ++ match chunks with Some l => l | None => [] end.
Proof.
  intros M I. unfold onChunk. rewrite M. simpl.
  split; [|split; [exact M|split; [reflexivity|]]].
  - unfold inflight in *. simpl. rewrite nth_error_map, I. simpl.
    now rewrite eqb_refl.
  - destruct chunks; [reflexivity|now rewrite app_nil_r].
Qed.

Lemma deliver_chunks_inflight (aiMsgId : jsstring) (i : nat)
  (cs : list GenerateContentResponse) :
  forall (t : bool) (acc : Accumulator) (s : State),
    isMountedRef s = true ->
    inflight aiMsgId i t acc s ->
    let a' := deliver aiMsgId (map Chunk cs) (acc, s) in
    inflight aiMsgId i (t || negb (noChunk cs)) (fst a') (snd a')
    /\ isMountedRef (snd a') = true
    /\ accumulatedText (fst a')
       = accumulatedText acc ++ List.concat (map gcr_text cs)
    /\ accumulatedGrounding (fst a')
       = accumulatedGrounding acc ++ List.concat (map batchOf cs).
Proof.
  induction cs as [|c cs IH]; intros t acc s M I;
    cbn [map deliver noChunk negb List.concat].
  - rewrite orb_false_r, !app_nil_r. auto.
  - destruct (onChunk_inflight (gcr_text c) (groundingOf c) M I)
      as (I1 & M1 & T1 & G1).
    destruct (onChunk aiMsgId (gcr_text c) (groundingOf c) (acc, s))
      as [acc1 s1] eqn:E. simpl in I1, M1, T1, G1.
    destruct (IH true acc1 s1 M1 I1) as (I2 & M2 & T2 & G2).
    simpl in I2. rewrite orb_true_r.
    split; [exact I2|split; [exact M2|split]].
    + rewrite T2, T1, <- app_assoc. reflexivity.
    + rewrite G2, G1, <- app_assoc. reflexivity.
Qed.

(** The state just after the synchronous part of an accepted submission. *)
Lemma enqueue_inflight (userText : jsstring) (now : Z) (s : State) :
  inflight (aiMsgIdOf (messageCounterRef s) now)
    (List.length (messages s) + 1) false
    {| accumulatedText := []; accumulatedGrounding := [] |}
    (logRequest userText (enqueue userText now s)).
Proof.
  unfold inflight, enqueue. simpl.
  rewrite nth_error_app2; rewrite length_app; simpl; [|lia].
  replace (_ + 1 - _) with 0 by lia. reflexivity.
Qed.

Lemma tryStream_mounted (userText : jsstring) (now : Z) (s : State)
  (cs : list GenerateContentResponse) (thrown : option JsError) :
  isMountedRef s = true ->
  let aiMsgId := aiMsgIdOf (messageCounterRef s) now in
  let s' := tryStream aiMsgId userText
              {| events := map Chunk cs; failure := thrown |}
              (enqueue userText now s) in
  nth_error (messages s') (List.length (messages s) + 1)
  = Some (finalMessage aiMsgId cs thrown)
  /\ isProcessing s' = false
  /\ lastMessageTime s' = now
  /\ List.length (messages s') = List.length (messages s) + 2
  /\ remoteRequests s' = remoteRequests s ++ [userText].
Proof.
  intros M aiMsgId s'. subst s'. unfold tryStream, sendMessageStream.
  cbn [fst snd events failure].
  pose proof (enqueue_inflight userText now s) as I0.
  assert (M0 : isMountedRef (logRequest userText (enqueue userText now s))
               = true) by exact M.
  destruct (deliver_chunks_inflight cs M0 I0) as (I & M1 & T & G).
  destruct (deliver_frame aiMsgId (map Chunk cs)
              ({| accumulatedText := []; accumulatedGrounding := [] |},
               logRequest userText (enqueue userText now s))) as [F Sh].
  fold aiMsgId in I, M1, T, G.
  destruct (deliver aiMsgId (map Chunk cs) _) as [acc1 s1].
  cbn [fst snd] in *. simpl in T, G.
  assert (L : List.length (messages s1) = List.length (messages s) + 2).
  { rewrite <- (length_map shape), Sh, length_map. unfold enqueue. simpl.
    rewrite !length_app. simpl. lia. }
  destruct F as (_ & _ & _ & _ & FT & _ & FR). simpl in FT, FR.
  unfold inflight in I.
  destruct thrown as [err|]; simpl; rewrite M1; simpl; rewrite M1; simpl;
    rewrite nth_error_map, I; simpl; rewrite eqb_refl, length_map;
    (split; [|repeat split; assumption]);
    unfold finalMessage; rewrite T, G; destruct cs; reflexivity.
Qed.

Lemma handleSendWithText_accepted (txt : jsstring) (now : Z)
  (remote : Remote) (s : State) :
  truthy (trim txt) = true -> isProcessing s = false ->
  (MIN_MESSAGE_INTERVAL <= now - lastMessageTime s)%Z ->
  handleSendWithText txt now remote s
  = tryStream (aiMsgIdOf (messageCounterRef s) now) txt remote
      (enqueue txt now s).
Proof.
  intros T P I. unfold handleSendWithText, handleSendWithTextFrom. rewrite T, P. simpl.
  destruct (Z.ltb_spec (now - lastMessageTime s) MIN_MESSAGE_INTERVAL) as [H|H];
    [lia|reflexivity].
Qed.

Lemma handleSend_accepted (now : Z) (remote : Remote) (s : State) :
  truthy (trim (inputText s)) = true -> isProcessing s = false ->
  (MIN_MESSAGE_INTERVAL <= now - lastMessageTime s)%Z ->
  handleSend now remote s
  = tryStream (aiMsgIdOf (messageCounterRef s) now) (inputText s) remote
      (enqueue (inputText s) now s).
Proof.
  intros T P I. unfold handleSend. rewrite T, P. simpl.
  destruct (Z.ltb_spec (now - lastMessageTime s) MIN_MESSAGE_INTERVAL) as [H|H];
    [lia|reflexivity].
Qed.


Lemma handleSend_rejected (now : Z) (remote : Remote) (s : State) :
  truthy (trim (inputText s)) = false \/ isProcessing s = true
  \/ (now - lastMessageTime s < MIN_MESSAGE_INTERVAL)%Z ->
  handleSend now remote s = s.
Proof.
  intros H. unfold handleSend.
  destruct (negb (truthy (trim (inputText s))) || isProcessing s) eqn:G;
    [reflexivity|].
  destruct (Z.ltb_spec (now - lastMessageTime s) MIN_MESSAGE_INTERVAL) as [L|L];
    [reflexivity|].
  apply orb_false_iff in G. destruct G as [G1 G2].
  apply negb_false_iff in G1. destruct H as [H|[H|H]]; [congruence|congruence|lia].
Qed.

(** The guards, read off a state. *)
Lemma guards_cases (txt : jsstring) (now : Z) (s : State) :
  (truthy (trim txt) = true /\ isProcessing s = false
   /\ (MIN_MESSAGE_INTERVAL <= now - lastMessageTime s)%Z)
  \/ (truthy (trim txt) = false \/ isProcessing s = true
      \/ (now - lastMessageTime s < MIN_MESSAGE_INTERVAL)%Z).
Proof.
  destruct (truthy (trim txt)); [|tauto].
  destruct (isProcessing s); [tauto|].
  destruct (Z.lt_ge_cases (now - lastMessageTime s) MIN_MESSAGE_INTERVAL);
    [right|left]; tauto.
Qed.

(** Nothing that happens during an exchange moves [lastMessageTime]. *)
Lemma midExchange_lastMessageTime (userText : jsstring) (now : Z)
  (evs : list StreamEvent) (s : State) :
  lastMessageTime (midExchange userText now evs s) = now.
Proof.
  unfold midExchange.
  destruct (deliver_frame (aiMsgIdOf (messageCounterRef s) now) evs
              ({| accumulatedText := []; accumulatedGrounding := [] |},
               logRequest userText (enqueue userText now s)))
    as [(_ & _ & _ & _ & T & _) _].
  exact T.
Qed.

Lemma tryStream_lastMessageTime (aiMsgId userText : jsstring)
  (remote : Remote) (s : State) :
  lastMessageTime (tryStream aiMsgId userText remote s) = lastMessageTime s.
Proof.
  unfold tryStream, sendMessageStream. cbn [fst snd].
  destruct (deliver_frame aiMsgId (events remote)
              ({| accumulatedText := []; accumulatedGrounding := [] |},
               logRequest userText s)) as [(_ & _ & _ & _ & T & _) _].
  destruct (deliver aiMsgId (events remote) _) as [acc1 s1].
  cbn [snd] in T. simpl in T.
  destruct (failure remote); cbn iota beta;
    destruct (isMountedRef s1) eqn:M; simpl; rewrite ?M; simpl; exact T.
Qed.

(** The chunk callback and the end of the stream rewrite messages in place:
    the sequence keeps its length. *)
Lemma midExchange_length (userText : jsstring) (now : Z)
  (evs : list StreamEvent) (s : State) :
  List.length (messages (midExchange userText now evs s))
  = List.length (messages s) + 2.
Proof.
  unfold midExchange.
  destruct (deliver_frame (aiMsgIdOf (messageCounterRef s) now) evs
              ({| accumulatedText := []; accumulatedGrounding := [] |},
               logRequest userText (enqueue userText now s))) as [_ Sh].
  apply (f_equal (@List.length _)) in Sh. rewrite !length_map in Sh.
  rewrite Sh. unfold enqueue. simpl. rewrite !length_app. simpl. lia.
Qed.

Lemma tryStream_length (aiMsgId userText : jsstring) (remote : Remote)
  (s : State) :
  List.length (messages (tryStream aiMsgId userText remote s))
  = List.length (messages s).
Proof.
  unfold tryStream, sendMessageStream. cbn [fst snd].
  destruct (deliver_frame aiMsgId (events remote)
              ({| accumulatedText := []; accumulatedGrounding := [] |},
               logRequest userText s)) as [_ Sh].
  apply (f_equal (@List.length _)) in Sh. rewrite !length_map in Sh.
  destruct (deliver aiMsgId (events remote) _) as [acc1 s1].
  cbn [snd] in Sh. simpl in Sh.
  destruct (failure remote); cbn iota beta;
    destruct (isMountedRef s1) eqn:M; simpl; rewrite ?M; simpl;
    rewrite ?length_map; exact Sh.
Qed.

Lemma enqueue_length (userText : jsstring) (now : Z) (s : State) :
  List.length (messages (enqueue userText now s))
  = List.length (messages s) + 2.
Proof. unfold enqueue. simpl. rewrite !length_app. simpl. lia. Qed.

(** An exchange during which the component is unmounted ends in the state it
    had at the unmount. *)
Lemma tryStream_unmounted (aiMsgId userText : jsstring)
  (pre post : list StreamEvent) (thrown : option JsError) (s : State) :
  tryStream aiMsgId userText
    {| events := pre ++ Unmount :: post; failure := thrown |} s
  = setIsMounted false
      (snd (deliver aiMsgId pre
              ({| accumulatedText := []; accumulatedGrounding := [] |},
               logRequest userText s))).
Proof.
  unfold tryStream, sendMessageStream. cbn [fst snd events failure].
  rewrite deliver_app.
  destruct (deliver aiMsgId pre _) as [acc1 s1]. cbn [deliver fst snd].
  rewrite deliver_unmounted by reflexivity.
  destruct thrown; reflexivity.
Qed.

(** C1.  For an accepted [handleSendWithText] on a mounted component whose
    stream delivers the response chunks [cs] and ends normally, the
    assistant message appended by the submission ends with the
    concatenation of the chunk texts, in order, as its text and the
    concatenation of the citation batches, in order and with repetitions,
    as its citations; the same holds of the message as displayed after any
    number of chunks. *)
Theorem streamed_text_is_concatenation
  (s : State) (txt : jsstring) (now : Z)
  (cs : list GenerateContentResponse) :
  isMountedRef s = true ->
  truthy (trim txt) = true ->
  isProcessing s = false ->
  (MIN_MESSAGE_INTERVAL <= now - lastMessageTime s)%Z ->
  let i := List.length (messages s) + 1 in
  let assembled (s' : State) :=
    exists m, nth_error (messages s') i = Some m
              /\ id m = aiMsgIdOf (messageCounterRef s) now
              /\ role m = model
              /\ text m = List.concat (map gcr_text cs)
              /\ citations m = List.concat (map batchOf cs) in
  assembled (handleSendWithText txt now
               {| events := map Chunk cs; failure := None |} s)
  /\ assembled (midExchange txt now (map Chunk cs) s).
Proof.
  intros M T P I i assembled. subst assembled i. cbv beta. split.
  - rewrite handleSendWithText_accepted by assumption.
    destruct (@tryStream_mounted txt now s cs None M) as (H & _).
    eexists. split; [exact H|].
    unfold finalMessage, citations. simpl.
    destruct cs; repeat split; reflexivity.
  - pose proof (enqueue_inflight txt now s) as I0.
    assert (M0 : isMountedRef (logRequest txt (enqueue txt now s)) = true)
      by exact M.
    destruct (deliver_chunks_inflight cs M0 I0) as (H & _ & HT & HG).
    unfold midExchange. unfold inflight in H.
    eexists. split; [exact H|].
    unfold citations. simpl. rewrite HT, HG.
    destruct cs; repeat split; reflexivity.
Qed.

Lemma streamed_text_witness :
  exists m,
    nth_error
      (messages
         (handleSendWithText (str "hello") 5000
            {| events := map Chunk
                 [ chunkOf (str "Here ") None;
                   chunkOf (str "you go") (Some [sourceA; sourceA]) ];
               failure := None |}
            (freshState []))) 1 = Some m
    /\ id m = str "ai-0-5000"
    /\ role m = model
    /\ text m = str "Here you go"
    /\ citations m = [sourceA; sourceA].
Proof.
  refine (proj1 (streamed_text_is_concatenation (freshState []) (str "hello")
                   5000
                   [ chunkOf (str "Here ") None;
                     chunkOf (str "you go") (Some [sourceA; sourceA]) ]
                   _ _ _ _)).
  - reflexivity.
  - reflexivity.
  - reflexivity.
  - vm_compute. discriminate.
Defined.

(** C7.  When the stream of an accepted submission on a mounted component
    throws after the chunks [cs], the assistant message ends with
    [hasError] true and [isStreaming] false; its text is never empty: it is
    the fallback sentence when no text was streamed, and the streamed text,
    unchanged, otherwise.  Both handlers. *)
Theorem failed_stream_keeps_text_or_falls_back
  (s : State) (txt : jsstring) (now : Z)
  (cs : list GenerateContentResponse) (err : JsError) :
  isMountedRef s = true ->
  isProcessing s = false ->
  (MIN_MESSAGE_INTERVAL <= now - lastMessageTime s)%Z ->
  let remote := {| events := map Chunk cs; failure := Some err |} in
  let streamed := List.concat (map gcr_text cs) in
  let ended (s' : State) :=
    exists m, nth_error (messages s') (List.length (messages s) + 1) = Some m
              /\ role m = model
              /\ hasError m = Some true
              /\ isStreaming m = Some false
              /\ text m <> []
              /\ (streamed = [] -> text m = errorFallback)
              /\ (streamed <> [] -> text m = streamed) in
  (truthy (trim txt) = true -> ended (handleSendWithText txt now remote s))
  /\ (truthy (trim (inputText s)) = true -> ended (handleSend now remote s)).
Proof.
  intros M P I remote streamed ended.
  assert (E : forall u,
             ended (tryStream (aiMsgIdOf (messageCounterRef s) now) u remote
                      (enqueue u now s))).
  { intros u. subst ended remote. cbv beta.
    destruct (@tryStream_mounted u now s cs (Some err) M) as (H & _).
    eexists. split; [exact H|]. simpl. fold streamed.
    destruct streamed as [|c t]; simpl; repeat split;
      try reflexivity; try discriminate; congruence. }
  split; intros T.
  - rewrite handleSendWithText_accepted by assumption. apply E.
  - rewrite handleSend_accepted by assumption. apply E.
Qed.

Lemma failed_stream_witness :
  exists m,
    nth_error
      (messages
         (handleSend 5000
            {| events := map Chunk []; failure := Some {| message := None; typeError := None |} |}
            (freshState (str "hello")))) 1 = Some m
    /\ role m = model
    /\ hasError m = Some true
    /\ isStreaming m = Some false
    /\ text m <> []
    /\ (@nil char = [] -> text m = errorFallback)
    /\ (@nil char <> [] -> text m = []).
Proof.
  refine (proj2 (failed_stream_keeps_text_or_falls_back
                   (freshState (str "hello")) [] 5000 []
                   {| message := None; typeError := None |} _ _ _) _).
  - reflexivity.
  - reflexivity.
  - vm_compute. discriminate.
  - reflexivity.
Defined.

(** C9, as stated, fails on the teardown path: when the component is
    unmounted during the stream, the handler returns without touching the
    state, and both flags stay up. *)
Lemma teardown_leaves_flags_set :
  let s' := handleSendWithText (str "hello") 5000
              {| events := [Unmount]; failure := None |} (freshState []) in
  isProcessing s' = true
  /\ option_map isStreaming (nth_error (messages s') 1) = Some (Some true)
  /\ ~ flagsCleared 1 s'.
Proof.
  cbv zeta. split; [vm_compute; reflexivity|].
  split; [vm_compute; reflexivity|].
  intros [H _]. vm_compute in H. discriminate.
Qed.

(** C9, amended.  An accepted exchange on a component that stays mounted
    ends, on normal completion and on failure alike, with [isProcessing]
    false and [isStreaming] of its assistant message false.  When the
    component is unmounted during the stream, nothing is written after the
    unmount: the handler ends in the state of that moment, in which
    [isProcessing] and the message's [isStreaming] are still true. *)
Theorem flags_cleared_unless_unmounted
  (s : State) (txt : jsstring) (now : Z) :
  isMountedRef s = true ->
  truthy (trim txt) = true ->
  isProcessing s = false ->
  (MIN_MESSAGE_INTERVAL <= now - lastMessageTime s)%Z ->
  let i := List.length (messages s) + 1 in
  (forall cs thrown,
      flagsCleared i
        (handleSendWithText txt now
           {| events := map Chunk cs; failure := thrown |} s))
  /\ (forall pre post thrown,
         let s' := handleSendWithText txt now
                     {| events := pre ++ Unmount :: post;
                        failure := thrown |} s in
         s' = setIsMounted false (midExchange txt now pre s)
         /\ isProcessing s' = true
         /\ exists m, nth_error (messages s') i = Some m
                      /\ isStreaming m = Some true).
Proof.
  intros M T P I i. split.
  - intros cs thrown. rewrite handleSendWithText_accepted by assumption.
    destruct (@tryStream_mounted txt now s cs thrown M) as (H & HP & _).
    split; [exact HP|]. eexists. split; [exact H|reflexivity].
  - intros pre post thrown s'. subst s'.
    rewrite handleSendWithText_accepted by assumption.
    rewrite tryStream_unmounted. fold (midExchange txt now pre s).
    split; [reflexivity|].
    unfold midExchange.
    destruct (deliver_frame (aiMsgIdOf (messageCounterRef s) now) pre
                ({| accumulatedText := []; accumulatedGrounding := [] |},
                 logRequest txt (enqueue txt now s)))
      as [(_ & HP & _) Sh].
    split; [exact HP|].
    pose proof (enqueue_inflight txt now s) as I0. unfold inflight in I0.
    pose proof (f_equal (fun l => nth_error l i) Sh) as N.
    cbv beta in N. rewrite !nth_error_map in N. fold i in I0.
    cbn [snd] in N. rewrite I0 in N. clear I0 Sh HP.
    change (messages (setIsMounted false ?x)) with (messages x).
    cbn [messages setIsMounted].
    destruct (nth_error _ i) as [m|]; [|discriminate].
    exists m. split; [reflexivity|].
    unfold shape in N. cbn in N. now inversion N.
Qed.

Lemma flags_cleared_witness :
  flagsCleared 1
    (handleSendWithText (str "hello") 5000
       {| events := map Chunk [chunkOf (str "Hi") None]; failure := None |}
       (freshState [])).
Proof.
  refine (proj1 (flags_cleared_unless_unmounted (freshState []) (str "hello")
                   5000 _ _ _ _) [chunkOf (str "Hi") None] None).
  - reflexivity.
  - reflexivity.
  - reflexivity.
  - vm_compute. discriminate.
Defined.

(** The guards of [handleSendWithText] are those of the render that built
    it. *)
Lemma handleSendWithTextFrom_rejected (render : State) (txt : jsstring)
  (now : Z) (remote : Remote) (s : State) :
  truthy (trim txt) = false \/ isProcessing render = true
  \/ (now - lastMessageTime render < MIN_MESSAGE_INTERVAL)%Z ->
  handleSendWithTextFrom render txt now remote s = s.
Proof.
  intros H. unfold handleSendWithTextFrom.
  destruct (truthy (trim txt)); [|reflexivity].
  destruct (isProcessing render); [reflexivity|]. simpl.
  destruct (Z.ltb_spec (now - lastMessageTime render) MIN_MESSAGE_INTERVAL)
    as [L|L]; [reflexivity|].
  destruct H as [H|[H|H]]; [discriminate|discriminate|lia].
Qed.

Lemma handleSendWithTextFrom_accepted (render : State) (txt : jsstring)
  (now : Z) (remote : Remote) (s : State) :
  truthy (trim txt) = true -> isProcessing render = false ->
  (MIN_MESSAGE_INTERVAL <= now - lastMessageTime render)%Z ->
  handleSendWithTextFrom render txt now remote s
  = tryStream (aiMsgIdOf (messageCounterRef s) now) txt remote
      (enqueue txt now s).
Proof.
  intros T P I. unfold handleSendWithTextFrom. rewrite T, P. simpl.
  destruct (Z.ltb_spec (now - lastMessageTime render) MIN_MESSAGE_INTERVAL)
    as [H|H]; [lia|reflexivity].
Qed.

(** C6.  Two clicks on a quick reply within the 50 ms of its timer are two
    accepted submissions.  On [repliesShown], whose last accepted
    submission was at 5000, "Yes" is clicked at 20000 and again at 20010;
    the buttons are on screen at both clicks and each click sets a timer.
    The first timer runs at 20050 and its submission is accepted.  The
    second runs at 20060 with a [handleSendWithText] built before that
    submission, which still reads [isProcessing] false and
    [lastMessageTime] 5000: its submission is accepted, too, 10 ms after the
    first one, whether the first exchange is still suspended at its [await]
    ([isProcessing] true) or has already failed.  Each time a second user
    message and a second placeholder are appended and a second request is
    sent; the ids and the requests are fixed by the statements that precede
    the [await].  A [handleSendWithText] or a [handleSend] of the current
    render is dropped in the same two states. *)
Theorem stale_timer_accepts_second_submission :
  let click1 := handleQuickReplyClick replyYes repliesShown in
  let click2 := handleQuickReplyClick replyYes (fst click1) in
  let inFlight := midExchange (str "Yes") 20050 [] (fst click2) in
  let failed := fire (snd click1) 20050 failedToFetch (fst click2) in
  In replyYes (getQuickReplies asciiLower (messages repliesShown)
                 (isProcessing repliesShown))
  /\ In replyYes (getQuickReplies asciiLower (messages (fst click1))
                    (isProcessing (fst click1)))
  /\ snd click1
     = Some {| timerRender := repliesShown; timerText := str "Yes" |}
  /\ snd click2
     = Some {| timerRender := fst click1; timerText := str "Yes" |}
  /\ (forall remote,
         fire (snd click1) 20050 remote (fst click2)
         = tryStream (str "ai-1-20050") (str "Yes") remote
             (enqueue (str "Yes") 20050 (fst click2)))
  /\ (isProcessing inFlight = true
      /\ lastMessageTime inFlight = 20050%Z
      /\ List.length (messages inFlight) = 4
      /\ remoteRequests inFlight = [str "hello"; str "Yes"]
      /\ handleSendWithText (str "Yes") 20060 oneChunk inFlight = inFlight
      /\ handleSend 20060 oneChunk (setInputText (str "Yes") inFlight)
         = setInputText (str "Yes") inFlight
      /\ map id (messages (fire (snd click2) 20060 oneChunk inFlight))
         = [ str "user-0-5000"; str "ai-0-5000";
             str "user-1-20050"; str "ai-1-20050";
             str "user-2-20060"; str "ai-2-20060" ]
      /\ remoteRequests (fire (snd click2) 20060 oneChunk inFlight)
         = [str "hello"; str "Yes"; str "Yes"])
  /\ (isProcessing failed = false
      /\ lastMessageTime failed = 20050%Z
      /\ List.length (messages failed) = 4
      /\ remoteRequests failed = [str "hello"; str "Yes"]
      /\ handleSendWithText (str "Yes") 20060 oneChunk failed = failed
      /\ handleSend 20060 oneChunk (setInputText (str "Yes") failed)
         = setInputText (str "Yes") failed
      /\ map id (messages (fire (snd click2) 20060 oneChunk failed))
         = [ str "user-0-5000"; str "ai-0-5000";
             str "user-1-20050"; str "ai-1-20050";
             str "user-2-20060"; str "ai-2-20060" ]
      /\ remoteRequests (fire (snd click2) 20060 oneChunk failed)
         = [str "hello"; str "Yes"; str "Yes"]).
Proof.
  cbv zeta. split; [vm_compute; tauto|]. split; [vm_compute; tauto|].
  split; [vm_compute; reflexivity|]. split; [vm_compute; reflexivity|].
  split; [|split; vm_compute; repeat split].
  intros remote.
  transitivity
    (handleSendWithTextFrom repliesShown (str "Yes") 20050 remote
       (setInputText (str "Yes") (setInputText (str "Yes") repliesShown)));
    [reflexivity|].
  rewrite handleSendWithTextFrom_accepted;
    [|reflexivity|reflexivity|vm_compute; discriminate].
  f_equal.
Qed.


(** ** Retry *)

Lemma findIndex_first {A} (p : A -> bool) (l : list A) :
  forall (k : nat) (a : A),
    nth_error l k = Some a -> p a = true ->
    (forall j b, j < k -> nth_error l j = Some b -> p b = false) ->
    findIndex p l = Some k.
Proof.
  induction l as [|x l IH]; intros [|k] a N Pa F; simpl in *;
    try discriminate.
  - injection N as ->. now rewrite Pa.
  - rewrite (F 0 x) by (reflexivity || lia).
    rewrite (IH k a N Pa); [reflexivity|].
    intros j b L Nj. apply (F (S j) b); [lia|exact Nj].
Qed.

Lemma findIndex_Some {A} (p : A -> bool) (l : list A) :
  forall i, findIndex p l = Some i ->
            exists a, nth_error l i = Some a /\ p a = true.
Proof.
  induction l as [|x l IH]; intros i H; simpl in H; [discriminate|].
  destruct (p x) eqn:Px.
  - injection H as <-. exists x. auto.
  - destruct (findIndex p l) as [j|]; [|discriminate].
    injection H as <-. apply (IH j eq_refl).
Qed.

Lemma NoDup_map_same {A B} (f : A -> B) (l : list A) (a b : A) :
  NoDup (map f l) -> In a l -> In b l -> f a = f b -> a = b.
Proof.
  induction l as [|x l IH]; intros N Ia Ib E; [contradiction|].
  simpl in N. inversion N as [|? ? Nx Nl]; subst.
  destruct Ia as [->|Ia], Ib as [->|Ib]; auto.
  - exfalso. apply Nx. rewrite E. now apply in_map.
  - exfalso. apply Nx. rewrite <- E. now apply in_map.
Qed.

(** Retry leaves the state alone unless some user message carries the
    id. *)
Lemma handleRetry_noop (mid : jsstring) (s : State) :
  (forall m, In m (messages s) -> id m = mid -> role m = model) ->
  handleRetry mid s = s.
Proof.
  intros H. unfold handleRetry.
  destruct (findIndex _ (messages s)) as [i|] eqn:F; [|reflexivity].
  destruct (findIndex_Some _ _ F) as (a & N & E).
  rewrite N. apply eqb_eq in E.
  rewrite (H a (nth_error_In _ _ N) E). reflexivity.
Qed.

(** C8.  Retrying the user message at index [k] (its id, unique so far in
    the sequence, is what the retry control passes) leaves exactly the first
    [k] messages, puts the text of that message in the input, and sends
    nothing to the remote service; the banner is cleared and the other state
    is kept. *)
Theorem retry_truncates_to_index
  (s : State) (k : nat) (m : ChatMessage) :
  nth_error (messages s) k = Some m ->
  role m = user ->
  (forall j m', j < k -> nth_error (messages s) j = Some m' ->
                id m' <> id m) ->
  let s' := handleRetry (id m) s in
  messages s' = firstn k (messages s)
  /\ List.length (messages s') = k
  /\ inputText s' = text m
  /\ remoteRequests s' = remoteRequests s
  /\ error s' = None
  /\ isProcessing s' = isProcessing s
  /\ lastMessageTime s' = lastMessageTime s.
Proof.
  intros N R U s'. subst s'. unfold handleRetry.
  rewrite (@findIndex_first _ (fun x => eqb (id x) (id m)) (messages s) k m N).
  - rewrite N, R. simpl. unfold slice0.
    repeat split. rewrite length_firstn.
    apply Nat.min_l. apply Nat.lt_le_incl. apply nth_error_Some. congruence.
  - apply eqb_refl.
  - intros j b L Nj. apply eqb_neq. now apply (U j b).
Qed.

Lemma retry_truncates_witness :
  let s' := handleRetry (str "user-1-9000") threeMessages in
  messages s' = firstn 2 (messages threeMessages)
  /\ List.length (messages s') = 2
  /\ inputText s' = str "second"
  /\ remoteRequests s' = remoteRequests threeMessages
  /\ error s' = None
  /\ isProcessing s' = isProcessing threeMessages
  /\ lastMessageTime s' = lastMessageTime threeMessages.
Proof.
  refine (@retry_truncates_to_index threeMessages 2
            {| id := str "user-1-9000"; role := user; text := str "second";
               groundingChunks := None; isStreaming := None;
               hasError := None |} _ _ _).
  - reflexivity.
  - reflexivity.
  - intros [|[|j]] m' L N; [| |lia]; injection N as <-; vm_compute;
      discriminate.
Defined.

(** C10.  Retry with an id that no message carries, or with the id of a
    model message of a sequence whose ids are distinct, returns the state
    unchanged: messages, input text and banner included. *)
Theorem retry_of_model_or_unknown_id_is_noop
  (s : State) (mid : jsstring) :
  ~ In mid (map id (messages s))
  \/ (NoDup (map id (messages s))
      /\ exists m, In m (messages s) /\ id m = mid /\ role m = model) ->
  handleRetry mid s = s
  /\ messages (handleRetry mid s) = messages s
  /\ inputText (handleRetry mid s) = inputText s
  /\ error (handleRetry mid s) = error s.
Proof.
  intros H.
  assert (E : handleRetry mid s = s).
  { apply handleRetry_noop. intros m' I' E'.
    destruct H as [H|(D & m & Im & Em & Rm)].
    - exfalso. apply H. rewrite <- E'. now apply in_map.
    - assert (m' = m) by (apply (@NoDup_map_same _ _ id (messages s) m' m D I' Im); congruence).
      congruence. }
  rewrite E. auto.
Qed.

Lemma retry_noop_witness :
  handleRetry (str "ai-0-5000") threeMessages = threeMessages
  /\ handleRetry (str "user-7-1") threeMessages = threeMessages.
Proof.
  split.
  - refine (proj1 (@retry_of_model_or_unknown_id_is_noop threeMessages
                     (str "ai-0-5000") (or_intror (conj _ _)))).
    + repeat constructor; simpl; intros H;
        repeat (destruct H as [H|H]; [discriminate H|]); exact H.
    + eexists. split; [right; left; reflexivity|]. split; reflexivity.
  - refine (proj1 (@retry_of_model_or_unknown_id_is_noop threeMessages
                     (str "user-7-1") (or_introl _))).
    simpl. intros H.
    repeat (destruct H as [H|H]; [discriminate H|]). exact H.
Defined.

(** * Further properties *)

(** ** Quick replies *)

(** [getQuickReplies] returns one of six lists, whatever the conversation:
    the cut at four never removes a reply, the ids (the keys of the
    buttons) are distinct, and the value of every reply passes the
    empty-text guard of the submission. *)
Theorem getQuickReplies_six_lists (lower : jsstring -> jsstring)
  (msgs : list ChatMessage) (p : bool) :
  let r := getQuickReplies lower msgs p in
  In r [ []; [replyHelp]; [replyMore]; [replyMore; replyHelp];
         [replyYes; replyNo; replyMore];
         [replyYes; replyNo; replyMore; replyHelp] ]
  /\ NoDup (map qo_id r)
  /\ (forall o, In o r -> truthy (trim (value o)) = true).
Proof.
  assert (Six : In (getQuickReplies lower msgs p)
                  [ []; [replyHelp]; [replyMore]; [replyMore; replyHelp];
                    [replyYes; replyNo; replyMore];
                    [replyYes; replyNo; replyMore; replyHelp] ]).
  { unfold getQuickReplies.
    destruct (_ || p); [now left|].
    destruct (nth_error _ _) as [m|]; [|now left].
    destruct (_ || _); [now left|].
    generalize (lower (text m)). intros t.
    destruct (includes t (str "?")), (existsb (includes t) yesNoKeywords),
      (existsb (includes t) helpKeywords); cbn; tauto. }
  cbv zeta. split; [exact Six|].
  cbn [In] in Six.
  destruct Six as [E|[E|[E|[E|[E|[E|[]]]]]]]; rewrite <- E; split;
    try (intros o H; cbn [In] in H;
         repeat (destruct H as [<-|H]; [vm_compute; reflexivity|]);
         contradiction).
  all: repeat constructor; cbn; intros H;
    repeat (destruct H as [H|H]; [discriminate H|]); exact H.
Qed.

Lemma getQuickReplies_six_lists_witness :
  truthy (trim (value replyMore)) = true.
Proof.
  refine (proj2 (proj2 (@getQuickReplies_six_lists asciiLower [grantQuestion]
                          false)) replyMore _).
  vm_compute. right. right. left. reflexivity.
Defined.

(** ** Trimming *)

Lemma trimStart_head (s : jsstring) (c : char) (t : jsstring) :
  trimStart s = c :: t -> isSpace c = false.
Proof.
  induction s as [|a s IH]; simpl; [discriminate|].
  destruct (isSpace a) eqn:E; [exact IH|].
  intros H. injection H as <- _. exact E.
Qed.

Lemma trimStart_snoc (l : jsstring) (c : char) :
  isSpace c = false -> trimStart (l ++ [c]) = trimStart l ++ [c].
Proof.
  intros H. induction l as [|a l IH]; simpl.
  - now rewrite H.
  - destruct (isSpace a); [exact IH|reflexivity].
Qed.

Lemma trimEnd_cons (c : char) (t : jsstring) :
  isSpace c = false -> exists u, trimEnd (c :: t) = c :: u.
Proof.
  intros H. unfold trimEnd. simpl rev.
  rewrite (@trimStart_snoc (rev t) c H), rev_app_distr. simpl.
  eexists. reflexivity.
Qed.

Lemma trim_trimmed (s : jsstring) : trimmed (trim s).
Proof.
  unfold trimmed, trim. split.
  - intros c t H. destruct (trimStart s) as [|a u] eqn:E.
    + discriminate H.
    + pose proof (@trimStart_head s a u E) as Ha.
      destruct (@trimEnd_cons a u Ha) as [v Hv]. rewrite Hv in H.
      injection H as <- _. exact Ha.
  - intros c t H. unfold trimEnd in H. rewrite rev_involutive in H.
    exact (@trimStart_head _ c t H).
Qed.

Lemma trimStart_truthy (s : jsstring) :
  (exists c, In c s /\ isSpace c = false) -> truthy (trimStart s) = true.
Proof.
  intros (c & I & H). induction s as [|a s IH]; [contradiction|].
  simpl. destruct (isSpace a) eqn:E; [|reflexivity].
  destruct I as [->|I]; [congruence|now apply IH].
Qed.

(** A text with a code unit that is not white space survives [trim]. *)
Lemma trim_truthy (s : jsstring) :
  (exists c, In c s /\ isSpace c = false) -> truthy (trim s) = true.
Proof.
  intros H. apply trimStart_truthy in H. unfold trim.
  destruct (trimStart s) as [|a u] eqn:E; [discriminate|].
  destruct (@trimEnd_cons a u (@trimStart_head s a u E)) as [v ->]. reflexivity.
Qed.

(** ** What the extractors return *)

Lemma In_firstn {A} (n : nat) (l : list A) (a : A) :
  In a (firstn n l) -> In a l.
Proof.
  revert l; induction n as [|n IH]; intros [|x l]; simpl; try tauto.
  intros [H|H]; [left; exact H|right; now apply IH].
Qed.

Lemma split_nonempty (sep : char) (s : jsstring) : split sep s <> [].
Proof.
  destruct s as [|c s]; simpl; [discriminate|].
  destruct (c =? sep)%N; [discriminate|].
  destruct (split sep s); discriminate.
Qed.

(** The lines of two texts joined by the separator are the lines of the
    one followed by the lines of the other. *)
Lemma split_app (sep : char) (a b : jsstring) :
  split sep (a ++ sep :: b) = split sep a ++ split sep b.
Proof.
  induction a as [|c a IH]; simpl.
  - now rewrite N.eqb_refl.
  - destruct (c =? sep)%N; [now rewrite IH|].
    rewrite IH. pose proof (split_nonempty sep a) as N.
    destruct (split sep a); [contradiction|reflexivity].
Qed.

Lemma optionsOfLine_cases (line : jsstring) (o : QuickOption) :
  In o (optionsOfLine line) ->
  exists num, optionLabel line = Some (num, label o)
              /\ o = mkOption num (label o)
              /\ 3 <= List.length (label o) < 100.
Proof.
  unfold optionsOfLine, pushOption.
  destruct (optionLabel line) as [[num lbl]|] eqn:E; [|contradiction].
  destruct (truthy lbl && (2 <? List.length lbl)%nat
            && (List.length lbl <? 100)%nat) eqn:G; [|contradiction].
  intros [<-|[]]. simpl.
  apply andb_true_iff in G. destruct G as [G G2].
  apply andb_true_iff in G. destruct G as [_ G1].
  apply Nat.ltb_lt in G1, G2. exists num. repeat split; lia.
Qed.

Lemma optionLabel_trimmed (line num lbl : jsstring) :
  optionLabel line = Some (num, lbl) -> trimmed lbl.
Proof.
  unfold optionLabel. destruct (matchGroups optionLineRe line) as [[n b]|];
    [|discriminate].
  intros H. injection H as _ <-. apply trim_trimmed.
Qed.

(** The value of an option of a line is not blank. *)
Lemma optionsOfLine_value_not_blank (line : jsstring) (o : QuickOption) :
  In o (optionsOfLine line) -> truthy (trim (value o)) = true.
Proof.
  intros H. destruct (@optionsOfLine_cases line o H) as (num & E & Eo & B).
  destruct (@optionLabel_trimmed line num (label o) E) as [T _].
  rewrite Eo. simpl value.
  destruct (label o) as [|c t] eqn:El; [simpl in B; lia|].
  apply trim_truthy. exists c. split.
  - apply in_or_app. right. simpl. auto.
  - exact (T c t eq_refl).
Qed.

(** Every option that [parseOptionsFromText] returns comes from a line of
    the text that matches the pattern: its label is the cleaned label of
    that line, has from 3 to 99 code units and no white space at either
    end; its id is [opt-] and the number of the line, its value the number,
    a dot, a space and the label; and the value passes the empty-text guard
    of the submission. *)
Theorem parseOptionsFromText_options_wellformed
  (text : jsstring) (o : QuickOption) :
  In o (parseOptionsFromText text) ->
  exists line num,
    In line (split newline text)
    /\ optionLabel line = Some (num, label o)
    /\ qo_id o = str "opt-" ++ num
    /\ value o = num ++ str ". " ++ label o
    /\ 3 <= List.length (label o) < 100
    /\ trimmed (label o)
    /\ truthy (trim (value o)) = true.
Proof.
  rewrite parseOptionsFromText_spec. intros H.
  apply In_firstn in H. apply in_flat_map in H.
  destruct H as (line & L & H).
  destruct (@optionsOfLine_cases line o H) as (num & E & Eo & B).
  pose proof (@optionLabel_trimmed line num (label o) E) as T.
  exists line, num. repeat split; try assumption; try lia.
  - now rewrite Eo at 1.
  - now rewrite Eo at 1.
  - apply T.
  - apply T.
  - exact (@optionsOfLine_value_not_blank line o H).
Qed.

Lemma parseOptionsFromText_options_witness :
  exists line num,
    In line (split newline twoGrants)
    /\ optionLabel line = Some (num, str "Apply for housing grant")
    /\ str "opt-1" = str "opt-" ++ num
    /\ str "1. Apply for housing grant"
       = num ++ str ". " ++ str "Apply for housing grant"
    /\ 3 <= List.length (str "Apply for housing grant") < 100
    /\ trimmed (str "Apply for housing grant")
    /\ truthy (trim (str "1. Apply for housing grant")) = true.
Proof.
  refine (@parseOptionsFromText_options_wellformed twoGrants
            {| qo_id := str "opt-1"; label := str "Apply for housing grant";
               value := str "1. Apply for housing grant" |} _).
  vm_compute. left. reflexivity.
Defined.

Lemma questionsOfLine_cases (line : jsstring) (q : QuestionAnswer) :
  In q (questionsOfLine line) ->
  exists num, questionLabel line = Some (num, questionText q)
              /\ q = mkQuestion num (questionText q)
              /\ 6 <= List.length (questionText q).
Proof.
  unfold questionsOfLine, pushQuestion.
  destruct (questionLabel line) as [[num t]|] eqn:E; [|contradiction].
  destruct (5 <? List.length t)%nat eqn:G; [|contradiction].
  intros [<-|[]]. simpl. apply Nat.ltb_lt in G.
  exists num. repeat split; lia.
Qed.

Lemma questionLabel_trimmed (line num t : jsstring) :
  questionLabel line = Some (num, t) -> trimmed t.
Proof.
  unfold questionLabel.
  destruct (matchGroups questionLineRe line) as [[n b]|]; [|discriminate].
  intros H. injection H as _ <-. apply trim_trimmed.
Qed.

(** [parseMultiQuestions] returns at most ten questions; each comes from a
    line of the text that matches the pattern, has a text of at least 6 code
    units without white space at either end, the id [q-] and the number of
    the line, and no answer. *)
Theorem parseMultiQuestions_questions_wellformed (text : jsstring) :
  List.length (parseMultiQuestions text) <= 10
  /\ forall q, In q (parseMultiQuestions text) ->
       exists line num,
         In line (split newline text)
         /\ questionLabel line = Some (num, questionText q)
         /\ questionId q = str "q-" ++ num
         /\ answer q = None
         /\ 6 <= List.length (questionText q)
         /\ trimmed (questionText q).
Proof.
  rewrite parseMultiQuestions_spec. split; [apply firstn_le_length|].
  intros q H. apply In_firstn in H. apply in_flat_map in H.
  destruct H as (line & L & H).
  destruct (@questionsOfLine_cases line q H) as (num & E & Eq & B).
  exists line, num. repeat split; try assumption.
  - now rewrite Eq at 1.
  - now rewrite Eq at 1.
  - apply (@questionLabel_trimmed line num (questionText q) E).
  - apply (@questionLabel_trimmed line num (questionText q) E).
Qed.

Lemma parseMultiQuestions_questions_witness :
  exists line num,
    In line (split newline twoQuestions)
    /\ questionLabel line = Some (num, str "Do you own a vehicle?")
    /\ str "q-2" = str "q-" ++ num
    /\ @None YesNo = None
    /\ 6 <= List.length (str "Do you own a vehicle?")
    /\ trimmed (str "Do you own a vehicle?").
Proof.
  refine (proj2 (@parseMultiQuestions_questions_wellformed twoQuestions)
            (mkQuestion (str "2") (str "Do you own a vehicle?")) _).
  vm_compute. right. left. reflexivity.
Defined.

(** Lines added after a text leave the options and the questions already
    extracted as they are: the result for the longer text is the result for
    the text, followed by options (questions) of the added lines while the
    cut allows. *)
Theorem extraction_stable_under_added_lines (a b : jsstring) :
  parseOptionsFromText (a ++ newline :: b)
  = parseOptionsFromText a
    ++ firstn (6 - List.length (allOptions a)) (allOptions b)
  /\ parseMultiQuestions (a ++ newline :: b)
     = parseMultiQuestions a
       ++ firstn (10 - List.length (allQuestions a)) (allQuestions b).
Proof.
  rewrite !parseOptionsFromText_spec, !parseMultiQuestions_spec.
  rewrite split_app, !flat_map_app, !firstn_app. split; reflexivity.
Qed.

(** ** What an exchange does to the conversation *)

Lemma userMsgId_neq_aiMsgId (c c' now now' : Z) :
  userMsgIdOf c now <> aiMsgIdOf c' now'.
Proof.
  unfold userMsgIdOf, aiMsgIdOf. intros H.
  apply (f_equal (hd 0%N)) in H. discriminate H.
Qed.

(** A rewrite of the messages with the id [aiMsgId] leaves a list without
    that id as it is. *)
Lemma map_other_ids (aiMsgId : jsstring) (g : ChatMessage -> ChatMessage)
  (pre : list ChatMessage) :
  (forall m, In m pre -> id m <> aiMsgId) ->
  map (fun msg => if eqb (id msg) aiMsgId then g msg else msg) pre = pre.
Proof.
  induction pre as [|m pre IH]; intros H; simpl; [reflexivity|].
  rewrite IH by (intros m' I; apply H; now right).
  replace (eqb (id m) aiMsgId) with false; [reflexivity|].
  symmetry. apply eqb_neq. apply H. now left.
Qed.

Lemma deliver_messages (aiMsgId : jsstring) (pre : list ChatMessage)
  (evs : list StreamEvent) :
  (forall m, In m pre -> id m <> aiMsgId) ->
  forall (acc : Accumulator) (s : State) (x : ChatMessage),
    messages s = pre ++ [x] -> id x = aiMsgId ->
    exists x', messages (snd (deliver aiMsgId evs (acc, s))) = pre ++ [x']
               /\ shape x' = shape x.
Proof.
  intros F. induction evs as [|[c|] evs IH]; intros acc s x M I;
    cbn [deliver].
  - exists x. auto.
  - unfold onChunk. destruct (negb (isMountedRef s)).
    + apply (IH acc s x M I).
    + match goal with
      | |- context [deliver _ _ (?a, setMessages ?f s)] =>
          destruct (IH a (setMessages f s)
                      {| id := id x; role := role x;
                         text := accumulatedText acc ++ gcr_text c;
                         groundingChunks :=
                           Some match groundingOf c with
                                | Some chunks => accumulatedGrounding acc ++ chunks
                                | None => accumulatedGrounding acc
                                end;
                         isStreaming := isStreaming x;
                         hasError := hasError x |})
            as (x' & M' & S')
      end.
      * cbn [messages setMessages]. rewrite M, map_app.
        rewrite (@map_other_ids aiMsgId _ pre F). cbn [map].
        rewrite I, eqb_refl. rewrite <- I. reflexivity.
      * exact I.
      * exists x'. split; [exact M'|]. rewrite S'. reflexivity.
  - apply (IH acc (setIsMounted false s) x M I).
Qed.

Lemma shape_ids (l1 l2 : list ChatMessage) :
  map shape l1 = map shape l2 -> map id l1 = map id l2.
Proof.
  revert l2; induction l1 as [|a l1 IH]; intros [|b l2] H; simpl in *;
    try discriminate; [reflexivity|].
  unfold shape in H at 1 3. injection H. intros.
  f_equal; [assumption|apply IH; assumption].
Qed.

(** The ids of the messages are never rewritten. *)
Lemma tryStream_ids (aiMsgId userText : jsstring) (remote : Remote)
  (s : State) :
  map id (messages (tryStream aiMsgId userText remote s))
  = map id (messages s).
Proof.
  unfold tryStream, sendMessageStream. cbn [fst snd].
  destruct (deliver_frame aiMsgId (events remote)
              ({| accumulatedText := []; accumulatedGrounding := [] |},
               logRequest userText s)) as [_ Sh].
  apply shape_ids in Sh.
  destruct (deliver aiMsgId (events remote) _) as [acc1 s1].
  cbn [snd] in Sh. change (messages (logRequest userText s)) with (messages s) in Sh.
  assert (E : forall g : ChatMessage -> ChatMessage,
             (forall m, id (g m) = id m) ->
             map id (map (fun msg => if eqb (id msg) aiMsgId then g msg
                                     else msg) (messages s1))
             = map id (messages s)).
  { intros g Hg. rewrite map_map, <- Sh. apply map_ext. intros m.
    destruct (eqb (id m) aiMsgId); [apply Hg|reflexivity]. }
  destruct (failure remote); cbn iota beta;
    destruct (isMountedRef s1) eqn:M; simpl; rewrite ?M; simpl;
    try exact Sh; apply E; reflexivity.
Qed.

Lemma tryStream_counter (aiMsgId userText : jsstring) (remote : Remote)
  (s : State) :
  messageCounterRef (tryStream aiMsgId userText remote s)
  = messageCounterRef s.
Proof.
  unfold tryStream, sendMessageStream. cbn [fst snd].
  destruct (deliver_frame aiMsgId (events remote)
              ({| accumulatedText := []; accumulatedGrounding := [] |},
               logRequest userText s)) as [(_ & _ & _ & _ & _ & C & _) _].
  destruct (deliver aiMsgId (events remote) _) as [acc1 s1].
  cbn [snd] in C. simpl in C.
  destruct (failure remote); cbn iota beta;
    destruct (isMountedRef s1) eqn:M; simpl; rewrite ?M; simpl; exact C.
Qed.

(** An accepted [handleSend] adds two ids to the ids of the conversation,
    in this order: [user-c-now] and [ai-c-now], where [c] is the value of
    the message counter, which it then increments; whatever the stream
    does, no id changes.  Hence distinct ids stay distinct when the two new
    ids are not yet in the conversation. *)
Theorem handleSend_appends_two_ids (s : State) (now : Z) (remote : Remote) :
  truthy (trim (inputText s)) = true ->
  isProcessing s = false ->
  (MIN_MESSAGE_INTERVAL <= now - lastMessageTime s)%Z ->
  let c := messageCounterRef s in
  let s' := handleSend now remote s in
  map id (messages s')
  = map id (messages s) ++ [userMsgIdOf c now; aiMsgIdOf c now]
  /\ messageCounterRef s' = (c + 1)%Z
  /\ (NoDup (map id (messages s)) ->
      ~ In (userMsgIdOf c now) (map id (messages s)) ->
      ~ In (aiMsgIdOf c now) (map id (messages s)) ->
      NoDup (map id (messages s'))).
Proof.
  intros T P I c s'. subst s'.
  rewrite handleSend_accepted by assumption. fold c.
  assert (E : map id (messages (tryStream (aiMsgIdOf c now) (inputText s)
                                  remote (enqueue (inputText s) now s)))
              = map id (messages s) ++ [userMsgIdOf c now; aiMsgIdOf c now]).
  { rewrite tryStream_ids. unfold enqueue. cbn.
    rewrite !map_app, <- app_assoc. reflexivity. }
  split; [exact E|]. split.
  - rewrite tryStream_counter. reflexivity.
  - intros D U A. rewrite E.
    apply NoDup_app; [exact D| |].
    + repeat constructor; simpl; [|tauto].
      intros [H|[]]. symmetry in H. revert H. apply userMsgId_neq_aiMsgId.
    + intros x Hx [<-|[<-|[]]]; contradiction.
Qed.

Lemma handleSend_appends_two_ids_witness :
  map id (messages (handleSend 5000 oneChunk (freshState (str "hello"))))
  = [str "user-0-5000"; str "ai-0-5000"]
  /\ messageCounterRef (handleSend 5000 oneChunk (freshState (str "hello")))
     = 1%Z.
Proof.
  pose proof (@handleSend_appends_two_ids (freshState (str "hello")) 5000
                oneChunk eq_refl eq_refl) as H.
  cbv zeta in H.
  destruct H as (H1 & H2 & _); [vm_compute; discriminate|].
  split; [exact H1|exact H2].
Defined.

Lemma tryStream_messages (aiMsgId userText : jsstring) (remote : Remote)
  (pre : list ChatMessage) (s : State) (x : ChatMessage) :
  (forall m, In m pre -> id m <> aiMsgId) ->
  messages s = pre ++ [x] -> id x = aiMsgId ->
  exists x', messages (tryStream aiMsgId userText remote s) = pre ++ [x']
             /\ id x' = aiMsgId /\ role x' = role x.
Proof.
  intros F M I. unfold tryStream, sendMessageStream. cbn [fst snd].
  destruct (@deliver_messages aiMsgId pre (events remote) F
              {| accumulatedText := []; accumulatedGrounding := [] |}
              (logRequest userText s) x M I) as (x1 & M1 & S1).
  destruct (deliver aiMsgId (events remote) _) as [acc1 s1].
  cbn [snd] in M1. unfold shape in S1. injection S1 as Si Sr _ _.
  assert (E : forall g : ChatMessage -> ChatMessage,
             map (fun msg => if eqb (id msg) aiMsgId then g msg else msg)
               (messages s1) = pre ++ [g x1]).
  { intros g. rewrite M1, map_app, (@map_other_ids aiMsgId g pre F).
    cbn [map]. rewrite Si, I, eqb_refl. reflexivity. }
  destruct (failure remote); cbn iota beta;
    destruct (isMountedRef s1) eqn:Mo; simpl; rewrite ?Mo; simpl;
    rewrite ?E; eexists; (split; [first [reflexivity|exact M1]|]);
    simpl; split; congruence.
Qed.

(** An accepted [handleSend] only appends, whatever the stream does: when
    no message of the conversation carries the new assistant id, the
    messages are afterwards the ones before, the user message with the
    typed text, and one model message with the new id. *)
Theorem handleSend_only_appends (s : State) (now : Z) (remote : Remote) :
  truthy (trim (inputText s)) = true ->
  isProcessing s = false ->
  (MIN_MESSAGE_INTERVAL <= now - lastMessageTime s)%Z ->
  (forall m, In m (messages s) ->
             id m <> aiMsgIdOf (messageCounterRef s) now) ->
  exists x,
    messages (handleSend now remote s)
    = messages s ++ [userMessageOf (messageCounterRef s) now (inputText s); x]
    /\ id x = aiMsgIdOf (messageCounterRef s) now
    /\ role x = model.
Proof.
  intros T P I F. rewrite handleSend_accepted by assumption.
  destruct (@tryStream_messages (aiMsgIdOf (messageCounterRef s) now)
              (inputText s) remote
              (messages s
                 ++ [userMessageOf (messageCounterRef s) now (inputText s)])
              (enqueue (inputText s) now s)
              (aiMessagePlaceholder (messageCounterRef s) now))
    as (x & M & Ix & Rx).
  - intros m Hm. apply in_app_or in Hm. destruct Hm as [Hm|[<-|[]]].
    + now apply F.
    + apply userMsgId_neq_aiMsgId.
  - reflexivity.
  - reflexivity.
  - exists x. rewrite M, <- app_assoc. auto.
Qed.

Lemma handleSend_only_appends_witness :
  exists x,
    messages (handleSend 5000 oneChunk (freshState (str "hello")))
    = [] ++ [userMessageOf 0 5000 (str "hello"); x]
    /\ id x = aiMsgIdOf 0 5000
    /\ role x = model.
Proof.
  refine (@handleSend_only_appends (freshState (str "hello")) 5000 oneChunk
            eq_refl eq_refl _ _).
  - vm_compute. discriminate.
  - intros m [].
Defined.

Lemma lastMessage_app_last (l : list ChatMessage) (m : ChatMessage) (i : nat) :
  List.length l = S i -> nth_error l i = Some m -> lastMessage l = Some m.
Proof.
  intros L N. unfold lastMessage. destruct l as [|a l]; [discriminate|].
  rewrite L. now replace (S i - 1) with i by lia.
Qed.

(** The placeholder stays where it is, a streaming model message, as long as
    the exchange is suspended. *)
Lemma midExchange_placeholder (userText : jsstring) (now : Z)
  (evs : list StreamEvent) (s : State) :
  exists m,
    nth_error (messages (midExchange userText now evs s))
      (List.length (messages s) + 1) = Some m
    /\ shape m = (aiMsgIdOf (messageCounterRef s) now, model, Some true, None).
Proof.
  unfold midExchange.
  destruct (deliver_frame (aiMsgIdOf (messageCounterRef s) now) evs
              ({| accumulatedText := []; accumulatedGrounding := [] |},
               logRequest userText (enqueue userText now s))) as [_ Sh].
  pose proof (enqueue_inflight userText now s) as I0. unfold inflight in I0.
  pose proof (f_equal (fun l => nth_error l (List.length (messages s) + 1))
                Sh) as N.
  cbv beta in N. rewrite !nth_error_map in N. cbn [snd] in N.
  rewrite I0 in N. clear I0 Sh.
  destruct (nth_error _ _) as [m|]; [|discriminate].
  exists m. split; [reflexivity|]. cbn [option_map] in N.
  injection N. intros. unfold shape. congruence.
Qed.

Lemma midExchange_isProcessing (userText : jsstring) (now : Z)
  (evs : list StreamEvent) (s : State) :
  isProcessing (midExchange userText now evs s) = true.
Proof.
  unfold midExchange.
  destruct (deliver_frame (aiMsgIdOf (messageCounterRef s) now) evs
              ({| accumulatedText := []; accumulatedGrounding := [] |},
               logRequest userText (enqueue userText now s)))
    as [(_ & P & _) _].
  exact P.
Qed.

Lemma showsLoading_midExchange (userText : jsstring) (now : Z)
  (evs : list StreamEvent) (s : State) :
  showsLoading (midExchange userText now evs s) = false.
Proof.
  destruct (midExchange_placeholder userText now evs s) as (m & N & Sh).
  unfold showsLoading.
  rewrite (@lastMessage_app_last _ m (List.length (messages s) + 1)).
  - unfold shape in Sh. injection Sh as _ R _ _. rewrite R.
    apply andb_false_r.
  - rewrite midExchange_length. lia.
  - exact N.
Qed.

(** The condition of the "Searching and thinking..." row is false from the
    moment the placeholder is appended: in the state after the statements
    that precede the [try], in the state after each event of the stream and
    in the state at the end of [handleSend] or [handleSendWithText], either
    [isProcessing] is false or the last message is the model message of the
    exchange.  The row can only show in a render made between the state
    updates that precede the [try], which run without an [await] between
    them. *)
Theorem loading_row_off_once_placeholder_added (s : State) (now : Z)
  (remote : Remote) :
  isProcessing s = false ->
  (MIN_MESSAGE_INTERVAL <= now - lastMessageTime s)%Z ->
  (forall txt evs,
      showsLoading (midExchange txt now evs s) = false)
  /\ (forall txt,
         truthy (trim txt) = true ->
         showsLoading (handleSendWithText txt now remote s) = false)
  /\ (truthy (trim (inputText s)) = true ->
      showsLoading (handleSend now remote s) = false).
Proof.
  intros P I.
  assert (E : forall u,
             showsLoading (tryStream (aiMsgIdOf (messageCounterRef s) now) u
                             remote (enqueue u now s)) = false).
  { intros u.
    pose proof (showsLoading_midExchange u now (events remote) s) as Mid.
    unfold midExchange in Mid.
    unfold tryStream, sendMessageStream. cbn [fst snd].
    destruct (deliver _ (events remote) _) as [acc1 s1]. cbn [snd] in Mid.
    destruct (failure remote); cbn iota beta;
      destruct (isMountedRef s1) eqn:Mo; simpl; rewrite ?Mo; simpl;
      first [exact Mid|reflexivity]. }
  split; [intros; apply showsLoading_midExchange|]. split.
  - intros txt T. rewrite handleSendWithText_accepted by assumption. apply E.
  - intros T. rewrite handleSend_accepted by assumption. apply E.
Qed.

Lemma loading_row_off_witness :
  showsLoading (midExchange (str "hello") 5000 [] (freshState (str "hello")))
  = false.
Proof.
  refine (proj1 (@loading_row_off_once_placeholder_added
                   (freshState (str "hello")) 5000
                   oneChunk eq_refl _) (str "hello") []).
  vm_compute. discriminate.
Defined.

(** ** The banner *)

Lemma tryStream_mounted_error (userText : jsstring) (now : Z) (s : State)
  (cs : list GenerateContentResponse) (thrown : option JsError) :
  isMountedRef s = true ->
  error (tryStream (aiMsgIdOf (messageCounterRef s) now) userText
           {| events := map Chunk cs; failure := thrown |}
           (enqueue userText now s))
  = match thrown with
    | None => None
    | Some err => Some (orString (message (rethrow err)) connectionTrouble)
    end.
Proof.
  intros M. unfold tryStream, sendMessageStream.
  cbn [fst snd events failure].
  pose proof (enqueue_inflight userText now s) as I0.
  assert (M0 : isMountedRef (logRequest userText (enqueue userText now s))
               = true) by exact M.
  destruct (@deliver_chunks_inflight (aiMsgIdOf (messageCounterRef s) now)
              (List.length (messages s) + 1) cs false _ _ M0 I0)
    as (_ & M1 & _).
  destruct (deliver_frame (aiMsgIdOf (messageCounterRef s) now) (map Chunk cs)
              ({| accumulatedText := []; accumulatedGrounding := [] |},
               logRequest userText (enqueue userText now s)))
    as [(_ & _ & _ & E & _) _].
  destruct (deliver _ (map Chunk cs) _) as [acc1 s1].
  cbn [fst snd] in *. simpl in E.
  destruct thrown as [err|]; simpl; rewrite M1; simpl; rewrite M1; simpl;
    [reflexivity|exact E].
Qed.

(** After an accepted [handleSend] on a component that stays mounted: when
    the stream ends normally there is no banner; when it throws, the banner
    is never the empty string.  When the test of the message raises a
    [TypeError] (the stream threw [null] or [undefined], or a value whose
    message is neither a string nor absent), the banner is the message of
    that [TypeError], or the connection sentence if that message is empty.
    Otherwise it is the rate-limit sentence when the message of the error
    mentions 429, the message of the error when it has a non-empty one, and
    the connection sentence when it has none or an empty one. *)
Theorem banner_after_exchange (s : State) (now : Z)
  (cs : list GenerateContentResponse) (thrown : option JsError) :
  isMountedRef s = true ->
  truthy (trim (inputText s)) = true ->
  isProcessing s = false ->
  (MIN_MESSAGE_INTERVAL <= now - lastMessageTime s)%Z ->
  let s' := handleSend now {| events := map Chunk cs; failure := thrown |} s in
  match thrown with
  | None => error s' = None
  | Some err =>
      exists b,
        error s' = Some b /\ b <> []
        /\ (forall raised,
               typeError err = Some raised ->
               (raised <> [] -> b = raised)
               /\ (raised = [] -> b = connectionTrouble))
        /\ (typeError err = None ->
            (forall m, message err = Some m ->
                       includes m (str "429") = true -> b = rateLimitMessage)
            /\ (forall m, message err = Some m ->
                          includes m (str "429") = false -> m <> [] -> b = m)
            /\ (message err = None \/ message err = Some [] ->
                b = connectionTrouble))
  end.
Proof.
  intros M T P I s'. subst s'. rewrite handleSend_accepted by assumption.
  rewrite tryStream_mounted_error by exact M.
  destruct thrown as [err|]; [|reflexivity].
  eexists. split; [reflexivity|]. unfold rethrow.
  destruct (typeError err) as [raised|] eqn:Et.
  - cbn [message]. split; [|split].
    + destruct raised; [vm_compute|]; discriminate.
    + intros r H. injection H as <-. split.
      * intros N. destruct raised; [contradiction|reflexivity].
      * intros ->. reflexivity.
    + discriminate.
  - assert (B : orString
                  (message
                     match message err with
                     | Some m =>
                         if includes m (str "429")
                         then {| message := Some rateLimitMessage;
                                 typeError := None |}
                         else err
                     | None => err
                     end) connectionTrouble <> []).
    { destruct (message err) as [m|] eqn:Em.
      - destruct (includes m (str "429")).
        + vm_compute. discriminate.
        + rewrite Em. destruct m; [vm_compute|]; discriminate.
      - rewrite Em. vm_compute. discriminate. }
    split; [exact B|]. split; [discriminate|]. intros _.
    destruct (message err) as [m|] eqn:Em.
    + destruct (includes m (str "429")) eqn:R.
      * split; [|split].
        -- intros m' H _. reflexivity.
        -- intros m' H H'. injection H as <-. congruence.
        -- intros [H|H]; [discriminate|]. injection H as ->.
           vm_compute in R. discriminate.
      * rewrite Em. split; [|split].
        -- intros m' H H'. injection H as <-. congruence.
        -- intros m' H _ N. injection H as <-.
           destruct m; [contradiction|reflexivity].
        -- intros [H|H]; [discriminate|]. injection H as ->. reflexivity.
    + rewrite Em. split; [|split].
      * intros m' H. discriminate.
      * intros m' H. discriminate.
      * intros _. reflexivity.
Qed.

Lemma banner_after_exchange_witness :
  exists b,
    error (handleSend 5000
             {| events := map Chunk [];
                failure :=
                  Some {| message := None;
                          typeError := Some (str "error is null") |} |}
             (freshState (str "hello"))) = Some b
    /\ b = str "error is null".
Proof.
  destruct (@banner_after_exchange (freshState (str "hello")) 5000 []
              (Some {| message := None;
                       typeError := Some (str "error is null") |})
              eq_refl eq_refl eq_refl)
    as (b & E & _ & R & _).
  - vm_compute. discriminate.
  - exists b. split; [exact E|].
    apply (proj1 (R (str "error is null") eq_refl)). discriminate.
Defined.

(** ** Try again *)

Lemma handleRetry_at (s : State) (k : nat) (m : ChatMessage) :
  nth_error (messages s) k = Some m ->
  role m = user ->
  (forall j b, j < k -> nth_error (messages s) j = Some b -> id b <> id m) ->
  handleRetry (id m) s
  = setError None (setInputText (text m) (setMessages (firstn k) s)).
Proof.
  intros N R U. unfold handleRetry.
  rewrite (@findIndex_first _ (fun x => eqb (id x) (id m)) (messages s) k m N).
  - rewrite N, R. reflexivity.
  - apply eqb_refl.
  - intros j b L Nj. apply eqb_neq. now apply (U j b).
Qed.

(** A failed exchange followed by "Try Again" on the failed answer gives the
    conversation back: on a mounted component whose conversation does not
    yet contain the two new ids, after [handleSend] whose stream throws, the
    button under the new model message restores the messages as they were
    before the submission, puts the submitted text back in the input and
    clears the banner.  [lastMessageTime] stays at the time of the failed
    submission. *)
Theorem tryAgain_restores_conversation (s : State) (now : Z)
  (cs : list GenerateContentResponse) (err : JsError) :
  isMountedRef s = true ->
  truthy (trim (inputText s)) = true ->
  isProcessing s = false ->
  (MIN_MESSAGE_INTERVAL <= now - lastMessageTime s)%Z ->
  (forall m, In m (messages s) ->
             id m <> aiMsgIdOf (messageCounterRef s) now
             /\ id m <> userMsgIdOf (messageCounterRef s) now) ->
  let s' := handleSend now {| events := map Chunk cs; failure := Some err |} s in
  exists x,
    nth_error (messages s') (List.length (messages s) + 1) = Some x
    /\ role x = model /\ hasError x = Some true
    /\ messages (tryAgain x s') = messages s
    /\ inputText (tryAgain x s') = inputText s
    /\ error (tryAgain x s') = None
    /\ isProcessing (tryAgain x s') = false
    /\ lastMessageTime (tryAgain x s') = now.
Proof.
  intros M T P I F s'.
  set (remote := {| events := map Chunk cs; failure := Some err |}) in *.
  set (c := messageCounterRef s) in *.
  set (n := List.length (messages s)).
  assert (A : exists x,
             messages (handleSend now remote s)
             = messages s
               ++ [userMessageOf (messageCounterRef s) now (inputText s); x]
             /\ id x = aiMsgIdOf (messageCounterRef s) now
             /\ role x = model).
  { rewrite handleSend_accepted by assumption.
    destruct (@tryStream_messages (aiMsgIdOf (messageCounterRef s) now)
                (inputText s) remote
                (messages s
                   ++ [userMessageOf (messageCounterRef s) now (inputText s)])
                (enqueue (inputText s) now s)
                (aiMessagePlaceholder (messageCounterRef s) now))
      as (x & Mx & Ix & Rx).
    - intros m Hm. apply in_app_or in Hm. destruct Hm as [Hm|[<-|[]]].
      + now apply (proj1 (F m Hm)).
      + apply userMsgId_neq_aiMsgId.
    - reflexivity.
    - reflexivity.
    - exists x. rewrite Mx, <- app_assoc. auto. }
  destruct A as (x & Ms & Ix & Rx).
  fold c in Ms, Ix. fold s' in Ms.
  assert (E : s' = tryStream (aiMsgIdOf c now) (inputText s) remote
                     (enqueue (inputText s) now s))
    by (subst s'; now rewrite handleSend_accepted).
  destruct (@tryStream_mounted (inputText s) now s cs (Some err) M)
    as (Nf & Pf & Lf & _). fold c remote in Nf, Pf, Lf.
  rewrite <- E in Nf, Pf, Lf.
  assert (Nx : nth_error (messages s') (n + 1) = Some x).
  { rewrite Ms, nth_error_app2 by (subst n; lia).
    replace (n + 1 - List.length (messages s)) with 1 by (subst n; lia).
    reflexivity. }
  assert (Nu : nth_error (messages s') n
               = Some (userMessageOf c now (inputText s))).
  { rewrite Ms, nth_error_app2 by (subst n; lia).
    replace (n - List.length (messages s)) with 0 by (subst n; lia).
    reflexivity. }
  assert (Old : forall j b, j < n -> nth_error (messages s') j = Some b ->
                            In b (messages s)).
  { intros j b L Nj. rewrite Ms, nth_error_app1 in Nj by (subst n; lia).
    now apply nth_error_In in Nj. }
  assert (Hx : hasError x = Some true).
  { fold n in Nf. rewrite Nx in Nf. injection Nf as ->. reflexivity. }
  exists x. split; [exact Nx|]. split; [exact Rx|]. split; [exact Hx|].
  assert (Tr : tryAgain x s'
               = setError None
                   (setInputText (inputText s)
                      (setMessages (firstn n) s'))).
  { unfold tryAgain.
    rewrite (@findIndex_first _ (fun m => eqb (id m) (id x)) (messages s')
               (n + 1) x Nx (eqb_refl _)).
    - replace (n + 1) with (S n) by lia. rewrite Nu.
      change (inputText s) with (text (userMessageOf c now (inputText s))).
      apply handleRetry_at; [exact Nu|reflexivity|].
      intros j b L Nj. apply (F b (Old j b L Nj)).
    - intros j b L Nj. apply eqb_neq. rewrite Ix.
      destruct (Nat.eq_dec j n) as [->|D].
      + rewrite Nu in Nj. injection Nj as <-. apply userMsgId_neq_aiMsgId.
      + apply (F b). apply (Old j b); [lia|exact Nj]. }
  rewrite Tr. cbn. repeat split; try assumption.
  rewrite Ms. subst n. rewrite firstn_app, Nat.sub_diag, firstn_all.
  cbn. apply app_nil_r.
Qed.

Lemma tryAgain_restores_witness :
  exists x,
    nth_error
      (messages (handleSend 5000
                   {| events := map Chunk [];
                      failure := Some {| message := None; typeError := None |} |}
                   (freshState (str "hello")))) 1 = Some x
    /\ role x = model /\ hasError x = Some true
    /\ messages (tryAgain x (handleSend 5000
                   {| events := map Chunk [];
                      failure := Some {| message := None; typeError := None |} |}
                   (freshState (str "hello")))) = []
    /\ inputText (tryAgain x (handleSend 5000
                   {| events := map Chunk [];
                      failure := Some {| message := None; typeError := None |} |}
                   (freshState (str "hello")))) = str "hello"
    /\ error (tryAgain x (handleSend 5000
                   {| events := map Chunk [];
                      failure := Some {| message := None; typeError := None |} |}
                   (freshState (str "hello")))) = None
    /\ isProcessing (tryAgain x (handleSend 5000
                   {| events := map Chunk [];
                      failure := Some {| message := None; typeError := None |} |}
                   (freshState (str "hello")))) = false
    /\ lastMessageTime (tryAgain x (handleSend 5000
                   {| events := map Chunk [];
                      failure := Some {| message := None; typeError := None |} |}
                   (freshState (str "hello")))) = 5000%Z.
Proof.
  refine (@tryAgain_restores_conversation (freshState (str "hello")) 5000 []
            {| message := None; typeError := None |} eq_refl eq_refl eq_refl _ _).
  - vm_compute. discriminate.
  - intros m [].
Defined.

(** ** Answers to the questions *)

Lemma getKey_setKey (k : jsstring) (v : list QuestionAnswer) (o : Answers) :
  getKey k (setKey k v o) = Some v.
Proof.
  induction o as [|[k' v'] o IH]; simpl.
  - now rewrite eqb_refl.
  - destruct (eqb k' k) eqn:E; simpl; rewrite E; [reflexivity|exact IH].
Qed.

Lemma getKey_setKey_other (k k' : jsstring) (v : list QuestionAnswer)
  (o : Answers) :
  k' <> k -> getKey k' (setKey k v o) = getKey k' o.
Proof.
  intros N. induction o as [|[k0 v0] o IH]; simpl.
  - replace (eqb k k') with false; [reflexivity|].
    symmetry. apply eqb_neq. congruence.
  - destruct (eqb k0 k) eqn:E; simpl.
    + apply eqb_eq in E. subst k0.
      replace (eqb k k') with false; [reflexivity|].
      symmetry. apply eqb_neq. congruence.
    + now rewrite IH.
Qed.



(** The answers of a message after a click, entry by entry. *)
Lemma answersOf_change (msgId qid : jsstring) (a : YesNo) (prev : Answers) :
  answersOf msgId (handleMultiAnswerChange msgId qid a prev)
  = match findIndex (fun x => eqb (questionId x) qid) (answersOf msgId prev) with
    | Some i =>
        updateAt i (fun x => {| questionId := questionId x;
                                questionText := questionText x;
                                answer := Some a |}) (answersOf msgId prev)
    | None =>
        answersOf msgId prev
        ++ [ {| questionId := qid; questionText := []; answer := Some a |} ]
    end.
Proof.
  unfold handleMultiAnswerChange.
  destruct (findIndex _ (answersOf msgId prev)); unfold answersOf at 1;
    now rewrite getKey_setKey.
Qed.

Lemma answersOf_change_other (msgId msgId' qid : jsstring) (a : YesNo)
  (prev : Answers) :
  msgId' <> msgId ->
  answersOf msgId' (handleMultiAnswerChange msgId qid a prev)
  = answersOf msgId' prev.
Proof.
  intros N. unfold handleMultiAnswerChange.
  destruct (findIndex _ (answersOf msgId prev)); unfold answersOf at 1 3;
    now rewrite getKey_setKey_other.
Qed.

Section Entries.

Variable qid : jsstring.
Variable a : YesNo.

Let hit (x : QuestionAnswer) : bool := eqb (questionId x) qid.
Let put (x : QuestionAnswer) : QuestionAnswer :=
  {| questionId := questionId x; questionText := questionText x;
     answer := Some a |}.

(** What a test on the question id finds after the click, when it is the
    test for another id ([other]) and when it is the test for [qid]. *)
Lemma find_updateAt_other (p : QuestionAnswer -> bool)
  (l : list QuestionAnswer) :
  (forall x, p (put x) = p x) ->
  (forall x, hit x = true -> p x = false) ->
  forall i, findIndex hit l = Some i ->
            find p (updateAt i put l) = find p l.
Proof.
  intros Pp Ph. induction l as [|x l IH]; intros i F; simpl in *;
    [discriminate|].
  destruct (hit x) eqn:Hx.
  - injection F as <-. simpl. rewrite Pp, (Ph x Hx). reflexivity.
  - destruct (findIndex hit l) as [j|]; [|discriminate].
    injection F as <-. simpl. now rewrite (IH j eq_refl).
Qed.

Lemma find_updateAt_hit (l : list QuestionAnswer) :
  forall i, findIndex hit l = Some i ->
            exists x, find hit (updateAt i put l) = Some (put x).
Proof.
  induction l as [|x l IH]; intros i F; simpl in *; [discriminate|].
  destruct (hit x) eqn:Hx.
  - injection F as <-. simpl. exists x.
    replace (hit (put x)) with true; reflexivity.
  - destruct (findIndex hit l) as [j|]; [|discriminate].
    injection F as <-. simpl. rewrite Hx. apply (IH j eq_refl).
Qed.

Lemma findIndex_None_find (l : list QuestionAnswer) :
  findIndex hit l = None -> find hit l = None.
Proof.
  induction l as [|x l IH]; simpl; [reflexivity|].
  destruct (hit x); [discriminate|].
  destruct (findIndex hit l); [discriminate|]. intros _. now apply IH.
Qed.

Lemma find_app_None {A} (p : A -> bool) (l l' : list A) :
  find p l = None -> find p (l ++ l') = find p l'.
Proof.
  induction l as [|x l IH]; simpl; [reflexivity|].
  destruct (p x); [discriminate|exact IH].
Qed.

Lemma find_app_miss {A} (p : A -> bool) (l : list A) (y : A) :
  p y = false -> find p (l ++ [y]) = find p l.
Proof.
  intros H. induction l as [|x l IH]; simpl; [now rewrite H|].
  destruct (p x); [reflexivity|exact IH].
Qed.

Lemma existsb_updateAt_other (p : QuestionAnswer -> bool)
  (l : list QuestionAnswer) :
  (forall x, hit x = true -> p x = false /\ p (put x) = false) ->
  forall i, findIndex hit l = Some i ->
            existsb p (updateAt i put l) = existsb p l.
Proof.
  intros Ph. induction l as [|x l IH]; intros i F; simpl in *;
    [discriminate|].
  destruct (hit x) eqn:Hx.
  - injection F as <-. simpl. destruct (Ph x Hx) as [-> ->]. reflexivity.
  - destruct (findIndex hit l) as [j|]; [|discriminate].
    injection F as <-. simpl. now rewrite (IH j eq_refl).
Qed.

Lemma existsb_updateAt_hit (l : list QuestionAnswer) :
  forall i, findIndex hit l = Some i ->
            existsb (fun x => hit x && isAnswered x) (updateAt i put l) = true.
Proof.
  induction l as [|x l IH]; intros i F; simpl in *; [discriminate|].
  destruct (hit x) eqn:Hx.
  - injection F as <-. simpl.
    replace (hit (put x)) with true; reflexivity.
  - destruct (findIndex hit l) as [j|]; [|discriminate].
    injection F as <-. simpl. rewrite (IH j eq_refl). apply orb_true_r.
Qed.

Lemma updateAt_In (l : list QuestionAnswer) (i : nat) (y : QuestionAnswer) :
  In y (updateAt i put l) -> In y l \/ exists x, y = put x.
Proof.
  revert i; induction l as [|x l IH]; intros [|i]; simpl; try tauto.
  - intros [<-|H]; [right; eexists; reflexivity|tauto].
  - intros [<-|H]; [tauto|]. destruct (IH i H); tauto.
Qed.

End Entries.

(** A click on a radio button is what the buttons show afterwards: the
    answer of the clicked question id of that message becomes the clicked
    answer, the answers of the other question ids and of the other messages
    are as before. *)
Theorem handleMultiAnswerChange_sets_one_answer
  (msgId qid : jsstring) (a : YesNo) (prev : Answers) :
  (forall q, questionId q = qid ->
             currentAnswer msgId q (handleMultiAnswerChange msgId qid a prev)
             = Some a)
  /\ (forall q, questionId q <> qid ->
                currentAnswer msgId q (handleMultiAnswerChange msgId qid a prev)
                = currentAnswer msgId q prev)
  /\ (forall msgId' q, msgId' <> msgId ->
                       currentAnswer msgId' q
                         (handleMultiAnswerChange msgId qid a prev)
                       = currentAnswer msgId' q prev).
Proof.
  split; [|split].
  - intros q <-. unfold currentAnswer. rewrite answersOf_change.
    destruct (findIndex _ (answersOf msgId prev)) as [i|] eqn:F.
    + destruct (@find_updateAt_hit (questionId q) a _ i F) as [x ->].
      reflexivity.
    + rewrite find_app_None by (now apply findIndex_None_find).
      simpl. now rewrite eqb_refl.
  - intros q N. unfold currentAnswer. rewrite answersOf_change.
    destruct (findIndex _ (answersOf msgId prev)) as [i|] eqn:F.
    + rewrite (@find_updateAt_other qid a); [reflexivity|reflexivity| |exact F].
      intros x H. apply eqb_eq in H. apply eqb_neq. congruence.
    + rewrite find_app_miss; [reflexivity|].
      simpl. apply eqb_neq. congruence.
  - intros msgId' q N. unfold currentAnswer.
    now rewrite answersOf_change_other.
Qed.

Lemma handleMultiAnswerChange_witness :
  currentAnswer (str "ai-0-5000") (mkQuestion (str "1") (str "Do you rent?"))
    (handleMultiAnswerChange (str "ai-0-5000") (str "q-1") yes []) = Some yes.
Proof.
  refine (proj1 (@handleMultiAnswerChange_sets_one_answer (str "ai-0-5000")
                   (str "q-1") yes [])
            (mkQuestion (str "1") (str "Do you rent?")) _).
  reflexivity.
Defined.

Lemma eqb_sym (a b : jsstring) : eqb a b = eqb b a.
Proof.
  destruct (eqb a b) eqn:E.
  - apply eqb_eq in E. subst. symmetry. apply eqb_refl.
  - symmetry. apply eqb_neq. apply eqb_neq in E. congruence.
Qed.

(** A click answers its question id and withdraws no answer. *)
Lemma answeredIn_change (msgId qid : jsstring) (a : YesNo) (prev : Answers)
  (q : QuestionAnswer) :
  answeredIn msgId (handleMultiAnswerChange msgId qid a prev) q
  = eqb (questionId q) qid || answeredIn msgId prev q.
Proof.
  unfold answeredIn. rewrite answersOf_change.
  destruct (findIndex _ (answersOf msgId prev)) as [i|] eqn:F.
  - destruct (eqb (questionId q) qid) eqn:E.
    + apply eqb_eq in E. subst qid.
      apply (@existsb_updateAt_hit (questionId q) a _ i F).
    + rewrite (@existsb_updateAt_other qid a); [reflexivity| |exact F].
      intros x H. apply eqb_eq in H. apply eqb_neq in E.
      assert (N : eqb (questionId x) (questionId q) = false)
        by (apply eqb_neq; congruence).
      simpl. now rewrite N.
  - rewrite existsb_app. simpl.
    rewrite orb_false_r, andb_true_r, orb_comm. f_equal. apply eqb_sym.
Qed.

Lemma answerEach_answers (msgId : jsstring) (choice : QuestionAnswer -> YesNo)
  (questions : list QuestionAnswer) :
  forall prev q,
    answeredIn msgId prev q = true
    \/ (exists q', In q' questions /\ questionId q' = questionId q) ->
    answeredIn msgId (answerEach msgId choice questions prev) q = true.
Proof.
  induction questions as [|q0 qs IH]; intros prev q H; simpl.
  - destruct H as [H|(q' & [] & _)]. exact H.
  - apply IH. rewrite answeredIn_change.
    destruct H as [H|(q' & [<-|I] & E)].
    + left. rewrite H. apply orb_true_r.
    + left. rewrite E, eqb_refl. reflexivity.
    + right. exists q'. auto.
Qed.

Lemma entriesAnswered_change (msgId qid : jsstring) (a : YesNo)
  (prev : Answers) :
  entriesAnswered prev ->
  entriesAnswered (handleMultiAnswerChange msgId qid a prev).
Proof.
  intros W k l x G I.
  destruct (eqb k msgId) eqn:E.
  - apply eqb_eq in E. subst k.
    assert (L : l = answersOf msgId (handleMultiAnswerChange msgId qid a prev))
      by (unfold answersOf; now rewrite G).
    rewrite answersOf_change in L. subst l.
    assert (Old : forall y, In y (answersOf msgId prev) -> isAnswered y = true).
    { intros y Hy. unfold answersOf in Hy.
      destruct (getKey msgId prev) as [l0|] eqn:G0; [|contradiction].
      exact (W msgId l0 y G0 Hy). }
    destruct (findIndex _ (answersOf msgId prev)).
    + apply (@updateAt_In qid a) in I.
      destruct I as [I|[y ->]]; [now apply Old|]. reflexivity.
    + apply in_app_or in I. destruct I as [I|[<-|[]]]; [now apply Old|].
      reflexivity.
  - apply eqb_neq in E. unfold handleMultiAnswerChange in G.
    destruct (findIndex _ (answersOf msgId prev));
      rewrite getKey_setKey_other in G by exact E; exact (W k l x G I).
Qed.

(** Once every question has been clicked, whatever the choices and whatever
    was stored before, [areAllQuestionsAnswered] holds, so the submit button
    is enabled; questions that carry the same number share one answer.
    Starting from no answers, or from entries that all carry an answer,
    every stored entry carries an answer, and then [areAllQuestionsAnswered]
    implies that each question shows Yes or No: no line of the response says
    "Not answered". *)
Theorem all_questions_answered_after_clicks
  (msgId : jsstring) (choice : QuestionAnswer -> YesNo)
  (questions : list QuestionAnswer) (prev : Answers) :
  areAllQuestionsAnswered msgId questions
    (answerEach msgId choice questions prev) = true
  /\ (entriesAnswered prev ->
      entriesAnswered (answerEach msgId choice questions prev))
  /\ entriesAnswered []
  /\ (entriesAnswered prev ->
      areAllQuestionsAnswered msgId questions prev = true ->
      forall q, In q questions ->
                exists a, currentAnswer msgId q prev = Some a).
Proof.
  split; [|split; [|split]].
  - unfold areAllQuestionsAnswered. apply forallb_forall. intros q I.
    apply (@answerEach_answers msgId choice questions prev q).
    right. exists q. auto.
  - unfold answerEach. revert prev.
    induction questions as [|q0 qs IH]; intros prev W; simpl; [exact W|].
    apply IH. now apply entriesAnswered_change.
  - intros k l x G. discriminate G.
  - intros W A q I. unfold areAllQuestionsAnswered in A.
    rewrite forallb_forall in A. specialize (A q I).
    apply existsb_exists in A. destruct A as (x & Ix & Hx).
    apply andb_true_iff in Hx. destruct Hx as [Hx _].
    unfold currentAnswer.
    destruct (find (fun x0 => eqb (questionId x0) (questionId q))
                (answersOf msgId prev)) as [y|] eqn:F.
    + apply find_some in F. destruct F as [Iy _].
      assert (Ay : isAnswered y = true).
      { unfold answersOf in Iy.
        destruct (getKey msgId prev) as [l0|] eqn:G0; [|contradiction].
        exact (W msgId l0 y G0 Iy). }
      unfold isAnswered in Ay. destruct (answer y) as [a|];
        [now exists a|discriminate].
    + exfalso. pose proof (find_none _ _ F x Ix) as N. cbv beta in N.
      congruence.
Qed.

Lemma all_questions_answered_witness :
  exists a,
    currentAnswer (str "ai-0-5000")
      (mkQuestion (str "2") (str "Do you own a vehicle?"))
      (answerEach (str "ai-0-5000") (fun _ => yes)
         (parseMultiQuestions twoQuestions) []) = Some a.
Proof.
  refine (proj2 (proj2 (proj2
            (@all_questions_answered_after_clicks (str "ai-0-5000")
               (fun _ => yes) (parseMultiQuestions twoQuestions)
               (answerEach (str "ai-0-5000") (fun _ => yes)
                  (parseMultiQuestions twoQuestions) [])))) _ _
            (mkQuestion (str "2") (str "Do you own a vehicle?")) _).
  - apply (proj1 (proj2 (@all_questions_answered_after_clicks
                           (str "ai-0-5000") (fun _ => yes)
                           (parseMultiQuestions twoQuestions) []))).
    intros k l x G. discriminate G.
  - vm_compute. reflexivity.
  - vm_compute. right. left. reflexivity.
Defined.

(** ** Submitting the answers *)

Lemma deliver_keeps_other (aiMsgId : jsstring) (evs : list StreamEvent) :
  forall (acc : Accumulator) (s : State) (i : nat) (m : ChatMessage),
    nth_error (messages s) i = Some m -> id m <> aiMsgId ->
    nth_error (messages (snd (deliver aiMsgId evs (acc, s)))) i = Some m.
Proof.
  induction evs as [|[c|] evs IH]; intros acc s i m N D; cbn [deliver].
  - exact N.
  - unfold onChunk. destruct (negb (isMountedRef s)); apply IH; try assumption.
    cbn [messages setMessages]. rewrite nth_error_map, N. cbn [option_map].
    replace (eqb (id m) aiMsgId) with false; [reflexivity|].
    symmetry. now apply eqb_neq.
  - apply IH; assumption.
Qed.

(** An exchange leaves every message with another id where and as it is. *)
Lemma tryStream_keeps_other (aiMsgId userText : jsstring) (remote : Remote)
  (s : State) (i : nat) (m : ChatMessage) :
  nth_error (messages s) i = Some m -> id m <> aiMsgId ->
  nth_error (messages (tryStream aiMsgId userText remote s)) i = Some m.
Proof.
  intros N D. unfold tryStream, sendMessageStream. cbn [fst snd].
  pose proof (@deliver_keeps_other aiMsgId (events remote)
                {| accumulatedText := []; accumulatedGrounding := [] |}
                (logRequest userText s) i m N D) as K.
  destruct (deliver aiMsgId (events remote) _) as [acc1 s1]. cbn [snd] in K.
  assert (F : eqb (id m) aiMsgId = false) by now apply eqb_neq.
  destruct (failure remote); cbn iota beta;
    destruct (isMountedRef s1) eqn:Mo; simpl; rewrite ?Mo; simpl;
    rewrite ?nth_error_map, K; simpl; rewrite ?F; reflexivity.
Qed.

Lemma tryStream_requests (aiMsgId userText : jsstring) (remote : Remote)
  (s : State) :
  remoteRequests (tryStream aiMsgId userText remote s)
  = remoteRequests s ++ [userText].
Proof.
  unfold tryStream, sendMessageStream. cbn [fst snd].
  destruct (deliver_frame aiMsgId (events remote)
              ({| accumulatedText := []; accumulatedGrounding := [] |},
               logRequest userText s)) as [(_ & _ & _ & _ & _ & _ & R) _].
  destruct (deliver aiMsgId (events remote) _) as [acc1 s1].
  cbn [snd] in R. simpl in R.
  destruct (failure remote); cbn iota beta;
    destruct (isMountedRef s1) eqn:Mo; simpl; rewrite ?Mo; simpl; exact R.
Qed.




(** ** Expanded messages and the latest answer *)

Lemma setHas_In (x : jsstring) (l : list jsstring) :
  setHas x l = true <-> In x l.
Proof.
  unfold setHas. rewrite existsb_exists. split.
  - intros (y & I & E). apply eqb_eq in E. now subst.
  - intros I. exists x. split; [exact I|apply eqb_refl].
Qed.

Lemma setHas_setDelete (x y : jsstring) (l : list jsstring) :
  setHas y (setDelete x l) = setHas y l && negb (eqb y x).
Proof.
  unfold setHas, setDelete. induction l as [|z l IH]; simpl; [reflexivity|].
  destruct (eqb z x) eqn:Z; simpl; rewrite IH.
  - apply eqb_eq in Z. subst z. destruct (eqb y x); simpl;
      [now rewrite !andb_false_r|now rewrite !andb_true_r].
  - destruct (eqb y z) eqn:Y; simpl; [|reflexivity].
    apply eqb_eq in Y. subst z. now rewrite Z.
Qed.

Lemma setHas_setAdd (x y : jsstring) (l : list jsstring) :
  setHas y (setAdd x l) = setHas y l || eqb y x.
Proof.
  unfold setAdd. destruct (setHas x l) eqn:H.
  - destruct (eqb y x) eqn:E; [|now rewrite orb_false_r].
    apply eqb_eq in E. subst y. now rewrite H.
  - unfold setHas. rewrite existsb_app. simpl. now rewrite orb_false_r.
Qed.

Lemma NoDup_setAdd (x : jsstring) (l : list jsstring) :
  NoDup l -> NoDup (setAdd x l).
Proof.
  intros D. unfold setAdd. destruct (setHas x l) eqn:H; [exact D|].
  apply NoDup_app; [exact D|repeat constructor; tauto|].
  intros y I [<-|[]]. apply setHas_In in I. congruence.
Qed.

(** A click on the header of a collapsed or expanded message flips the
    membership of its id in the set of expanded ids and of no other id; a
    second click undoes the first; the set stays without repetition. *)
Theorem toggleMessageExpansion_flips (x : jsstring) (l : list jsstring) :
  setHas x (toggleMessageExpansion x l) = negb (setHas x l)
  /\ (forall y, y <> x ->
                setHas y (toggleMessageExpansion x l) = setHas y l)
  /\ (forall y, setHas y (toggleMessageExpansion x
                            (toggleMessageExpansion x l)) = setHas y l)
  /\ (NoDup l -> NoDup (toggleMessageExpansion x l)).
Proof.
  assert (One : forall l0 y,
             setHas y (toggleMessageExpansion x l0)
             = if eqb y x then negb (setHas x l0) else setHas y l0).
  { intros l0 y. unfold toggleMessageExpansion.
    destruct (setHas x l0) eqn:H.
    - rewrite setHas_setDelete. destruct (eqb y x) eqn:E; simpl;
        [apply andb_false_r|apply andb_true_r].
    - rewrite setHas_setAdd. destruct (eqb y x) eqn:E; simpl;
        [apply orb_true_r|apply orb_false_r]. }
  split; [|split; [|split]].
  - now rewrite One, eqb_refl.
  - intros y N. rewrite One. now replace (eqb y x) with false
      by (symmetry; now apply eqb_neq).
  - intros y. rewrite !One. destruct (eqb y x) eqn:E; [|reflexivity].
    apply eqb_eq in E. subst y. rewrite eqb_refl. apply negb_involutive.
  - intros D. unfold toggleMessageExpansion.
    destruct (setHas x l); [|now apply NoDup_setAdd].
    unfold setDelete. now apply NoDup_filter.
Qed.

Lemma toggleMessageExpansion_witness :
  NoDup (toggleMessageExpansion (str "ai-0-5000") [str "ai-1-9000"]).
Proof.
  refine (proj2 (proj2 (proj2 (@toggleMessageExpansion_flips
            (str "ai-0-5000") [str "ai-1-9000"]))) _).
  repeat constructor; simpl; tauto.
Defined.

Lemma lastMessage_In (l : list ChatMessage) (m : ChatMessage) :
  lastMessage l = Some m -> In m l.
Proof.
  unfold lastMessage. destruct l as [|a l]; [discriminate|].
  apply nth_error_In.
Qed.

(** With distinct ids, at most one message is the latest: a model message
    of the conversation for which [isLatest] holds is the last model
    message.  So the yes/no controls and the option buttons, which are
    rendered for the latest message only, appear under that one message,
    which is always expanded. *)
Theorem isLatest_is_last_model_message
  (ms : list ChatMessage) (expanded : list jsstring) (m : ChatMessage) :
  NoDup (map id ms) ->
  In m ms ->
  isLatest ms m = true ->
  lastMessage (modelMessages ms) = Some m
  /\ role m = model
  /\ isExpanded ms expanded m = true.
Proof.
  intros D I L. unfold isExpanded. rewrite L. unfold isLatest, lastMsgId in L.
  destruct (lastMessage (modelMessages ms)) as [m'|] eqn:E; [|discriminate].
  simpl in L. apply eqb_eq in L.
  pose proof (lastMessage_In _ E) as I'.
  unfold modelMessages in I'. apply filter_In in I'. destruct I' as [I' R].
  assert (m = m') by (apply (@NoDup_map_same _ _ id ms m m' D I I' L)).
  subst m'. repeat split. destruct (role m); [discriminate|reflexivity].
Qed.

Lemma isLatest_witness :
  lastMessage (modelMessages (messages threeMessages))
  = nth_error (messages threeMessages) 3.
Proof.
  destruct (nth_error (messages threeMessages) 3) as [m|] eqn:N;
    [|discriminate N].
  refine (proj1 (@isLatest_is_last_model_message (messages threeMessages) []
                   m _ (nth_error_In _ _ N) _)).
  - repeat constructor; simpl; intros H;
      repeat (destruct H as [H|H]; [discriminate H|]); exact H.
  - injection N as <-. vm_compute. reflexivity.
Defined.

(** ** Export and sources *)

Lemma startsWith_app (p t : jsstring) : startsWith p (p ++ t) = true.
Proof.
  induction p as [|c p IH]; simpl; [reflexivity|].
  now rewrite N.eqb_refl, IH.
Qed.

Lemma startsWith_app_l (p a b : jsstring) :
  startsWith p a = true -> startsWith p (a ++ b) = true.
Proof.
  revert a; induction p as [|c p IH]; intros [|x a] H; simpl in *;
    try reflexivity; try discriminate.
  apply andb_true_iff in H. destruct H as [-> H]. simpl. now apply IH.
Qed.

Lemma includes_app_l (a b p : jsstring) :
  includes a p = true -> includes (a ++ b) p = true.
Proof.
  induction a as [|x a IH]; simpl.
  - rewrite orb_false_r. intros H. destruct p; [|discriminate].
    destruct b; reflexivity.
  - intros H. apply orb_true_iff in H. destruct H as [H|H].
    + change (startsWith p ((x :: a) ++ b) || includes (a ++ b) p = true).
      now rewrite (@startsWith_app_l p (x :: a) b H).
    + rewrite (IH H). apply orb_true_r.
Qed.

Lemma includes_app_r (a b p : jsstring) :
  includes b p = true -> includes (a ++ b) p = true.
Proof.
  intros H. induction a as [|x a IH]; simpl; [exact H|].
  rewrite IH. apply orb_true_r.
Qed.

Lemma includes_self_app (p t : jsstring) : includes (p ++ t) p = true.
Proof.
  destruct (p ++ t) eqn:E; simpl.
  - destruct p; [reflexivity|discriminate].
  - rewrite <- E, startsWith_app. reflexivity.
Qed.

Lemma startsWith_split (f l : jsstring) :
  startsWith f l = true -> exists t, l = f ++ t.
Proof.
  revert l; induction f as [|a f IH]; intros l K.
  - exists l. reflexivity.
  - destruct l as [|b l]; [discriminate|]. simpl in K.
    apply andb_true_iff in K. destruct K as [E K].
    apply N.eqb_eq in E. subst b.
    destruct (IH l K) as [t ->]. exists t. reflexivity.
Qed.

Lemma includes_trans (j f x : jsstring) :
  includes j f = true -> includes f x = true -> includes j x = true.
Proof.
  intros K H. induction j as [|c j IH].
  - simpl in K. rewrite orb_false_r in K. destruct f; [exact H|discriminate].
  - simpl in K. apply orb_true_iff in K. destruct K as [K|K].
    + destruct (@startsWith_split f (c :: j) K) as [t ->].
      now apply includes_app_l.
    + simpl. rewrite (IH K). apply orb_true_r.
Qed.

(** Every element of a joined list is in the result, whole. *)
Lemma includes_join (sep : jsstring) (l : list jsstring) (x : jsstring) :
  In x l -> includes (join sep l) x = true.
Proof.
  induction l as [|a l IH]; [contradiction|]. intros [->|I].
  - destruct l as [|b l]; cbn [join].
    + rewrite <- (app_nil_r x) at 1. apply includes_self_app.
    + apply includes_self_app.
  - destruct l as [|b l]; [contradiction|]. cbn [join].
    apply includes_app_r, includes_app_r. now apply IH.
Qed.

Lemma join_app (sep : jsstring) (l1 l2 : list jsstring) :
  l1 <> [] -> l2 <> [] ->
  join sep (l1 ++ l2) = join sep l1 ++ sep ++ join sep l2.
Proof.
  intros N1 N2. induction l1 as [|a l1 IH]; [contradiction|].
  destruct l1 as [|b l1].
  - destruct l2 as [|c l2]; [contradiction|]. reflexivity.
  - change (a ++ sep ++ join sep ((b :: l1) ++ l2)
            = (a ++ sep ++ join sep (b :: l1)) ++ sep ++ join sep l2).
    rewrite IH by discriminate. now rewrite <- !app_assoc.
Qed.

(** The export loses nothing: the text of every message, and every
    non-empty uri of its citations, is in the formatted conversation as it
    is; and the export of two conversations one after the other is the two
    exports around the separator. *)
Theorem formatConversation_keeps_texts_and_uris :
  (forall ms m,
      In m ms ->
      includes (formatConversation ms) (text m) = true
      /\ forall u, In u (truthyUris (citations m)) ->
                   includes (formatConversation ms) u = true)
  /\ (forall a b,
         a <> [] -> b <> [] ->
         formatConversation (a ++ b)
         = formatConversation a ++ conversationSeparator
           ++ formatConversation b).
Proof.
  split.
  - intros ms m I.
    assert (J : forall x, includes (formatMessage m) x = true ->
                          includes (formatConversation ms) x = true).
    { intros x. apply includes_trans. unfold formatConversation.
      apply includes_join. now apply in_map. }
    split.
    + apply J. unfold formatMessage.
      apply includes_app_r, includes_app_r. apply includes_self_app.
    + intros u U. apply J. unfold formatMessage, citations in *.
      destruct (groundingChunks m) as [[|c cs]|]; try contradiction.
      do 6 apply includes_app_r.
      apply includes_app_l. now apply includes_join.
  - intros a b Na Nb. unfold formatConversation. rewrite map_app.
    apply join_app; destruct a, b; try discriminate; contradiction.
Qed.

Lemma formatConversation_witness :
  includes (formatConversation (messages threeMessages)) (str "second")
  = true.
Proof.
  refine (proj1 (proj1 formatConversation_keeps_texts_and_uris
                   (messages threeMessages)
                   {| id := str "user-1-9000"; role := user;
                      text := str "second"; groundingChunks := None;
                      isStreaming := None; hasError := None |} _)).
  right. right. left. reflexivity.
Defined.

Lemma fold_setAdd (l : list jsstring) :
  forall acc,
    NoDup acc ->
    NoDup (fold_left (fun a x => setAdd x a) l acc)
    /\ forall x, In x (fold_left (fun a x => setAdd x a) l acc)
                 <-> In x acc \/ In x l.
Proof.
  induction l as [|y l IH]; intros acc D; simpl.
  - split; [exact D|]. intros x. tauto.
  - destruct (IH (setAdd y acc) (NoDup_setAdd y D)) as [D' I'].
    split; [exact D'|]. intros x. rewrite I'.
    rewrite <- !setHas_In, setHas_setAdd, orb_true_iff, eqb_eq.
    rewrite !setHas_In. intuition congruence.
Qed.

Lemma truthyUris_length (cs : list GroundingChunk) :
  List.length (truthyUris cs) <= List.length cs.
Proof.
  induction cs as [|c cs IH]; simpl; [lia|].
  rewrite length_app. destruct (uriOf c) as [u|]; [|simpl; lia].
  destruct (truthy u); simpl; lia.
Qed.

Lemma truthyUris_In (cs : list GroundingChunk) (u : jsstring) :
  In u (truthyUris cs) <->
  exists c, In c cs /\ uriOf c = Some u /\ u <> [].
Proof.
  unfold truthyUris. rewrite in_flat_map. split.
  - intros (c & I & H). exists c. split; [exact I|].
    destruct (uriOf c) as [v|]; [|contradiction].
    destruct v as [|x v]; [contradiction|].
    destruct H as [<-|[]]. split; [reflexivity|discriminate].
  - intros (c & I & E & N). exists c. split; [exact I|]. rewrite E.
    destruct u; [contradiction|]. now left.
Qed.

(** The source links under a message: one link for each non-empty uri among
    the citations, none twice, so never more links than citations; the
    label of a link is never blank: it is the title of the first citation
    with that uri, or "Source" when that citation has no title or an empty
    one. *)
Theorem displayedSources_deduplicated (cs : list GroundingChunk) :
  NoDup (map fst (displayedSources cs))
  /\ (forall u, In u (map fst (displayedSources cs)) <->
                exists c, In c cs /\ uriOf c = Some u /\ u <> [])
  /\ List.length (displayedSources cs) <= List.length cs
  /\ (forall u t, In (u, t) (displayedSources cs) ->
        t <> []
        /\ exists c,
             find (fun c => match uriOf c with
                            | Some v => eqb v u
                            | None => false
                            end) cs = Some c
             /\ uriOf c = Some u
             /\ t = orString (match web c with
                              | Some w => title w
                              | None => None
                              end) (str "Source")).
Proof.
  destruct (@fold_setAdd (truthyUris cs) [] (NoDup_nil _)) as [D I].
  fold (setOfList (truthyUris cs)) in D, I.
  assert (Fst : map fst (displayedSources cs) = setOfList (truthyUris cs)).
  { unfold displayedSources. rewrite map_map. simpl. apply map_id. }
  split; [now rewrite Fst|]. split; [|split].
  - intros u. rewrite Fst, I, truthyUris_In. simpl. tauto.
  - unfold displayedSources. rewrite length_map.
    etransitivity; [|apply truthyUris_length].
    apply NoDup_incl_length; [exact D|].
    intros u Hu. apply I in Hu. simpl in Hu. tauto.
  - intros u t H. unfold displayedSources in H. apply in_map_iff in H.
    destruct H as (u' & E & Hu). injection E as -> <-.
    apply I in Hu. simpl in Hu. destruct Hu as [[]|Hu].
    apply truthyUris_In in Hu. destruct Hu as (c0 & I0 & E0 & N0).
    unfold titleShown.
    destruct (find _ cs) as [c|] eqn:F.
    + pose proof (find_some _ _ F) as [_ Hc].
      destruct (uriOf c) as [v|] eqn:Ev; [|discriminate].
      apply eqb_eq in Hc. subst v.
      split; [|exists c; auto].
      unfold orString. destruct (match web c with
                                 | Some w => title w
                                 | None => None
                                 end) as [[|x y]|]; simpl; discriminate.
    + exfalso. pose proof (find_none _ _ F c0 I0) as Hn. cbv beta in Hn.
      rewrite E0, eqb_refl in Hn. discriminate.
Qed.

Lemma displayedSources_witness :
  str "A" <> []
  /\ exists c,
       find (fun c => match uriOf c with
                      | Some v => eqb v (str "https://a.example")
                      | None => false
                      end) [sourceA; sourceA] = Some c
       /\ uriOf c = Some (str "https://a.example")
       /\ str "A" = orString (match web c with
                              | Some w => title w
                              | None => None
                              end) (str "Source").
Proof.
  refine (proj2 (proj2 (proj2 (@displayedSources_deduplicated
            [sourceA; sourceA]))) (str "https://a.example") (str "A") _).
  vm_compute. left. reflexivity.
Defined.

(** ** Start of the chat *)

Lemma tryStream_hasStarted (aiMsgId userText : jsstring) (remote : Remote)
  (s : State) :
  hasStarted (tryStream aiMsgId userText remote s) = hasStarted s.
Proof.
  unfold tryStream, sendMessageStream. cbn [fst snd].
  destruct (deliver_frame aiMsgId (events remote)
              ({| accumulatedText := []; accumulatedGrounding := [] |},
               logRequest userText s)) as [(_ & _ & H & _) _].
  destruct (deliver aiMsgId (events remote) _) as [acc1 s1].
  cbn [snd] in H. simpl in H.
  destruct (failure remote); cbn iota beta;
    destruct (isMountedRef s1) eqn:Mo; simpl; rewrite ?Mo; simpl; exact H.
Qed.

Lemma handleSend_hasStarted (now : Z) (remote : Remote) (s : State) :
  hasStarted (handleSend now remote s) = hasStarted s.
Proof.
  destruct (guards_cases (inputText s) now s) as [(T & P & I)|G].
  - rewrite handleSend_accepted by assumption.
    now rewrite tryStream_hasStarted.
  - now rewrite handleSend_rejected.
Qed.

(** [handleStart] on a mounted component.  With a blank input or while
    initializing it does nothing.  Otherwise the chat view is shown
    ([hasStarted]) whatever follows.  Without a client and without an API
    key, the session cannot be opened: the banner is the start-failure
    sentence, no message is added, nothing is sent, the input keeps its
    text, and [isInitializing] is false again.  With a key or a client, a
    session is opened and the rest is [handleSend]; if [handleSend] drops
    the submission (less than 1000 ms after the last accepted one), the chat
    view is shown with the conversation unchanged. *)
Theorem handleStart_outcomes (now : Z) (remote : Remote) (a : Shell) :
  isMountedRef (core a) = true ->
  (truthy (trim (inputText (core a))) = false \/ isInitializing a = true ->
   handleStart now remote a = a)
  /\ (truthy (trim (inputText (core a))) = true ->
      isInitializing a = false ->
      hasStarted (core (handleStart now remote a)) = true
      /\ (ai (service a) = false ->
          API_KEY (service a) = None \/ API_KEY (service a) = Some [] ->
          handleStart now remote a
          = {| core := setError (Some startFailed)
                         (setHasStarted true (core a));
               isInitializing := false;
               service := service a |})
      /\ (ai (service a) = true
          \/ (exists k, API_KEY (service a) = Some k /\ k <> []) ->
          core (handleStart now remote a)
          = handleSend now remote (setHasStarted true (core a))
          /\ chatSession (service (handleStart now remote a)) = true
          /\ ((now - lastMessageTime (core a) < MIN_MESSAGE_INTERVAL)%Z ->
              core (handleStart now remote a)
              = setHasStarted true (core a)))).
Proof.
  intros M. split.
  - intros G. unfold handleStart.
    destruct G as [-> | ->]; [reflexivity|now rewrite orb_true_r].
  - intros T I. unfold handleStart. rewrite T, I. cbn [negb orb].
    assert (M' : isMountedRef (setHasStarted true (core a)) = true)
      by exact M.
    split; [|split].
    + destruct (initializeChat (service a)) as [err|v]; rewrite M';
        cbn [negb]; cbn [core]; [reflexivity|].
      now rewrite handleSend_hasStarted.
    + intros A K. unfold initializeChat. rewrite A.
      destruct K as [-> | ->]; simpl; rewrite M; simpl; rewrite ?M;
        reflexivity.
    + intros K.
      assert (E : exists v, initializeChat (service a) = inr v
                            /\ chatSession v = true).
      { unfold initializeChat. destruct (ai (service a)) eqn:A.
        - eexists. split; reflexivity.
        - destruct K as [K|(k & -> & N)]; [discriminate|].
          destruct k; [contradiction|]. eexists. split; reflexivity. }
      destruct E as (v & -> & C). rewrite M'. cbn [negb core service].
      split; [reflexivity|]. split; [exact C|].
      intros L. apply handleSend_rejected. right. right. exact L.
Qed.

Lemma handleStart_witness :
  messages (core (handleStart 5000 oneChunk firstVisit)) = []
  /\ error (core (handleStart 5000 oneChunk firstVisit)) = Some startFailed
  /\ hasStarted (core (handleStart 5000 oneChunk firstVisit)) = true.
Proof.
  pose proof (@handleStart_outcomes 5000 oneChunk firstVisit eq_refl)
    as [_ H].
  destruct (H eq_refl eq_refl) as (_ & F & _).
  rewrite (F eq_refl (or_introl eq_refl)). repeat split.
Defined.

(** ** The saved conversation *)

Lemma reload_saved (s : State) (saved : Storage) :
  messages s <> [] ->
  reload (saveEffect s saved)
  = setHasStarted true (setMessages (fun _ => messages s) initialState).
Proof.
  intros N. unfold reload, saveEffect, loadEffect.
  destruct (messages s) as [|m l]; [contradiction|]. reflexivity.
Qed.

(** The slot is written whenever the conversation is not empty and never
    when it is empty, so it is only emptied by [clearConversation]: a page
    load after a save shows the saved messages; editing the first user
    message empties the conversation on screen but leaves the slot as it
    is, and a page load then brings the whole conversation back; after a
    confirmed [clearConversation] a page load starts from nothing, as it
    does when the slot is absent, does not parse, or holds something other
    than a non-empty array. *)
Theorem saved_conversation_survives_until_cleared
  (s : State) (saved : Storage) :
  (messages s <> [] ->
   messages (reload (saveEffect s saved)) = messages s
   /\ hasStarted (reload (saveEffect s saved)) = true)
  /\ (messages s = [] -> saveEffect s saved = saved)
  /\ (forall m0 rest,
         messages s = m0 :: rest -> role m0 = user ->
         let s1 := handleRetry (id m0) s in
         messages s1 = []
         /\ inputText s1 = text m0
         /\ saveEffect s1 (saveEffect s saved) = Some (History (m0 :: rest))
         /\ messages (reload (saveEffect s1 (saveEffect s saved)))
            = m0 :: rest)
  /\ (let (s2, cleared) := clearConversation true (s, saveEffect s saved) in
      messages s2 = [] /\ hasStarted s2 = false /\ error s2 = None
      /\ saveEffect s2 cleared = None
      /\ reload (saveEffect s2 cleared) = initialState)
  /\ reload None = initialState
  /\ reload (Some Malformed) = initialState
  /\ reload (Some NotAnArray) = initialState
  /\ reload (Some (History [])) = initialState.
Proof.
  split; [|split; [|split; [|split]]].
  - intros N. rewrite reload_saved by exact N. split; reflexivity.
  - intros E. unfold saveEffect. now rewrite E.
  - intros m0 rest E R s1.
    assert (H : s1 = setError None
                       (setInputText (text m0) (setMessages (firstn 0) s))).
    { subst s1. apply handleRetry_at; [now rewrite E|exact R|].
      intros j b L. lia. }
    rewrite H. cbn. unfold saveEffect. rewrite E. cbn. repeat split.
  - cbn. repeat split.
  - repeat split.
Qed.

Lemma saved_conversation_witness :
  let s1 := handleRetry (str "user-0-5000") threeMessages in
  messages s1 = []
  /\ inputText s1 = str "first"
  /\ saveEffect s1 (saveEffect threeMessages None)
     = Some (History (messages threeMessages))
  /\ messages (reload (saveEffect s1 (saveEffect threeMessages None)))
     = messages threeMessages.
Proof.
  refine (proj1 (proj2 (proj2 (@saved_conversation_survives_until_cleared
            threeMessages None))) _ _ eq_refl eq_refl).
Defined.

(** A page load in the middle of an answer.  The slot is written after
    every change of the messages, also while an answer is streaming; a page
    load then shows the conversation with the assistant message still
    marked as streaming, in a component that is not processing and whose
    rate limit and message counter start afresh.  For that message there
    are no quick replies, no yes/no controls and no option buttons,
    whatever its text. *)
Theorem reload_during_stream_keeps_streaming_flag
  (lower : jsstring -> jsstring) (s : State) (txt : jsstring) (now : Z)
  (evs : list StreamEvent) (saved : Storage) :
  let st := reload (saveEffect (midExchange txt now evs s) saved) in
  messages st = messages (midExchange txt now evs s)
  /\ isProcessing st = false
  /\ lastMessageTime st = 0%Z
  /\ messageCounterRef st = 0%Z
  /\ exists m,
       lastMessage (messages st) = Some m
       /\ id m = aiMsgIdOf (messageCounterRef s) now
       /\ role m = model
       /\ isStreaming m = Some true
       /\ getQuickReplies lower (messages st) false = []
       /\ hasMultiQ m = false
       /\ forall latest, showsOptionButtons m latest = false.
Proof.
  cbv zeta.
  assert (N : messages (midExchange txt now evs s) <> []).
  { intros E. pose proof (midExchange_length txt now evs s) as L.
    rewrite E in L. simpl in L. lia. }
  rewrite reload_saved by exact N. cbn [messages setHasStarted setMessages
    isProcessing lastMessageTime messageCounterRef initialState].
  repeat (split; [reflexivity|]).
  destruct (midExchange_placeholder txt now evs s) as (m & Nm & Sh).
  unfold shape in Sh. injection Sh as Hi Hr Hs He.
  assert (L : lastMessage (messages (midExchange txt now evs s)) = Some m).
  { apply (@lastMessage_app_last _ m (List.length (messages s) + 1));
      [rewrite midExchange_length; lia|exact Nm]. }
  exists m. repeat split; try assumption.
  - rewrite getQuickReplies_lastMessage, L. unfold getQuickReplies.
    cbn [List.length Nat.eqb Nat.sub nth_error orb]. rewrite Hs.
    simpl. now rewrite orb_true_r.
  - unfold hasMultiQ. rewrite Hs. simpl. now rewrite andb_false_r.
  - intros latest. unfold showsOptionButtons. rewrite Hs. simpl.
    now rewrite andb_false_r.
Qed.

(** ** Soundness of the matcher *)

Lemma captured_Seq_l (a b : regex) (nv : nat * jsstring) :
  captured a nv -> captured (Seq a b) nv.
Proof.
  intros (c & I & L). exists c. split; [|exact L].
  simpl. apply in_or_app. now left.
Qed.

Lemma captured_Seq_r (a b : regex) (nv : nat * jsstring) :
  captured b nv -> captured (Seq a b) nv.
Proof.
  intros (c & I & L). exists c. split; [|exact L].
  simpl. apply in_or_app. now right.
Qed.

Lemma captured_Alt_l (a b : regex) (nv : nat * jsstring) :
  captured a nv -> captured (Alt a b) nv.
Proof.
  intros (c & I & L). exists c. split; [|exact L].
  simpl. apply in_or_app. now left.
Qed.

Lemma captured_Alt_r (a b : regex) (nv : nat * jsstring) :
  captured b nv -> captured (Alt a b) nv.
Proof.
  intros (c & I & L). exists c. split; [|exact L].
  simpl. apply in_or_app. now right.
Qed.

Lemma reaches_refl (r : regex) (x : mstate) : lang r [] -> reaches r x x.
Proof.
  intros L. exists [], []. repeat split; auto; try (simpl; lia).
Qed.

Lemma reaches_Seq (a b : regex) (x y z : mstate) :
  reaches a x y -> reaches b y z -> reaches (Seq a b) x z.
Proof.
  intros (w1 & n1 & R1 & P1 & L1 & C1 & F1) (w2 & n2 & R2 & P2 & L2 & C2 & F2).
  exists (w1 ++ w2), (n2 ++ n1). repeat split.
  - rewrite R1, R2. now rewrite app_assoc.
  - rewrite P2, P1, length_app. lia.
  - now constructor.
  - rewrite C2, C1. now rewrite app_assoc.
  - apply Forall_app. split.
    + eapply Forall_impl; [|exact F2]. intros nv. apply captured_Seq_r.
    + eapply Forall_impl; [|exact F1]. intros nv. apply captured_Seq_l.
Qed.

(** One more iteration in front of the iterations of a quantifier. *)
Lemma reaches_iter (q a : regex) (x y z : mstate) :
  (forall w1 w2, lang a w1 -> lang q w2 -> lang q (w1 ++ w2)) ->
  groupBodies q = groupBodies a ->
  reaches a x y -> reaches q y z -> reaches q x z.
Proof.
  intros K G (w1 & n1 & R1 & P1 & L1 & C1 & F1)
    (w2 & n2 & R2 & P2 & L2 & C2 & F2).
  exists (w1 ++ w2), (n2 ++ n1). repeat split.
  - rewrite R1, R2. now rewrite app_assoc.
  - rewrite P2, P1, length_app. lia.
  - now apply K.
  - rewrite C2, C1. now rewrite app_assoc.
  - apply Forall_app. split; [exact F2|].
    eapply Forall_impl; [|exact F1].
    intros nv (c & I & L). exists c. split; [|exact L]. now rewrite G.
Qed.

Section LoopSoundness.

Variable a : regex.
Hypothesis sound_a :
  forall x k y, run a x k = Some y ->
                exists z, reaches a x z /\ k z = Some y.

Lemma greedyLoop_sound (k : mstate -> option mstate) (n : nat) :
  forall x y, greedyLoop (run a) k n x = Some y ->
              exists z, reaches (Star a) x z /\ k z = Some y.
Proof.
  induction n as [|n IH]; intros x y H; simpl in H.
  - exists x. split; [apply reaches_refl; constructor|exact H].
  - unfold orElse in H.
    destruct (run a x _) as [v|] eqn:E.
    + injection H as ->. apply sound_a in E. destruct E as (z1 & R1 & E).
      destruct (pos z1 =? pos x)%nat; [discriminate|].
      destruct (IH z1 y E) as (z & R & K). exists z. split; [|exact K].
      apply (@reaches_iter (Star a) a x z1 z); auto.
      intros w1 w2. apply lang_Star_cons.
    + exists x. split; [apply reaches_refl; constructor|exact H].
Qed.

Lemma lazyLoop_sound (k : mstate -> option mstate) (n : nat) :
  forall x y, lazyLoop (run a) k n x = Some y ->
              exists z, reaches (LazyStar a) x z /\ k z = Some y.
Proof.
  induction n as [|n IH]; intros x y H; simpl in H.
  - exists x. split; [apply reaches_refl; constructor|exact H].
  - unfold orElse in H.
    destruct (k x) as [v|] eqn:Kx.
    + injection H as ->. exists x.
      split; [apply reaches_refl; constructor|exact Kx].
    + apply sound_a in H. destruct H as (z1 & R1 & E).
      destruct (pos z1 =? pos x)%nat; [discriminate|].
      destruct (IH z1 y E) as (z & R & K). exists z. split; [|exact K].
      apply (@reaches_iter (LazyStar a) a x z1 z); auto.
      intros w1 w2. apply lang_LazyStar_cons.
Qed.

End LoopSoundness.

(** When the matcher succeeds, its continuation has succeeded in a state
    reached through the pattern. *)
Lemma run_sound (r : regex) :
  forall x k y, run r x k = Some y ->
                exists z, reaches r x z /\ k z = Some y.
Proof.
  induction r as [|p|a IHa b IHb|a IHa b IHb|a IHa|a IHa|n a IHa| |];
    intros x k y H; cbn [run] in H.
  - exists x. split; [apply reaches_refl; constructor|exact H].
  - destruct (rest x) as [|c s] eqn:E; [discriminate|].
    destruct (p c) eqn:Pc; [|discriminate].
    exists (MState (S (pos x)) s (caps x)). split; [|exact H].
    exists [c], []. simpl. repeat split; auto; try lia. now constructor.
  - apply IHa in H. destruct H as (z1 & R1 & H).
    apply IHb in H. destruct H as (z2 & R2 & H).
    exists z2. split; [|exact H]. eapply reaches_Seq; eassumption.
  - unfold orElse in H. destruct (run a x k) as [v|] eqn:E.
    + injection H as ->. apply IHa in E. destruct E as (z & R & E).
      exists z. split; [|exact E].
      destruct R as (w & new & R1 & R2 & R3 & R4 & R5).
      exists w, new. repeat split; auto; [now apply lang_Alt_l|].
      eapply Forall_impl; [|exact R5]. intros nv. apply captured_Alt_l.
    + apply IHb in H. destruct H as (z & R & H).
      exists z. split; [|exact H].
      destruct R as (w & new & R1 & R2 & R3 & R4 & R5).
      exists w, new. repeat split; auto; [now apply lang_Alt_r|].
      eapply Forall_impl; [|exact R5]. intros nv. apply captured_Alt_r.
  - eapply greedyLoop_sound; eassumption.
  - eapply lazyLoop_sound; eassumption.
  - apply IHa in H. destruct H as (z1 & R & H).
    eexists. split; [|exact H].
    destruct R as (w & new & R1 & R2 & R3 & R4 & R5).
    exists w, ((n, w) :: new). cbn [pos rest caps]. repeat split; auto.
    + now constructor.
    + rewrite R4, R2, R1. replace (pos x + List.length w - pos x)
        with (List.length w) by lia.
      rewrite firstn_app, Nat.sub_diag, firstn_all. simpl.
      now rewrite app_nil_r.
    + constructor.
      * exists a. split; [now left|exact R3].
      * eapply Forall_impl; [|exact R5].
        intros nv (c & I & L). exists c. split; [now right|exact L].
  - destruct (pos x =? 0)%nat; [|discriminate].
    exists x. split; [apply reaches_refl; constructor|exact H].
  - destruct (rest x) eqn:E; [|discriminate].
    exists x. split; [apply reaches_refl; constructor|exact H].
Qed.

(** [exec] returns a start index at which the matcher succeeds. *)
Lemma execFrom_run (r : regex) (s : jsstring) :
  forall i j y,
    execFrom r i s = Some (j, y) ->
    exists u t, s = u ++ t /\ j = i + List.length u
                /\ run r (MState j t []) (fun y => Some y) = Some y.
Proof.
  induction s as [|c s IH]; intros i j y H; simpl in H.
  - destruct (run r (MState i [] []) _) as [v|] eqn:E; [|discriminate].
    injection H as <- <-. exists [], []. repeat split; auto; simpl; lia.
  - destruct (run r (MState i (c :: s) []) _) as [v|] eqn:E.
    + injection H as <- <-. exists [], (c :: s).
      repeat split; auto; simpl; lia.
    + apply IH in H. destruct H as (u & t & -> & -> & R).
      exists (c :: u), t. repeat split; auto; simpl; lia.
Qed.

Lemma execFrom_sound (r : regex) (s : jsstring) (i j : nat) (y : mstate) :
  execFrom r i s = Some (j, y) ->
  exists u t, s = u ++ t /\ j = i + List.length u
              /\ reaches r (MState j t []) y.
Proof.
  intros H. apply execFrom_run in H. destruct H as (u & t & E & J & R).
  apply run_sound in R. destruct R as (z & R & Z). injection Z as ->.
  exists u, t. auto.
Qed.

Lemma assoc_In (n : nat) (l : list (nat * jsstring)) (v : jsstring) :
  assoc n l = Some v -> In (n, v) l.
Proof.
  induction l as [|[m w] l IH]; simpl; [discriminate|].
  destruct (Nat.eqb_spec m n) as [->|N].
  - intros H. injection H as ->. now left.
  - intros H. right. now apply IH.
Qed.

(** The two captures of a matched line are strings of the bodies of groups
    1 and 2 of the pattern; for a pattern that begins with [^], the line
    begins with a string that the pattern can consume. *)
Lemma matchGroups_sound (re : regex) (line num body : jsstring) :
  matchGroups re line = Some (num, body) ->
  captured re (1, num) /\ captured re (2, body)
  /\ ((exists r', re = Seq Bol r') ->
      exists w t, line = w ++ t /\ lang re w).
Proof.
  unfold matchGroups, exec.
  destruct (execFrom re 0 line) as [[j y]|] eqn:E; [|discriminate].
  destruct (capture 1 y) as [n1|] eqn:C1; [|discriminate].
  destruct (capture 2 y) as [n2|] eqn:C2; [|discriminate].
  intros H. injection H as -> ->.
  apply execFrom_run in E. destruct E as (u & t & -> & J & Rn).
  pose proof (run_sound _ _ _ Rn) as (z & R & Z). injection Z as ->.
  destruct R as (w & new & R1 & _ & L & Cp & F). cbn [rest caps] in *.
  rewrite app_nil_r in Cp. unfold capture in C1, C2. rewrite Cp in C1, C2.
  rewrite Forall_forall in F. repeat split.
  - apply F. now apply assoc_In.
  - apply F. now apply assoc_In.
  - intros (r' & ->). cbn [run pos] in Rn.
    destruct (Nat.eqb_spec j 0) as [J0|]; [|discriminate].
    destruct u; [|simpl in J; lia].
    exists w, (rest y). now rewrite R1.
Qed.

(** ** The shape of what is extracted *)

Lemma lang_Class_inv (p : char -> bool) (w : jsstring) :
  lang (Class p) w -> exists c, w = [c] /\ p c = true.
Proof. intros H. inversion H; subst. eauto. Qed.

Lemma lang_Star_Class (p : char -> bool) (w : jsstring) :
  lang (Star (Class p)) w -> Forall (fun c => p c = true) w.
Proof.
  intros H. remember (Star (Class p)) as r eqn:E.
  induction H; try discriminate; [constructor|].
  injection E as ->. apply Forall_app. split; [|now apply IHlang2].
  apply lang_Class_inv in H. destruct H as (c & -> & Pc). now repeat constructor.
Qed.

Lemma lang_LazyStar_Class (p : char -> bool) (w : jsstring) :
  lang (LazyStar (Class p)) w -> Forall (fun c => p c = true) w.
Proof.
  intros H. remember (LazyStar (Class p)) as r eqn:E.
  induction H; try discriminate; [constructor|].
  injection E as ->. apply Forall_app. split; [|now apply IHlang2].
  apply lang_Class_inv in H. destruct H as (c & -> & Pc). now repeat constructor.
Qed.

Lemma lang_Seq_inv (a b : regex) (w : jsstring) :
  lang (Seq a b) w -> exists w1 w2, w = w1 ++ w2 /\ lang a w1 /\ lang b w2.
Proof. intros H. inversion H; subst. eauto. Qed.

Lemma lang_Plus_Class (p : char -> bool) (w : jsstring) :
  lang (Plus (Class p)) w ->
  exists c t, w = c :: t /\ p c = true /\ Forall (fun c => p c = true) t.
Proof.
  intros H. apply lang_Seq_inv in H. destruct H as (w1 & w2 & -> & H1 & H2).
  apply lang_Class_inv in H1. destruct H1 as (c & -> & Pc).
  exists c, w2. repeat split; auto. now apply lang_Star_Class.
Qed.

Lemma lang_Opt_Class (p : char -> bool) (w : jsstring) :
  lang (Opt (Class p)) w -> Forall (fun c => p c = true) w.
Proof.
  intros H. inversion H as [| | |a b w' H1| a b w' H1| | | | | | |]; subst.
  - apply lang_Class_inv in H1. destruct H1 as (c & -> & Pc).
    now repeat constructor.
  - inversion H1. constructor.
Qed.

Lemma lang_Group_inv (n : nat) (a : regex) (w : jsstring) :
  lang (Group n a) w -> lang a w.
Proof. intros H. now inversion H; subst. Qed.

(** The part of a line consumed by a pattern with the numbered-line prefix
    is white space and asterisks, then a decimal digit, then the rest. *)
Lemma numbered_prefix (tail : regex) (w : jsstring) :
  lang (Seq Bol (Seq (Star space) (Seq (Opt star) (Seq (Opt star)
         (Seq (Group 1 (Plus digit)) tail))))) w ->
  exists u c t,
    w = u ++ c :: t
    /\ Forall (fun x => isSpace x || isStar x = true) u
    /\ isDigit c = true.
Proof.
  intros H.
  apply lang_Seq_inv in H. destruct H as (w0 & v0 & -> & H0 & H).
  inversion H0; subst. clear H0.
  apply lang_Seq_inv in H. destruct H as (w1 & v1 & -> & H1 & H).
  apply lang_Seq_inv in H. destruct H as (w2 & v2 & -> & H2 & H).
  apply lang_Seq_inv in H. destruct H as (w3 & v3 & -> & H3 & H).
  apply lang_Seq_inv in H. destruct H as (w4 & v4 & -> & H4 & H).
  apply lang_Star_Class in H1. apply lang_Opt_Class in H2, H3.
  apply lang_Group_inv, lang_Plus_Class in H4.
  destruct H4 as (c & t & -> & Dc & _).
  exists (w1 ++ w2 ++ w3), c, (t ++ v4). split.
  - simpl. now rewrite <- !app_assoc.
  - split; [|exact Dc]. rewrite !Forall_app. repeat split.
    + eapply Forall_impl; [|exact H1]. intros x Hx. cbv beta in Hx.
      now rewrite Hx.
    + eapply Forall_impl; [|exact H2]. intros x Hx. cbv beta in Hx.
      unfold isStar. rewrite Hx. apply orb_true_r.
    + eapply Forall_impl; [|exact H3]. intros x Hx. cbv beta in Hx.
      unfold isStar. rewrite Hx. apply orb_true_r.
Qed.

Lemma flat_map_nil {A B} (f : A -> list B) (l : list A) :
  (forall x, In x l -> f x = []) -> flat_map f l = [].
Proof.
  induction l as [|a l IH]; intros H; simpl; [reflexivity|].
  rewrite (H a) by now left. apply IH. intros x I. apply H. now right.
Qed.

Lemma split_In (sep : char) (s : jsstring) (l : jsstring) (c : char) :
  In l (split sep s) -> In c l -> In c s.
Proof.
  revert l; induction s as [|x s IH]; intros l; simpl.
  - intros [<-|[]] [].
  - destruct (x =? sep)%N.
    + intros [<-|I] Hc; [contradiction|]. right. now apply (IH l).
    + destruct (split sep s) as [|l0 ls] eqn:E.
      * intros [<-|[]] [<-|[]]. now left.
      * intros [<-|I] Hc.
        -- destruct Hc as [<-|Hc]; [now left|]. right.
           apply (IH l0); [now left|exact Hc].
        -- right. apply (IH l); [now right|exact Hc].
Qed.

(** Only numbered lines are extracted: a line that gives an option or a
    question begins with white space and asterisks followed by a decimal
    digit.  Hence a text without a decimal digit has no option and no
    question. *)
Theorem only_numbered_lines_are_extracted :
  (forall line,
      optionLabel line <> None \/ questionLabel line <> None ->
      exists u c t,
        line = u ++ c :: t
        /\ Forall (fun x => isSpace x || isStar x = true) u
        /\ isDigit c = true)
  /\ (forall text,
         (forall c, In c text -> isDigit c = false) ->
         parseOptionsFromText text = [] /\ parseMultiQuestions text = []).
Proof.
  assert (A : forall line,
             optionLabel line <> None \/ questionLabel line <> None ->
             exists u c t,
               line = u ++ c :: t
               /\ Forall (fun x => isSpace x || isStar x = true) u
               /\ isDigit c = true).
  { intros line H.
    assert (M : exists re r' num body,
               matchGroups re line = Some (num, body)
               /\ re = Seq Bol (Seq (Star space) (Seq (Opt star) (Seq (Opt star)
                          (Seq (Group 1 (Plus digit)) r'))))).
    { destruct H as [H|H].
      - unfold optionLabel in H.
        destruct (matchGroups optionLineRe line) as [[num body]|] eqn:E;
          [|contradiction].
        exists optionLineRe. do 3 eexists. split; [exact E|reflexivity].
      - unfold questionLabel in H.
        destruct (matchGroups questionLineRe line) as [[num body]|] eqn:E;
          [|contradiction].
        exists questionLineRe. do 3 eexists. split; [exact E|reflexivity]. }
    destruct M as (re & r' & num & body & E & R).
    apply matchGroups_sound in E. destruct E as (_ & _ & E).
    destruct E as (w & t & -> & L); [rewrite R; eexists; reflexivity|].
    rewrite R in L. apply numbered_prefix in L.
    destruct L as (u & c & t' & -> & F & D).
    exists u, c, (t' ++ t). split; [|auto].
    rewrite <- app_assoc. reflexivity. }
  split; [exact A|].
  intros text Nd.
  assert (B : forall line, In line (split newline text) ->
                           optionLabel line = None
                           /\ questionLabel line = None).
  { intros line I.
    assert (N : ~ (optionLabel line <> None \/ questionLabel line <> None)).
    { intros H. destruct (A line H) as (u & c & t & -> & _ & D).
      rewrite (Nd c) in D; [discriminate|].
      apply (@split_In newline text (u ++ c :: t) c I).
      apply in_or_app. right. now left. }
    split.
    - destruct (optionLabel line); [|reflexivity].
      exfalso. apply N. left. discriminate.
    - destruct (questionLabel line); [|reflexivity].
      exfalso. apply N. right. discriminate. }
  rewrite parseOptionsFromText_spec, parseMultiQuestions_spec.
  assert (O : flat_map optionsOfLine (split newline text) = []).
  { apply flat_map_nil. intros l I. unfold optionsOfLine, pushOption.
    now rewrite (proj1 (B l I)). }
  assert (Q : flat_map questionsOfLine (split newline text) = []).
  { apply flat_map_nil. intros l I. unfold questionsOfLine, pushQuestion.
    now rewrite (proj2 (B l I)). }
  rewrite O, Q. split; reflexivity.
Qed.

Lemma only_numbered_lines_witness :
  parseOptionsFromText (str "Here are some programs that might help.") = []
  /\ parseMultiQuestions (str "Here are some programs that might help.") = [].
Proof.
  refine (proj2 only_numbered_lines_are_extracted
            (str "Here are some programs that might help.") _).
  intros c H. cbn in H.
  repeat (destruct H as [<-|H]; [reflexivity|]). contradiction.
Defined.

(** ** Numbers, question marks and asterisks *)

Lemma captured_group1_digits (re : regex) (num : jsstring) :
  (forall a, In (1, a) (groupBodies re) -> a = Plus digit) ->
  captured re (1, num) ->
  exists c t, num = c :: t /\ Forall (fun x => isDigit x = true) (c :: t).
Proof.
  intros G (a & I & L). cbn [fst snd] in I, L.
  pose proof (G a I) as ->. apply lang_Plus_Class in L.
  destruct L as (c & t & -> & Dc & Dt). exists c, t. split; [reflexivity|].
  constructor; assumption.
Qed.

Lemma optionLineRe_group1 (a : regex) :
  In (1, a) (groupBodies optionLineRe) -> a = Plus digit.
Proof.
  simpl. intros [H|[H|[]]]; [now injection H|discriminate].
Qed.

Lemma questionLineRe_group1 (a : regex) :
  In (1, a) (groupBodies questionLineRe) -> a = Plus digit.
Proof.
  simpl. intros [H|[H|[]]]; [now injection H|discriminate].
Qed.

Lemma questionLineRe_group2 (a : regex) :
  In (2, a) (groupBodies questionLineRe) -> a = cat [Plus dot; qmark].
Proof.
  simpl. intros [H|[H|[]]]; [discriminate|now injection H].
Qed.

(** The ids are numbered: the id of an option is [opt-] followed by one or
    more decimal digits, the number at the head of its line, and its value
    begins with the same digits; the id of a question is [q-] followed by
    one or more decimal digits. *)
Theorem extracted_ids_are_numbers (text : jsstring) :
  (forall o, In o (parseOptionsFromText text) ->
     exists num,
       qo_id o = str "opt-" ++ num
       /\ value o = num ++ str ". " ++ label o
       /\ num <> [] /\ Forall (fun x => isDigit x = true) num)
  /\ (forall q, In q (parseMultiQuestions text) ->
        exists num,
          questionId q = str "q-" ++ num
          /\ num <> [] /\ Forall (fun x => isDigit x = true) num).
Proof.
  split.
  - intros o H. rewrite parseOptionsFromText_spec in H.
    apply In_firstn in H. apply in_flat_map in H. destruct H as (line & _ & H).
    destruct (@optionsOfLine_cases line o H) as (num & E & Eo & _).
    unfold optionLabel in E.
    destruct (matchGroups optionLineRe line) as [[n b]|] eqn:M;
      [|discriminate].
    injection E as -> _. apply matchGroups_sound in M.
    destruct M as (C1 & _).
    destruct (@captured_group1_digits optionLineRe num optionLineRe_group1 C1)
      as (c & t & -> & D).
    exists (c :: t). rewrite Eo at 1 2. repeat split; [discriminate|exact D].
  - intros q H. rewrite parseMultiQuestions_spec in H.
    apply In_firstn in H. apply in_flat_map in H. destruct H as (line & _ & H).
    destruct (@questionsOfLine_cases line q H) as (num & E & Eq & _).
    unfold questionLabel in E.
    destruct (matchGroups questionLineRe line) as [[n b]|] eqn:M;
      [|discriminate].
    injection E as -> _. apply matchGroups_sound in M.
    destruct M as (C1 & _).
    destruct (@captured_group1_digits questionLineRe num
                questionLineRe_group1 C1) as (c & t & -> & D).
    exists (c :: t). rewrite Eq at 1. repeat split; [discriminate|exact D].
Qed.

Lemma extracted_ids_witness :
  exists num,
    str "opt-1" = str "opt-" ++ num
    /\ str "1. Hey" = num ++ str ". " ++ str "Hey"
    /\ num <> [] /\ Forall (fun x => isDigit x = true) num.
Proof.
  refine (proj1 (@extracted_ids_are_numbers (str "1. Hey"))
            {| qo_id := str "opt-1"; label := str "Hey";
               value := str "1. Hey" |} _).
  vm_compute. left. reflexivity.
Defined.

(** *** Removal of the pairs of asterisks *)

Lemma stripBold_step (c1 c2 : char) (t : jsstring) :
  stripBold (c1 :: c2 :: t)
  = if isStar c1 && isStar c2 then stripBold t
    else c1 :: stripBold (c2 :: t).
Proof. reflexivity. Qed.

Lemma run_boldRe (i : nat) (s : jsstring) :
  run boldRe (MState i s []) (fun y => Some y)
  = match s with
    | c1 :: c2 :: t =>
        if isStar c1 && isStar c2 then Some (MState (S (S i)) t []) else None
    | _ => None
    end.
Proof.
  unfold boldRe, cat, star, isStar. cbn [fold_right run rest pos caps].
  destruct s as [|c1 [|c2 t]]; [reflexivity| |].
  - destruct (lit "*" c1); reflexivity.
  - destruct (lit "*" c1); [|reflexivity].
    destruct (lit "*" c2); reflexivity.
Qed.

Lemma execFrom_boldRe (s : jsstring) :
  forall i,
    match execFrom boldRe i s with
    | None => stripBold s = s
    | Some (j, y) =>
        exists u c1 c2 t,
          s = u ++ c1 :: c2 :: t /\ j = i + List.length u
          /\ pos y = S (S j) /\ rest y = t
          /\ stripBold s = u ++ stripBold t
    end.
Proof.
  induction s as [|c1 s IH]; intros i.
  - cbn [execFrom]. rewrite run_boldRe. reflexivity.
  - cbn [execFrom]. rewrite run_boldRe. destruct s as [|c2 t].
    + cbn [execFrom]. rewrite run_boldRe. reflexivity.
    + destruct (isStar c1 && isStar c2) eqn:B.
      * exists [], c1, c2, t. rewrite stripBold_step, B.
        repeat split. simpl. lia.
      * specialize (IH (S i)).
        destruct (execFrom boldRe (S i) (c2 :: t)) as [[j y]|].
        -- destruct IH as (u & d1 & d2 & t' & E & J & P & R & S').
           exists (c1 :: u), d1, d2, t'. repeat split; auto.
           ++ simpl. now rewrite E.
           ++ simpl. lia.
           ++ rewrite stripBold_step, B. cbn [app]. now rewrite <- S'.
        -- rewrite stripBold_step, B. now rewrite IH.
Qed.

Lemma replaceAllFrom_boldRe (fuel : nat) :
  forall s i, List.length s < fuel ->
              replaceAllFrom fuel boldRe [] i s = stripBold s.
Proof.
  induction fuel as [|fuel IH]; intros s i L; [lia|].
  cbn [replaceAllFrom]. pose proof (execFrom_boldRe s i) as E.
  destruct (execFrom boldRe i s) as [[j y]|]; [|now symmetry].
  destruct E as (u & c1 & c2 & t & -> & -> & P & R & S').
  rewrite P, R, S'.
  replace (S (S (i + List.length u)) =? i + List.length u)%nat with false
    by (symmetry; apply Nat.eqb_neq; lia).
  replace (i + List.length u - i) with (List.length u) by lia.
  rewrite firstn_app, Nat.sub_diag, firstn_all. simpl.
  rewrite app_nil_r. f_equal. apply IH.
  rewrite length_app in L. simpl in L. lia.
Qed.

(** The global replacement of the pattern for two asterisks is
    [stripBold]. *)
Lemma replaceAll_boldRe (s : jsstring) :
  replaceAll boldRe [] s = stripBold s.
Proof. unfold replaceAll. apply replaceAllFrom_boldRe. lia. Qed.

Lemma stripBold_nonstar (c : char) (t : jsstring) :
  isStar c = false -> stripBold (c :: t) = c :: stripBold t.
Proof.
  intros H. destruct t as [|c2 t]; [reflexivity|].
  now rewrite stripBold_step, H.
Qed.

(** Induction in steps of one and two code units. *)
Lemma two_step_ind (P : jsstring -> Prop) :
  P [] -> (forall c, P [c]) ->
  (forall c1 c2 t, P t -> P (c2 :: t) -> P (c1 :: c2 :: t)) ->
  forall s, P s.
Proof.
  intros P0 P1 P2 s.
  assert (H : P s /\ forall c, P (c :: s)); [|apply H].
  induction s as [|c s [IH1 IH2]]; [split; auto|].
  split; [apply IH2|]. intros c0. apply P2; auto.
Qed.

Lemma stripBold_snoc (u : jsstring) (c : char) :
  isStar c = false -> stripBold (u ++ [c]) = stripBold u ++ [c].
Proof.
  intros H. induction u as [| a | c1 c2 t IH1 IH2] using two_step_ind.
  - reflexivity.
  - cbn [app]. rewrite stripBold_step, H, andb_false_r. reflexivity.
  - change ((c1 :: c2 :: t) ++ [c]) with (c1 :: c2 :: (t ++ [c])).
    rewrite !stripBold_step. destruct (isStar c1 && isStar c2); [exact IH1|].
    change (c2 :: t ++ [c]) with ((c2 :: t) ++ [c]). now rewrite IH2.
Qed.

Lemma isStar_42 (c : char) : (42 =? c)%N = isStar c.
Proof. unfold isStar, lit. apply N.eqb_sym. Qed.

(** Nothing that [stripBold] returns has two asterisks in a row. *)
Lemma stripBold_noBold (s : jsstring) : noBold (stripBold s).
Proof.
  unfold noBold. induction s as [| a | c1 c2 t IH1 IH2] using two_step_ind.
  - reflexivity.
  - cbn. now rewrite andb_false_r.
  - rewrite stripBold_step.
    destruct (isStar c1 && isStar c2) eqn:B; [exact IH1|].
    cbn [includes]. rewrite IH2, orb_false_r.
    change (str "**") with [42%N; 42%N]. cbn [startsWith].
    rewrite isStar_42. destruct (isStar c1) eqn:S1; [|reflexivity].
    simpl in B. rewrite (@stripBold_nonstar c2 t B). cbn [startsWith].
    rewrite isStar_42, B. reflexivity.
Qed.

Lemma trimStart_suffix (s : jsstring) : exists a, s = a ++ trimStart s.
Proof.
  induction s as [|c s (a & IH)]; [exists []; reflexivity|]. simpl.
  destruct (isSpace c); [|exists []; reflexivity].
  exists (c :: a). simpl. now rewrite <- IH.
Qed.

Lemma trimEnd_prefix (s : jsstring) : exists b, s = trimEnd s ++ b.
Proof.
  unfold trimEnd. destruct (trimStart_suffix (rev s)) as (a & E).
  exists (rev a). rewrite <- rev_app_distr, <- E. now rewrite rev_involutive.
Qed.

Lemma noBold_prefix (a b : jsstring) : noBold (a ++ b) -> noBold a.
Proof.
  unfold noBold. intros H. destruct (includes a (str "**")) eqn:E;
    [|reflexivity].
  rewrite (@includes_app_l a b _ E) in H. discriminate.
Qed.

Lemma noBold_suffix (a b : jsstring) : noBold (a ++ b) -> noBold b.
Proof.
  unfold noBold. intros H. destruct (includes b (str "**")) eqn:E;
    [|reflexivity].
  rewrite (@includes_app_r a b _ E) in H. discriminate.
Qed.

Lemma noBold_trim (s : jsstring) : noBold s -> noBold (trim s).
Proof.
  intros H. unfold trim.
  destruct (trimStart_suffix s) as (a & Ea).
  destruct (trimEnd_prefix (trimStart s)) as (b & Eb).
  rewrite Ea in H. apply noBold_suffix in H. rewrite Eb in H.
  now apply noBold_prefix in H.
Qed.

Lemma run_Seq_sound (a b : regex) (x : mstate)
  (k : mstate -> option mstate) (y : mstate) :
  run (Seq a b) x k = Some y ->
  exists z, reaches a x z /\ run b z k = Some y.
Proof. cbn [run]. apply run_sound. Qed.

(** The removal of the trailing dash or colon keeps a prefix. *)
Lemma replaceFirst_trailerRe_prefix (s : jsstring) :
  exists i, replaceFirst trailerRe [] s = firstn i s.
Proof.
  unfold replaceFirst, exec.
  destruct (execFrom trailerRe 0 s) as [[i y]|] eqn:E.
  - exists i. apply execFrom_run in E. destruct E as (u & t & _ & _ & R).
    unfold trailerRe, cat in R. cbn [fold_right] in R.
    apply run_Seq_sound in R. destruct R as (z1 & _ & R).
    apply run_Seq_sound in R. destruct R as (z2 & _ & R).
    apply run_Seq_sound in R. destruct R as (z3 & _ & R).
    cbn [run] in R. destruct (rest z3) eqn:Z; [|discriminate].
    injection R as <-. rewrite Z. now rewrite !app_nil_r.
  - exists (List.length s). now rewrite firstn_all.
Qed.

(** No option label and no question text has two asterisks in a row: the
    bold markers of the answer never show on a button or in a question. *)
Theorem extracted_texts_have_no_bold_marker (text : jsstring) :
  (forall o, In o (parseOptionsFromText text) -> noBold (label o))
  /\ (forall q, In q (parseMultiQuestions text) -> noBold (questionText q)).
Proof.
  split.
  - intros o H. rewrite parseOptionsFromText_spec in H.
    apply In_firstn in H. apply in_flat_map in H. destruct H as (line & _ & H).
    destruct (@optionsOfLine_cases line o H) as (num & E & _ & _).
    unfold optionLabel in E.
    destruct (matchGroups optionLineRe line) as [[n b]|]; [|discriminate].
    injection E as _ <-. apply noBold_trim.
    destruct (replaceFirst_trailerRe_prefix (replaceAll boldRe [] (trim b)))
      as (i & ->).
    rewrite replaceAll_boldRe.
    apply (@noBold_prefix _ (skipn i (stripBold (trim b)))).
    rewrite firstn_skipn. apply stripBold_noBold.
  - intros q H. rewrite parseMultiQuestions_spec in H.
    apply In_firstn in H. apply in_flat_map in H. destruct H as (line & _ & H).
    destruct (@questionsOfLine_cases line q H) as (num & E & _ & _).
    unfold questionLabel in E.
    destruct (matchGroups questionLineRe line) as [[n b]|]; [|discriminate].
    injection E as _ <-. apply noBold_trim.
    rewrite replaceAll_boldRe. apply stripBold_noBold.
Qed.

Lemma extracted_texts_no_bold_witness :
  noBold (str "Do you rent?").
Proof.
  refine (proj2 (@extracted_texts_have_no_bold_marker
                   (str "1. **Do you** rent?"))
            (mkQuestion (str "1") (str "Do you rent?")) _).
  vm_compute. left. reflexivity.
Defined.

(** ** The label of an option *)

(** What the removal of the trailing dash or colon removes: nothing, or
    white space, one dash, en dash or colon, and white space, at the end. *)
Lemma replaceFirst_trailerRe_cases (s : jsstring) :
  replaceFirst trailerRe [] s = s
  \/ exists sp1 d sp2,
       s = replaceFirst trailerRe [] s ++ sp1 ++ [d] ++ sp2
       /\ Forall (fun c => isSpace c = true) sp1
       /\ isDash d = true
       /\ Forall (fun c => isSpace c = true) sp2.
Proof.
  unfold replaceFirst, exec.
  destruct (execFrom trailerRe 0 s) as [[i y]|] eqn:E; [|now left].
  right. apply execFrom_run in E. destruct E as (u & t & -> & -> & R).
  unfold trailerRe, cat in R. cbn [fold_right] in R.
  apply run_Seq_sound in R. destruct R as (z1 & R1 & R).
  apply run_Seq_sound in R. destruct R as (z2 & R2 & R).
  apply run_Seq_sound in R. destruct R as (z3 & R3 & R).
  cbn [run] in R. destruct (rest z3) eqn:Z; [|discriminate].
  injection R as <-. rewrite Z.
  destruct R1 as (w1 & _ & E1 & _ & L1 & _).
  destruct R2 as (w2 & _ & E2 & _ & L2 & _).
  destruct R3 as (w3 & _ & E3 & _ & L3 & _).
  cbn [rest] in E1. rewrite Z, app_nil_r in E3.
  apply lang_Star_Class in L1. apply lang_Star_Class in L3.
  apply lang_Class_inv in L2. destruct L2 as (d & -> & D).
  exists w1, d, w3. cbn [Nat.add].
  rewrite firstn_app, firstn_all, Nat.sub_diag. cbn [firstn].
  rewrite !app_nil_r. repeat split; try assumption.
  now rewrite E1, E2, E3.
Qed.

(** C3.  [parseOptionsFromText] on the two-grant example returns the two
    options with ids [opt-1] and [opt-2].  The bounds are on the cleaned
    label, which is the capture of the line trimmed, without its pairs of
    asterisks, without one trailing dash or colon, and trimmed again: a
    matched line whose cleaned label has fewer than 3 or at least 100 code
    units gives no option, one whose cleaned label has between 3 and 99
    gives its option.  So "1. Hi" and "1. **Hi**", whose capture has four
    code units, give none, "1. Hey" and "1. **Hey**" give the option "Hey",
    a label of 99 code units is accepted and one of 100 is not.  The result
    is the first six options of the lines in document order. *)
Theorem parseOptionsFromText_examples_and_bounds :
  parseOptionsFromText twoGrants
  = [ {| qo_id := str "opt-1"; label := str "Apply for housing grant";
         value := str "1. Apply for housing grant" |};
      {| qo_id := str "opt-2"; label := str "Apply for medical grant";
         value := str "2. Apply for medical grant" |} ]
  /\ optionLabel (str "1. Hi") = Some (str "1", str "Hi")
  /\ parseOptionsFromText (str "1. Hi") = []
  /\ parseOptionsFromText (str "1. Hey")
     = [ {| qo_id := str "opt-1"; label := str "Hey";
            value := str "1. Hey" |} ]
  /\ (matchGroups optionLineRe (str "1. **Hi**") = Some (str "1", str "Hi**")
      /\ optionLabel (str "1. **Hi**") = Some (str "1", str "Hi")
      /\ parseOptionsFromText (str "1. **Hi**") = []
      /\ parseOptionsFromText (str "1. **Hey**")
         = [ {| qo_id := str "opt-1"; label := str "Hey";
                value := str "1. Hey" |} ]
      /\ parseOptionsFromText (str "3.   Hey  ")
         = [ {| qo_id := str "opt-3"; label := str "Hey";
                value := str "3. Hey" |} ]
      /\ parseOptionsFromText (str "2. **Housing grant** - help with rent")
         = [ {| qo_id := str "opt-2"; label := str "Housing grant";
                value := str "2. Housing grant" |} ]
      /\ parseOptionsFromText (str "1. " ++ repeat 97%N 99)
         = [ {| qo_id := str "opt-1"; label := repeat 97%N 99;
                value := str "1. " ++ repeat 97%N 99 |} ]
      /\ parseOptionsFromText (str "1. " ++ repeat 97%N 100) = [])
  /\ (forall line num lbl : jsstring,
         optionLabel line = Some (num, lbl) ->
         (exists body,
             matchGroups optionLineRe line = Some (num, body)
             /\ (lbl = trim (stripBold (trim body))
                 \/ exists kept sp1 d sp2,
                      stripBold (trim body) = kept ++ sp1 ++ [d] ++ sp2
                      /\ Forall (fun c => isSpace c = true) sp1
                      /\ isDash d = true
                      /\ Forall (fun c => isSpace c = true) sp2
                      /\ lbl = trim kept))
         /\ noBold lbl
         /\ trimmed lbl
         /\ (List.length lbl < 3 \/ 100 <= List.length lbl ->
             optionsOfLine line = [])
         /\ (3 <= List.length lbl < 100 ->
             optionsOfLine line = [mkOption num lbl]))
  /\ (forall text : jsstring,
         parseOptionsFromText text
         = firstn 6 (flat_map optionsOfLine (split newline text))
         /\ List.length (parseOptionsFromText text) <= 6).
Proof.
  split; [vm_compute; reflexivity|]. split; [vm_compute; reflexivity|].
  split; [vm_compute; reflexivity|]. split; [vm_compute; reflexivity|].
  split; [vm_compute; repeat split|]. split.
  - intros line num lbl H.
    assert (C : exists body,
               matchGroups optionLineRe line = Some (num, body)
               /\ lbl = trim (replaceFirst trailerRe []
                                (stripBold (trim body)))).
    { unfold optionLabel in H.
      destruct (matchGroups optionLineRe line) as [[n b]|]; [|discriminate].
      cbv zeta in H. rewrite replaceAll_boldRe in H.
      injection H as -> <-. now exists b. }
    destruct C as (body & M & L). split; [|split; [|split; [|split]]].
    + exists body. split; [exact M|].
      destruct (replaceFirst_trailerRe_cases (stripBold (trim body)))
        as [E|(sp1 & d & sp2 & E & S1 & D & S2)].
      * left. now rewrite L, E.
      * right. exists (replaceFirst trailerRe [] (stripBold (trim body))),
          sp1, d, sp2. auto.
    + rewrite L. apply noBold_trim.
      destruct (replaceFirst_trailerRe_prefix (stripBold (trim body)))
        as (i & ->).
      apply (@noBold_prefix _ (skipn i (stripBold (trim body)))).
      rewrite firstn_skipn. apply stripBold_noBold.
    + rewrite L. apply trim_trimmed.
    + rewrite (optionsOfLine_label _ H). intros [B|B].
      * replace (3 <=? List.length lbl)%nat with false; [reflexivity|].
        symmetry. apply Nat.leb_gt. exact B.
      * replace (List.length lbl <? 100)%nat with false;
          [now rewrite andb_false_r|].
        symmetry. apply Nat.ltb_ge. exact B.
    + rewrite (optionsOfLine_label _ H). intros [B1 B2].
      apply Nat.leb_le in B1. apply Nat.ltb_lt in B2.
      now rewrite B1, B2.
  - intros text. rewrite parseOptionsFromText_spec. split; [reflexivity|].
    apply firstn_le_length.
Qed.

Lemma parseOptionsFromText_bounds_witness :
  (noBold (str "Hi") /\ optionsOfLine (str "1. **Hi**") = [])
  /\ optionsOfLine (str "1. **Hey**") = [mkOption (str "1") (str "Hey")].
Proof.
  pose proof (proj1 (proj2 (proj2 (proj2 (proj2 (proj2
    parseOptionsFromText_examples_and_bounds)))))) as H.
  split; [split|].
  - apply (H (str "1. **Hi**") (str "1") (str "Hi")).
    vm_compute. reflexivity.
  - apply (H (str "1. **Hi**") (str "1") (str "Hi")).
    + vm_compute. reflexivity.
    + left. simpl. lia.
  - apply (H (str "1. **Hey**") (str "1") (str "Hey")).
    + vm_compute. reflexivity.
    + simpl. lia.
Defined.

Lemma trim_snoc (u : jsstring) (c : char) :
  isSpace c = false -> trim (u ++ [c]) = trimStart u ++ [c].
Proof.
  intros H. unfold trim. rewrite (@trimStart_snoc u c H).
  unfold trimEnd. rewrite rev_app_distr. cbn [rev app].
  cbn [trimStart]. rewrite H. cbn [rev]. now rewrite rev_involutive.
Qed.

(** Every question text ends with a question mark. *)
Theorem question_texts_end_with_question_mark
  (text : jsstring) (q : QuestionAnswer) :
  In q (parseMultiQuestions text) ->
  exists u, questionText q = u ++ str "?".
Proof.
  intros H. rewrite parseMultiQuestions_spec in H.
  apply In_firstn in H. apply in_flat_map in H. destruct H as (line & _ & H).
  destruct (@questionsOfLine_cases line q H) as (num & E & _ & _).
  unfold questionLabel in E.
  destruct (matchGroups questionLineRe line) as [[n b]|] eqn:M;
    [|discriminate].
  injection E as _ <-. apply matchGroups_sound in M.
  destruct M as (_ & (a & I & L) & _).
  cbn [fst snd] in I, L. pose proof (@questionLineRe_group2 a I) as ->.
  unfold cat in L. cbn [fold_right] in L.
  apply lang_Seq_inv in L. destruct L as (w1 & w2 & -> & _ & L).
  apply lang_Seq_inv in L. destruct L as (w3 & w4 & -> & L & L4).
  apply lang_Class_inv in L. destruct L as (c & -> & Q).
  inversion L4; subst. clear L4.
  unfold lit in Q. apply N.eqb_eq in Q.
  assert (Hs : isSpace c = false) by (rewrite Q; reflexivity).
  assert (Hb : isStar c = false) by (rewrite Q; reflexivity).
  cbn [app]. rewrite (@trim_snoc w1 c Hs), replaceAll_boldRe.
  rewrite (@stripBold_snoc (trimStart w1) c Hb).
  rewrite (@trim_snoc (stripBold (trimStart w1)) c Hs).
  rewrite Q. eexists. reflexivity.
Qed.

Lemma question_texts_witness :
  exists u, str "Do you rent your home?" = u ++ str "?".
Proof.
  refine (@question_texts_end_with_question_mark rentLine
            (mkQuestion (str "1") (str "Do you rent your home?")) _).
  vm_compute. left. reflexivity.
Defined.

Lemma reaches_rest (r : regex) (x z : mstate) :
  reaches r x z -> exists w, rest x = w ++ rest z /\ lang r w.
Proof. intros (w & new & R & _ & L & _). exists w. auto. Qed.

(** A line is a question only if a question mark is its last code unit,
    white space aside; so a line that ends otherwise, for instance with the
    asterisks that close a bold question, gives no question. *)
Theorem question_lines_end_with_question_mark (line : jsstring) :
  (questionLabel line <> None ->
   exists v sp,
     line = v ++ str "?" ++ sp /\ Forall (fun c => isSpace c = true) sp)
  /\ (forall v c,
         line = v ++ [c] -> isSpace c = false -> c <> 63%N ->
         questionLabel line = None /\ questionsOfLine line = []).
Proof.
  assert (A : questionLabel line <> None ->
              exists v sp,
                line = v ++ str "?" ++ sp
                /\ Forall (fun c => isSpace c = true) sp).
  { intros H. unfold questionLabel, matchGroups, exec in H.
    destruct (execFrom questionLineRe 0 line) as [[j y]|] eqn:E;
      [|contradiction]. clear H.
    apply execFrom_run in E. destruct E as (u & t & -> & J & R).
    unfold questionLineRe, cat in R. cbn [fold_right] in R.
    assert (J0 : j = 0).
    { cbn [run pos] in R. destruct (Nat.eqb_spec j 0); [assumption|].
      discriminate. }
    destruct u; [|simpl in J; lia]. cbn [app].
    change t with (rest (MState j t [])). generalize dependent (MState j t []).
    intros x0 R.
    repeat match type of R with
           | run (Seq _ (Seq _ _)) ?x _ = Some _ =>
               let z := fresh "z" in
               let Rz := fresh "Rz" in
               let w := fresh "w" in
               apply run_Seq_sound in R; destruct R as (z & Rz & R);
               apply reaches_rest in Rz; destruct Rz as (w & -> & Rz)
           end.
    cbn [run] in R. destruct (rest z9) eqn:Z; [|discriminate].
    apply lang_Star_Class in Rz9. apply lang_Group_inv in Rz8.
    apply lang_Seq_inv in Rz8. destruct Rz8 as (b1 & b2 & -> & _ & L).
    apply lang_Seq_inv in L. destruct L as (b3 & b4 & -> & L & L4).
    apply lang_Class_inv in L. destruct L as (c & -> & Q).
    inversion L4; subst. unfold lit in Q. apply N.eqb_eq in Q. subst c.
    exists (w ++ w0 ++ w1 ++ w2 ++ w3 ++ w4 ++ w5 ++ w6 ++ w7 ++ b1), w9.
    split; [|exact Rz9].
    rewrite !app_nil_r, <- !app_assoc. reflexivity. }
  split; [exact A|].
  intros v c E S Q.
  assert (N : questionLabel line = None).
  { destruct (questionLabel line) eqn:L; [|reflexivity]. exfalso.
    destruct A as (v' & sp & E' & F); [discriminate|].
    rewrite E in E'. apply (f_equal (@rev _)) in E'.
    rewrite !rev_app_distr in E'. cbn [rev app] in E'.
    destruct (rev sp) as [|c' r] eqn:Er.
    - cbn [app] in E'. injection E' as E' _. contradiction.
    - cbn [app] in E'. injection E' as E' _. subst c'.
      rewrite Forall_forall in F. rewrite (F c) in S; [discriminate|].
      apply in_rev. rewrite Er. now left. }
  split; [exact N|]. unfold questionsOfLine, pushQuestion. now rewrite N.
Qed.

Lemma question_lines_witness :
  questionLabel (str "1. **Do you rent your home?**") = None
  /\ questionsOfLine (str "1. **Do you rent your home?**") = [].
Proof.
  refine (proj2 (@question_lines_end_with_question_mark
                   (str "1. **Do you rent your home?**"))
            (str "1. **Do you rent your home?*") 42%N eq_refl eq_refl _).
  discriminate.
Defined.

Lemma run_Seq_Alt (a b c : regex) (x : mstate)
  (k : mstate -> option mstate) (y : mstate) :
  run (Seq (Alt a b) c) x k = Some y ->
  run a x (fun z => run c z k) = Some y
  \/ run b x (fun z => run c z k) = Some y.
Proof.
  cbn [run]. unfold orElse. destruct (run a x _); auto.
Qed.

(** A line is an option only if it has a dash, an en dash or a colon, or
    ends with a code unit that is not a line terminator.  So a numbered
    line that ends with a carriage return, as the lines of a text with CR LF
    line breaks do, and has none of the three, gives no option. *)
Theorem option_lines_need_trailer_or_plain_end (line : jsstring) :
  (optionLabel line <> None ->
   (exists d, In d line /\ isDash d = true)
   \/ (exists v c, line = v ++ [c] /\ isLineTerminator c = false))
  /\ (forall v,
         line = v ++ [13%N] ->
         (forall d, In d line -> isDash d = false) ->
         optionLabel line = None /\ optionsOfLine line = []).
Proof.
  assert (A : optionLabel line <> None ->
              (exists d, In d line /\ isDash d = true)
              \/ (exists v c, line = v ++ [c]
                              /\ isLineTerminator c = false)).
  { intros H. unfold optionLabel, matchGroups, exec in H.
    destruct (execFrom optionLineRe 0 line) as [[j y]|] eqn:E;
      [|contradiction]. clear H.
    apply execFrom_run in E. destruct E as (u & t & -> & J & R).
    unfold optionLineRe, cat in R. cbn [fold_right] in R.
    assert (J0 : j = 0).
    { cbn [run pos] in R. destruct (Nat.eqb_spec j 0); [assumption|].
      discriminate. }
    destruct u; [|simpl in J; lia]. cbn [app].
    change t with (rest (MState j t [])). generalize dependent (MState j t []).
    intros x0 R.
    repeat match type of R with
           | run (Seq _ (Seq _ _)) ?x _ = Some _ =>
               let z := fresh "z" in
               let Rz := fresh "Rz" in
               let w := fresh "w" in
               apply run_Seq_sound in R; destruct R as (z & Rz & R);
               apply reaches_rest in Rz; destruct Rz as (w & -> & Rz)
           end.
    apply run_Seq_Alt in R. destruct R as [R|R].
    - left. apply run_sound in R. destruct R as (z' & Rz' & _).
      apply reaches_rest in Rz'. destruct Rz' as (wa & -> & La).
      apply lang_Seq_inv in La. destruct La as (a1 & a1' & -> & _ & La).
      apply lang_Seq_inv in La. destruct La as (a2 & a2' & -> & _ & La).
      apply lang_Seq_inv in La. destruct La as (a3 & a3' & -> & _ & La).
      apply lang_Seq_inv in La. destruct La as (a4 & a4' & -> & La & _).
      apply lang_Class_inv in La. destruct La as (d & -> & D).
      exists d. split; [|exact D].
      rewrite !in_app_iff. cbn [In]. intuition.
    - right. cbn [run] in R. destruct (rest z8) eqn:Z; [|discriminate].
      apply lang_Group_inv in Rz8.
      apply lang_Seq_inv in Rz8. destruct Rz8 as (b1 & b2 & -> & L1 & L2).
      apply lang_Class_inv in L1. destruct L1 as (c & -> & Dc).
      apply lang_LazyStar_Class in L2.
      destruct (@exists_last _ ([c] ++ b2)) as (v & c' & E);
        [discriminate|].
      assert (F : Forall (fun c0 => negb (isLineTerminator c0) = true)
                    ([c] ++ b2)) by (constructor; assumption).
      rewrite E in *. apply Forall_app in F. destruct F as [_ F].
      inversion F as [|? ? Hc' _]; subst.
      exists (w ++ w0 ++ w1 ++ w2 ++ w3 ++ w4 ++ w5 ++ w6 ++ w7 ++ v), c'.
      split; [|now apply negb_true_iff].
      rewrite !app_nil_r, <- !app_assoc. reflexivity. }
  split; [exact A|].
  intros v E Nd.
  assert (N : optionLabel line = None).
  { destruct (optionLabel line) eqn:L; [|reflexivity]. exfalso.
    destruct A as [(d & I & D)|(v' & c & E' & T)]; [discriminate| |].
    - rewrite (Nd d I) in D. discriminate.
    - rewrite E in E'. apply app_inj_tail in E'. destruct E' as [_ <-].
      discriminate T. }
  split; [exact N|]. unfold optionsOfLine, pushOption. now rewrite N.
Qed.

Lemma option_lines_witness :
  optionLabel (str "1. Apply for housing grant" ++ [13%N]) = None
  /\ optionsOfLine (str "1. Apply for housing grant" ++ [13%N]) = [].
Proof.
  refine (proj2 (@option_lines_need_trailer_or_plain_end
                   (str "1. Apply for housing grant" ++ [13%N]))
            (str "1. Apply for housing grant") eq_refl _).
  intros d H. cbn in H.
  repeat (destruct H as [<-|H]; [reflexivity|]). contradiction.
Defined.

(** ** An option, clicked and sent *)

(** A click on an extracted option followed by [handleSend] is always a
    submission of the value of the option: for any option that
    [parseOptionsFromText] returns, on a component that is not processing,
    the click puts the value in the input, and the send, when it is not
    within 1000 ms of the last accepted submission, appends the user message
    with that value and hands the value to the service.  The empty-text
    guard never drops it. *)
Theorem option_click_then_send (text : jsstring) (o : QuickOption)
  (s : State) (now : Z) (remote : Remote) :
  In o (parseOptionsFromText text) ->
  isProcessing s = false ->
  (MIN_MESSAGE_INTERVAL <= now - lastMessageTime s)%Z ->
  let s1 := handleOptionClick o s in
  let s2 := handleSend now remote s1 in
  inputText s1 = value o
  /\ nth_error (messages s2) (List.length (messages s))
     = Some (userMessageOf (messageCounterRef s) now (value o))
  /\ remoteRequests s2 = remoteRequests s ++ [value o]
  /\ List.length (messages s2) = List.length (messages s) + 2.
Proof.
  intros H P I s1 s2.
  assert (E1 : s1 = setInputText (value o) s)
    by (subst s1; unfold handleOptionClick; now rewrite P).
  assert (T : truthy (trim (inputText s1)) = true).
  { rewrite E1. cbn [inputText setInputText].
    rewrite parseOptionsFromText_spec in H. apply In_firstn in H.
    apply in_flat_map in H. destruct H as (line & _ & H).
    exact (@optionsOfLine_value_not_blank line o H). }
  assert (E2 : s2 = tryStream (aiMsgIdOf (messageCounterRef s1) now)
                      (inputText s1) remote (enqueue (inputText s1) now s1)).
  { subst s2. apply handleSend_accepted;
      [exact T | rewrite E1; exact P | rewrite E1; exact I]. }
  split; [now rewrite E1|]. rewrite E2, E1.
  cbn [inputText setInputText messageCounterRef]. split; [|split].
  - apply tryStream_keeps_other; [|apply userMsgId_neq_aiMsgId].
    unfold enqueue. cbn [messages setMessages setError setIsProcessing
                           setInputText setMessageCounter setLastMessageTime
                           messageCounterRef].
    rewrite nth_error_app1 by (rewrite length_app; simpl; lia).
    rewrite nth_error_app2 by lia. now rewrite Nat.sub_diag.
  - rewrite tryStream_requests. reflexivity.
  - rewrite tryStream_length, enqueue_length. reflexivity.
Qed.

Lemma option_click_then_send_witness :
  let o := {| qo_id := str "opt-1"; label := str "Hey";
              value := str "1. Hey" |} in
  let s1 := handleOptionClick o (freshState []) in
  let s2 := handleSend 5000 oneChunk s1 in
  inputText s1 = str "1. Hey"
  /\ nth_error (messages s2) 0 = Some (userMessageOf 0 5000 (str "1. Hey"))
  /\ remoteRequests s2 = [str "1. Hey"]
  /\ List.length (messages s2) = 2.
Proof.
  refine (@option_click_then_send (str "1. Hey")
            {| qo_id := str "opt-1"; label := str "Hey";
               value := str "1. Hey" |}
            (freshState []) 5000 oneChunk _ eq_refl _).
  - vm_compute. left. reflexivity.
  - vm_compute. discriminate.
Defined.

(** ** "Edit" pressed while the answer streams *)

Lemma settle_after_stream (aiMsgId userText : jsstring) (remote : Remote)
  (s : State) :
  tryStream aiMsgId userText remote s
  = settle aiMsgId (option_map rethrow (failure remote))
      (snd (deliver aiMsgId (events remote)
              ({| accumulatedText := []; accumulatedGrounding := [] |},
               logRequest userText s))).
Proof.
  unfold tryStream, sendMessageStream, settle. cbn [fst snd].
  destruct (deliver aiMsgId (events remote) _) as [acc1 s1].
  destruct (failure remote); reflexivity.
Qed.

(** A click that does nothing gives the exchange of [handleSend]. *)
Lemma exchangeWithClick_idle (userText : jsstring) (now : Z)
  (cs1 cs2 : list GenerateContentResponse) (thrown : option JsError)
  (s : State) :
  exchangeWithClick userText now cs1 cs2 thrown (fun x => x) s
  = tryStream (aiMsgIdOf (messageCounterRef s) now) userText
      {| events := map Chunk (cs1 ++ cs2); failure := thrown |}
      (enqueue userText now s).
Proof.
  rewrite settle_after_stream. unfold exchangeWithClick, streamedSoFar.
  cbn [events failure]. rewrite map_app, deliver_app.
  now rewrite <- surjective_pairing.
Qed.

Lemma deliver_absent (aiMsgId : jsstring) (evs : list StreamEvent) :
  forall (acc : Accumulator) (s : State),
    (forall m, In m (messages s) -> id m <> aiMsgId) ->
    messages (snd (deliver aiMsgId evs (acc, s))) = messages s.
Proof.
  induction evs as [|[c|] evs IH]; intros acc s F; cbn [deliver].
  - reflexivity.
  - unfold onChunk. destruct (negb (isMountedRef s)); [now apply IH|].
    rewrite IH; cbn [messages setMessages];
      rewrite (@map_other_ids aiMsgId _ (messages s) F); [reflexivity|exact F].
  - now rewrite IH.
Qed.

Lemma deliver_chunks_mounted (aiMsgId : jsstring)
  (cs : list GenerateContentResponse) :
  forall (a : Accumulator * State),
    isMountedRef (snd (deliver aiMsgId (map Chunk cs) a))
    = isMountedRef (snd a).
Proof.
  induction cs as [|c cs IH]; intros [acc s]; cbn [map deliver];
    [reflexivity|].
  rewrite IH. unfold onChunk. now destruct (negb (isMountedRef s)).
Qed.

Lemma settle_absent (aiMsgId : jsstring) (thrown : option JsError)
  (s : State) :
  isMountedRef s = true ->
  (forall m, In m (messages s) -> id m <> aiMsgId) ->
  settle aiMsgId thrown s
  = setIsProcessing false
      match thrown with
      | None => s
      | Some err =>
          setError (Some (orString (message err) connectionTrouble)) s
      end.
Proof.
  intros M F. unfold settle. rewrite M. cbn [negb].
  destruct thrown as [err|]; cbv zeta;
    cbn [isMountedRef setMessages setError]; rewrite M;
    unfold setMessages; cbn [messages setError];
    rewrite (@map_other_ids aiMsgId _ (messages s) F);
    destruct s; reflexivity.
Qed.

(** The "Edit" button of the user message just sent, pressed while its
    answer streams, discards the answer.  On a mounted component whose
    conversation does not yet contain the two new ids, with any chunks
    before and after the click and any end of the stream: the click removes
    the new user message and the placeholder and puts the submitted text
    back in the input, while [isProcessing] stays set; the chunks that
    follow write nothing; and at the end of the stream the conversation is
    the one before the submission, the input still holds the text,
    [isProcessing] is cleared, and a stream that threw has set the error
    banner although no message is marked as failed.  The request has been
    sent all the same. *)
Theorem edit_during_stream_discards_answer (s : State) (now : Z)
  (txt : jsstring) (cs1 cs2 : list GenerateContentResponse)
  (thrown : option JsError) :
  isMountedRef s = true ->
  (forall m, In m (messages s) ->
             id m <> aiMsgIdOf (messageCounterRef s) now
             /\ id m <> userMsgIdOf (messageCounterRef s) now) ->
  let click := handleRetry (userMsgIdOf (messageCounterRef s) now) in
  let s1 := click (snd (streamedSoFar txt now cs1 s)) in
  let s2 := exchangeWithClick txt now cs1 cs2 thrown click s in
  (messages s1 = messages s /\ inputText s1 = txt /\ isProcessing s1 = true)
  /\ messages s2 = messages s
  /\ inputText s2 = txt
  /\ isProcessing s2 = false
  /\ error s2
     = option_map (fun err => orString (message (rethrow err))
                                connectionTrouble) thrown
  /\ remoteRequests s2 = remoteRequests s ++ [txt].
Proof.
  intros Mo F click s1 s2.
  set (ai := aiMsgIdOf (messageCounterRef s) now) in *.
  set (u := userMessageOf (messageCounterRef s) now txt).
  pose (a1 := streamedSoFar txt now cs1 s).
  assert (Fu : forall m, In m (messages s ++ [u]) -> id m <> ai).
  { intros m Hm. apply in_app_or in Hm. destruct Hm as [Hm|[<-|[]]].
    - now apply F.
    - apply userMsgId_neq_aiMsgId. }
  destruct (@deliver_messages ai (messages s ++ [u]) (map Chunk cs1) Fu
              {| accumulatedText := []; accumulatedGrounding := [] |}
              (logRequest txt (enqueue txt now s))
              (aiMessagePlaceholder (messageCounterRef s) now)
              eq_refl eq_refl) as (x & Mx & _).
  change (messages (snd a1) = (messages s ++ [u]) ++ [x]) in Mx.
  destruct (deliver_frame ai (map Chunk cs1)
              ({| accumulatedText := []; accumulatedGrounding := [] |},
               logRequest txt (enqueue txt now s)))
    as [(_ & P1 & _ & _ & _ & _ & R1) _].
  change (isProcessing (snd a1) = true) in P1.
  change (remoteRequests (snd a1) = remoteRequests s ++ [txt]) in R1.
  assert (Mo1 : isMountedRef (snd a1) = true).
  { unfold a1, streamedSoFar. rewrite deliver_chunks_mounted. exact Mo. }
  assert (E1 : s1 = setError None
                      (setInputText txt
                         (setMessages (firstn (List.length (messages s)))
                            (snd a1)))).
  { subst s1 click. fold a1.
    apply (@handleRetry_at (snd a1) (List.length (messages s)) u).
    - rewrite Mx, <- app_assoc, nth_error_app2 by lia.
      now rewrite Nat.sub_diag.
    - reflexivity.
    - intros j b L Nj. rewrite Mx, <- app_assoc, nth_error_app1 in Nj by lia.
      apply nth_error_In in Nj. now apply F. }
  assert (M1 : messages s1 = messages s).
  { rewrite E1. cbn [messages setError setInputText setMessages].
    rewrite Mx, <- app_assoc, firstn_app, Nat.sub_diag, firstn_all.
    cbn [firstn]. now rewrite app_nil_r. }
  assert (F1 : forall m, In m (messages s1) -> id m <> ai)
    by (rewrite M1; intros m Hm; now apply F).
  split; [split; [exact M1|split]|].
  - now rewrite E1.
  - rewrite E1. exact P1.
  - set (a2 := deliver ai (map Chunk cs2) (fst a1, s1)).
    assert (E2 : s2 = settle ai (option_map rethrow thrown) (snd a2))
      by reflexivity.
    clearbody s2. subst s2.
    assert (M2 : messages (snd a2) = messages s1)
      by (unfold a2; now apply deliver_absent).
    assert (Mo2 : isMountedRef (snd a2) = true).
    { unfold a2. rewrite deliver_chunks_mounted. cbn [snd]. now rewrite E1. }
    destruct (deliver_frame ai (map Chunk cs2) (fst a1, s1))
      as [(I2 & _ & _ & Er2 & _ & _ & R2) _].
    fold a2 in I2, Er2, R2. cbn [snd] in I2, Er2, R2.
    rewrite settle_absent by (rewrite ?M2; assumption).
    destruct thrown as [err|];
      cbn [option_map messages inputText isProcessing error remoteRequests
           setIsProcessing setError];
      rewrite M2, M1, I2, R2, ?Er2, E1;
      cbn [inputText error remoteRequests setError setInputText setMessages];
      rewrite R1; repeat split; reflexivity.
Qed.

Lemma edit_during_stream_witness :
  let s := freshState (str "hello") in
  let click := handleRetry (str "user-0-5000") in
  let s2 :=
    exchangeWithClick (str "hello") 5000 [chunkOf (str "Hi") None]
      [chunkOf (str " there") None] (Some {| message := None; typeError := None |}) click s in
  messages s2 = []
  /\ inputText s2 = str "hello"
  /\ isProcessing s2 = false
  /\ error s2 = Some connectionTrouble
  /\ remoteRequests s2 = [str "hello"].
Proof.
  refine (proj2 (@edit_during_stream_discards_answer (freshState (str "hello"))
                   5000 (str "hello") [chunkOf (str "Hi") None]
                   [chunkOf (str " there") None] (Some {| message := None; typeError := None |})
                   eq_refl _)).
  intros m [].
Defined.
